(** * Cosmic-Infra: the options auto-seller core ([library/good_option_hoping.py])

    A shallow embedding of the dual-engine costing and order-reconciliation
    logic, and the properties of it that the specification states.

    Conventions.
    - Python [float] quantities and prices are idealised as exact rationals
      [Q]; equality of computed numbers is [Qeq] ([==]).  Python's built-in
      [round] is round-half-to-even, and it is modelled as such.  On whole
      quantities the additions and subtractions of the ledger are exact in
      floating point too; statements about prices do not rest on which way
      an exact tie is resolved or on the last digit of an average.
    - Timestamps ([datetime], microsecond resolution) are [Z] microseconds
      since the epoch.
    - Calls to the broker client are not executed: a decision cycle returns
      the list of broker calls it issues, and takes the broker's answer to a
      placement as an input. *)

From Stdlib Require Import QArith Qround Qabs Lqa ZArith Lia List Bool String Sorted Permutation.
From stdpp Require Import base option gmap strings.
Import ListNotations.

Local Open Scope Q_scope.

(** ** Numbers *)

Module Num.

(** [a < b] as a boolean, the way Python compares floats. *)
Definition Qltb (a b : Q) : bool := negb (Qle_bool b a).

(** Python's [min(a, b)]: [b] when [b < a], otherwise [a]. *)
Definition qmin (a b : Q) : Q := if Qltb b a then b else a.

(** Python 3's [round(x)]: nearest integer, ties to the even one. *)
Definition py_round (x : Q) : Z :=
  let f := Qfloor x in
  let r := x - inject_Z f in
  if Qltb r (1#2) then f
  else if Qltb (1#2) r then (f + 1)%Z
  else if Z.even f then f else (f + 1)%Z.

(** [round(x, 2)] on an exact number. *)
Definition py_round2 (x : Q) : Q := inject_Z (py_round (x * 100)) / 100.

(** [round_to_tick], line 85. *)
Definition round_to_tick (price tick : Q) : Q :=
  py_round2 (inject_Z (py_round (price / tick)) * tick).

Definition sum_Q (l : list Q) : Q := fold_left Qplus l 0.

(** [weighted_avg], line 88: pairs are (quantity, price). *)
Definition weighted_avg (pairs : list (Q * Q)) : Q :=
  let num := sum_Q (map (fun p => fst p * snd p) pairs) in
  let den := sum_Q (map fst pairs) in
  if Qltb 0 den then num / den else 0.

End Num.
Import Num.

(** ** Configuration (lines 53-69, 144) *)

Record Config := {
  OPTION_PRODUCTS : list string;
  TICK_SIZE_OPT : Q;
  AUTO_SELL_MARGIN_OPT : Q;
  USE_EXECUTIONS : bool;
  DEFER_ON_START_SEC : Q;
  LEDGER_USE_SYNTHETIC_BOOTSTRAP : bool
}.

(** The values the module takes when the environment sets nothing. *)
Definition default_config : Config := {|
  OPTION_PRODUCTS := ["NRML"; "MIS"]%string;
  TICK_SIZE_OPT := 5 # 100;
  AUTO_SELL_MARGIN_OPT := 25 # 100;
  USE_EXECUTIONS := true;
  DEFER_ON_START_SEC := 2;
  LEDGER_USE_SYNTHETIC_BOOTSTRAP := true
|}.

Definition PLACE_PRODUCT (cfg : Config) : string :=
  match OPTION_PRODUCTS cfg with
  | p :: _ => p
  | [] => "NRML"%string
  end.

Definition MAX_EXEC_ID_CACHE : Z := 10000.

(** ** Normalized executions and the FIFO ledger engine *)

Inductive Side := BUY | SELL.

(** A normalized execution row, as [fetch_executions_lookback] appends it
    (lines 320-323).  The fetcher keeps a row only when its side is "BUY" or
    "SELL" (line 303), so the side is one of two constructors. *)
Record Exec := {
  time : Z;
  side : Side;
  qty : Q;
  price : Q;
  symbol : string;
  exchange : string;
  product : string;
  exec_id : option string
}.

(** A FIFO lot: (quantity, unit price). *)
Abbreviation lot := (Q * Q)%type.

Module Fifo.

Definition in_products (cfg : Config) (p : string) : bool :=
  existsb (String.eqb p) (OPTION_PRODUCTS cfg).

(** The row belongs to the instrument and to a product in scope: the negation
    of the [continue] test of line 408. *)
Definition in_scope (cfg : Config) (exch sym : string) (r : Exec) : bool :=
  String.eqb (exchange r) exch && String.eqb (symbol r) sym
  && in_products cfg (product r).

(** One pass through the body of the [while] loop, lines 415-422. *)
Definition sell_iter (sell_qty : Q) (queue : list lot) : Q * list lot :=
  match queue with
  | [] => (sell_qty, [])
  | (lot_qty, lot_price) :: rest =>
      let take := qmin sell_qty lot_qty in
      let lot_qty' := lot_qty - take in
      let sell_qty' := sell_qty - take in
      if Qle_bool lot_qty' 0 then (sell_qty', rest)
      else (sell_qty', (lot_qty', lot_price) :: rest)
  end.

(** [while sell_qty > 0 and queue: ...], with fuel; [None] is "out of fuel". *)
Fixpoint sell_loop (fuel : nat) (sell_qty : Q) (queue : list lot)
  : option (list lot) :=
  if Qltb 0 sell_qty && negb (bool_decide (queue = [])) then
    match fuel with
    | O => None
    | S fuel' =>
        let '(sell_qty', queue') := sell_iter sell_qty queue in
        sell_loop fuel' sell_qty' queue'
    end
  else Some queue.

(** A SELL applied to the queue; the queue's length is always enough fuel
    ([sell_loop_total]). *)
Definition apply_sell (sell_qty : Q) (queue : list lot) : option (list lot) :=
  sell_loop (length queue) sell_qty queue.

(** The [for r in execs] loop of lines 407-422. *)
Fixpoint ledger_loop (cfg : Config) (exch sym : string)
    (execs : list Exec) (queue : list lot) : option (list lot) :=
  match execs with
  | [] => Some queue
  | r :: execs' =>
      if negb (in_scope cfg exch sym r) then ledger_loop cfg exch sym execs' queue
      else match side r with
           | BUY => ledger_loop cfg exch sym execs' (queue ++ [(qty r, price r)])
           | SELL =>
               queue' ← apply_sell (qty r) queue;
               ledger_loop cfg exch sym execs' queue'
           end
  end.

Definition seed_queue (cfg : Config) (opening_qty opening_avg : Q) : list lot :=
  if LEDGER_USE_SYNTHETIC_BOOTSTRAP cfg && Qltb 0 opening_qty && Qltb 0 opening_avg
  then [(opening_qty, opening_avg)] else [].

(** [open_qty, open_avg] of a queue, lines 425-426. *)
Definition queue_result (queue : list lot) : Q * option Q :=
  let open_qty := sum_Q (map fst queue) in
  let open_avg := if Qltb 0 open_qty then Some (weighted_avg queue) else None in
  (open_qty, open_avg).

(** [fifo_ledger_avg], line 397. *)
Definition fifo_ledger_avg (cfg : Config) (execs : list Exec) (exch sym : string)
    (opening_qty opening_avg : Q) : option (Q * option Q) :=
  queue ← ledger_loop cfg exch sym execs (seed_queue cfg opening_qty opening_avg);
  Some (queue_result queue).

(** *** The session mini-ledger, lines 556-577 *)

(** [sess_execs], lines 556-558; [None] for [session_start] does not occur
    here, the caller tests it first. *)
Definition sess_execs (cfg : Config) (exch sym : string) (session_start : Z)
    (execs : list Exec) : list Exec :=
  List.filter (fun r => in_scope cfg exch sym r && (session_start <=? time r)%Z) execs.

(** The inline loop, lines 561-574. *)
Fixpoint session_loop (execs : list Exec) (queue : list lot) : option (list lot) :=
  match execs with
  | [] => Some queue
  | r :: execs' =>
      match side r with
      | BUY => session_loop execs' (queue ++ [(qty r, price r)])
      | SELL =>
          queue' ← apply_sell (qty r) queue;
          session_loop execs' queue'
      end
  end.

(** What the inline computation yields: [sess_open_qty] and the value given
    to [session_avg] (lines 575-577). *)
Definition session_ledger (cfg : Config) (execs : list Exec) (exch sym : string)
    (session_start : Z) : option (Q * option Q) :=
  queue ← session_loop (sess_execs cfg exch sym session_start execs) [];
  let sess_open_qty := sum_Q (map fst queue) in
  Some (sess_open_qty,
        if Qltb 0 sess_open_qty then Some (weighted_avg queue) else None).

End Fifo.
Import Fifo.

(** ** The execution normalizer: filtering, de-duplication, sorting *)

Module Normalizer.

(** A fetched row after the field extraction of lines 273-310: upper-cased
    exchange, symbol and side, the parsed timestamp ([None] when no format
    applies), and [str(... or "")] for the execution id.  Rows whose
    extraction raises are dropped by line 324 before they reach the cache and
    are not represented. *)
Record RawRow := {
  r_exch : string;
  r_sym : string;
  r_dt : option Z;
  r_side : string;
  r_qty : Q;
  r_price : Q;
  r_product : string;
  r_exec_id : string
}.

Definition parse_side (s : string) : option Side :=
  if String.eqb s "BUY" then Some BUY
  else if String.eqb s "SELL" then Some SELL
  else None.

(** [str(...) or None]. *)
Definition exec_id_of (s : string) : option string :=
  if String.eqb s "" then None else Some s.

(** What one pass of the loop body does with a row. *)
Inductive outcome :=
| Skipped
| Yielded (e : Exec) (cleared : bool).

(** Lines 313-318 on a non-empty id that is not in the cache: add it, and
    clear the whole cache when it has grown past the capacity. *)
Definition remember (cap : Z) (i : string) (cache : gset string)
  : bool * gset string :=
  let cache' := {[ i ]} ∪ cache in
  if (cap <? Z.of_nat (size cache'))%Z then (true, ∅) else (false, cache').

(** The loop body, lines 273-323. *)
Definition normalize_row (cap : Z) (cutoff : Z) (cache : gset string) (r : RawRow)
  : outcome * gset string :=
  if String.eqb (r_exch r) "" || String.eqb (r_sym r) "" then (Skipped, cache)
  else match r_dt r with
  | None => (Skipped, cache)
  | Some dt =>
    if (dt <? cutoff)%Z then (Skipped, cache)
    else match parse_side (r_side r) with
    | None => (Skipped, cache)
    | Some sd =>
      if Qle_bool (r_qty r) 0 then (Skipped, cache)
      else
        let e := {| time := dt; side := sd; qty := r_qty r; price := r_price r;
                    symbol := r_sym r; exchange := r_exch r;
                    product := r_product r; exec_id := exec_id_of (r_exec_id r) |} in
        match exec_id_of (r_exec_id r) with
        | None => (Yielded e false, cache)
        | Some i =>
            if bool_decide (i ∈ cache) then (Skipped, cache)
            else let '(cleared, cache') := remember cap i cache in
                 (Yielded e cleared, cache')
        end
    end
  end.

(** The [for r in rows] loop: the outcomes in row order, and the cache left. *)
Fixpoint normalize_rows (cap cutoff : Z) (cache : gset string) (rows : list RawRow)
  : list outcome * gset string :=
  match rows with
  | [] => ([], cache)
  | r :: rows' =>
      let '(o, cache1) := normalize_row cap cutoff cache r in
      let '(os, cache2) := normalize_rows cap cutoff cache1 rows' in
      (o :: os, cache2)
  end.

(** The same loop over rows that each come with the cutoff of the fetch call
    they belong to: the rows of successive calls, one after the other. *)
Fixpoint run_rows (cap : Z) (cache : gset string) (steps : list (Z * RawRow))
  : list outcome * gset string :=
  match steps with
  | [] => ([], cache)
  | (cutoff, r) :: steps' =>
      let '(o, cache1) := normalize_row cap cutoff cache r in
      let '(os, cache2) := run_rows cap cache1 steps' in
      (o :: os, cache2)
  end.

Definition steps_of (calls : list (Z * list RawRow)) : list (Z * RawRow) :=
  concat (map (fun c => map (pair (fst c)) (snd c)) calls).

Definition yielded (os : list outcome) : list Exec :=
  omap (fun o => match o with Yielded e _ => Some e | Skipped => None end) os.

(** [list.sort(key=time)] is stable: rows with equal times keep their order. *)
Fixpoint insert_by_time (e : Exec) (l : list Exec) : list Exec :=
  match l with
  | [] => [e]
  | x :: l' => if (time e <=? time x)%Z then e :: x :: l'
               else x :: insert_by_time e l'
  end.

Definition sort_by_time (l : list Exec) : list Exec :=
  fold_right insert_by_time [] l.

(** [fetch_executions_lookback], from line 269 on: [rows] are the rows
    gathered from the four sources, [cutoff] is [now - days]; the result is
    the returned list and the new state of [PROCESSED_EXEC_IDS]. *)
Definition fetch_executions_lookback (cutoff : Z) (rows : list RawRow)
    (cache : gset string) : list Exec * gset string :=
  let '(os, cache') := normalize_rows MAX_EXEC_ID_CACHE cutoff cache rows in
  (sort_by_time (yielded os), cache').

(** Successive fetch calls share the cache. *)
Fixpoint fetch_calls (calls : list (Z * list RawRow)) (cache : gset string)
  : list (list Exec) * gset string :=
  match calls with
  | [] => ([], cache)
  | (cutoff, rows) :: calls' =>
      let '(out, cache1) := fetch_executions_lookback cutoff rows cache in
      let '(outs, cache2) := fetch_calls calls' cache1 in
      (out :: outs, cache2)
  end.

End Normalizer.

(** ** Broker interface *)

(** An order-book entry with the fields the engine reads: upper-cased
    exchange, product, symbol and action, lower-cased status. *)
Record Order := {
  orderid : string;
  o_exchange : string;
  o_symbol : string;
  o_product : string;
  action : string;
  quantity : Q;
  o_price : Q;
  status : string
}.

(** Calls the engine issues to the broker client. *)
Inductive BrokerCall :=
| CancelOrder (order_id : string)
| PlaceOrder (sym exch act : string) (q : Q) (px : Q) (prod price_type : string).

(** The ["data"] entry of a placement response. *)
Inductive RespData :=
| DataAbsent
| DataNotDict
| DataDict (d_orderid d_order_id : option string).

(** What [client.placeorder] does: raise, or return a response. *)
Inductive PlaceAnswer :=
| PlaceRaises
| PlaceResp (resp_orderid resp_order_id : option string) (data : RespData).

Module Engine.

Definition EXCHANGES : list string := ["NFO"; "BFO"]%string.

(** [is_option_symbol], line 93, on an upper-cased, stripped symbol. *)
Definition ends_with (suffix s : string) : bool :=
  String.eqb
    (String.substring (String.length s - String.length suffix)
                      (String.length suffix) s) suffix
  && (String.length suffix <=? String.length s)%nat.

Definition is_option_symbol (s : string) : bool :=
  ends_with "CE" s || ends_with "PE" s.

(** [snapshot_open_orders_options()[key]] with the default [[]], lines
    372-393 and 621: the open orders of the order book in scope for the
    instrument. *)
Definition open_orders_get (cfg : Config) (book : list Order)
    (exch sym : string) : list Order :=
  List.filter
    (fun o => existsb (String.eqb (o_exchange o)) EXCHANGES
              && in_products cfg (o_product o)
              && String.eqb (status o) "open"
              && is_option_symbol (o_symbol o)
              && String.eqb (o_exchange o) exch && String.eqb (o_symbol o) sym)
    book.

(** *** Per-instrument state, lines 98-136 *)

Record SymbolState := {
  st_symbol : string;
  st_exchange : string;
  total_qty : Q;
  avg_price : Q;
  open_sell_id : option string;
  open_sell_px : option Q;
  open_sell_qty : option Q;
  tracking : bool;
  manual_override : bool;
  armed : bool;
  session_id : Z;
  session_start : option Z;
  session_buy_qty : Q;
  session_buy_value : Q;
  last_exec_id : option string;
  session_populated : bool
}.

Definition new_state (sym exch : string) : SymbolState := {|
  st_symbol := sym; st_exchange := exch;
  total_qty := 0; avg_price := 0;
  open_sell_id := None; open_sell_px := None; open_sell_qty := None;
  tracking := false; manual_override := false; armed := false;
  session_id := 0; session_start := None;
  session_buy_qty := 0; session_buy_value := 0;
  last_exec_id := None; session_populated := false |}.

Definition set_view (q a : Q) (st : SymbolState) : SymbolState := {|
  st_symbol := st_symbol st; st_exchange := st_exchange st;
  total_qty := q; avg_price := a;
  open_sell_id := open_sell_id st; open_sell_px := open_sell_px st;
  open_sell_qty := open_sell_qty st;
  tracking := tracking st; manual_override := manual_override st;
  armed := armed st;
  session_id := session_id st; session_start := session_start st;
  session_buy_qty := session_buy_qty st;
  session_buy_value := session_buy_value st;
  last_exec_id := last_exec_id st; session_populated := session_populated st |}.

Definition set_open_sell (oid : option string) (px oq : option Q)
    (st : SymbolState) : SymbolState := {|
  st_symbol := st_symbol st; st_exchange := st_exchange st;
  total_qty := total_qty st; avg_price := avg_price st;
  open_sell_id := oid; open_sell_px := px; open_sell_qty := oq;
  tracking := tracking st; manual_override := manual_override st;
  armed := armed st;
  session_id := session_id st; session_start := session_start st;
  session_buy_qty := session_buy_qty st;
  session_buy_value := session_buy_value st;
  last_exec_id := last_exec_id st; session_populated := session_populated st |}.

Definition set_tracking (b : bool) (st : SymbolState) : SymbolState := {|
  st_symbol := st_symbol st; st_exchange := st_exchange st;
  total_qty := total_qty st; avg_price := avg_price st;
  open_sell_id := open_sell_id st; open_sell_px := open_sell_px st;
  open_sell_qty := open_sell_qty st;
  tracking := b; manual_override := manual_override st;
  armed := armed st;
  session_id := session_id st; session_start := session_start st;
  session_buy_qty := session_buy_qty st;
  session_buy_value := session_buy_value st;
  last_exec_id := last_exec_id st; session_populated := session_populated st |}.

Definition set_manual_override (b : bool) (st : SymbolState) : SymbolState := {|
  st_symbol := st_symbol st; st_exchange := st_exchange st;
  total_qty := total_qty st; avg_price := avg_price st;
  open_sell_id := open_sell_id st; open_sell_px := open_sell_px st;
  open_sell_qty := open_sell_qty st;
  tracking := tracking st; manual_override := b;
  armed := armed st;
  session_id := session_id st; session_start := session_start st;
  session_buy_qty := session_buy_qty st;
  session_buy_value := session_buy_value st;
  last_exec_id := last_exec_id st; session_populated := session_populated st |}.

Definition set_armed (b : bool) (st : SymbolState) : SymbolState := {|
  st_symbol := st_symbol st; st_exchange := st_exchange st;
  total_qty := total_qty st; avg_price := avg_price st;
  open_sell_id := open_sell_id st; open_sell_px := open_sell_px st;
  open_sell_qty := open_sell_qty st;
  tracking := tracking st; manual_override := manual_override st;
  armed := b;
  session_id := session_id st; session_start := session_start st;
  session_buy_qty := session_buy_qty st;
  session_buy_value := session_buy_value st;
  last_exec_id := last_exec_id st; session_populated := session_populated st |}.

(** The session fields together, as the two session methods and line 578
    write them. *)
Definition set_session (sid : Z) (start : option Z) (bq bv : Q)
    (lei : option string) (arm pop : bool) (st : SymbolState) : SymbolState := {|
  st_symbol := st_symbol st; st_exchange := st_exchange st;
  total_qty := total_qty st; avg_price := avg_price st;
  open_sell_id := open_sell_id st; open_sell_px := open_sell_px st;
  open_sell_qty := open_sell_qty st;
  tracking := tracking st; manual_override := manual_override st;
  armed := arm;
  session_id := sid; session_start := start;
  session_buy_qty := bq; session_buy_value := bv;
  last_exec_id := lei; session_populated := pop |}.

(** [reset_session], line 119; [now] is the value of [now_utc()]. *)
Definition reset_session (now : Z) (st : SymbolState) : SymbolState :=
  set_session (session_id st + 1) (Some now) 0 0 None true false st.

(** [clear_session], line 128. *)
Definition clear_session (st : SymbolState) : SymbolState :=
  set_session (session_id st) None 0 0 None false (session_populated st) st.

(** Lines 578-579. *)
Definition note_session_qty (q : Q) (st : SymbolState) : SymbolState :=
  set_session (session_id st) (session_start st) q (session_buy_value st)
              (last_exec_id st) (armed st) true st.

(** *** Actions, lines 431-472 *)

Definition cancellable (s : string) : bool :=
  existsb (String.eqb s) ["open"; "pending"; "trigger_pending"]%string.

(** [cancel_existing_sells], line 431, on [open_orders.get(key, [])]: the
    cancellations it requests.  A failing cancellation is caught and logged. *)
Fixpoint cancel_existing_sells (orders : list Order) : list BrokerCall :=
  match orders with
  | [] => []
  | o :: orders' =>
      if String.eqb (action o) "SELL" then
        if negb (cancellable (status o)) then cancel_existing_sells orders'
        else CancelOrder (orderid o) :: cancel_existing_sells orders'
      else cancel_existing_sells orders'
  end.

(** Python truthiness of an optional id. *)
Definition truthy (o : option string) : bool :=
  match o with
  | Some s => negb (String.eqb s "")
  | None => false
  end.

(** [resp.get("data", {}).get(k)]; [None] when that expression raises. *)
Definition data_get (d : RespData) (second : bool) : option (option string) :=
  match d with
  | DataAbsent => Some None
  | DataNotDict => None
  | DataDict a b => Some (if second then b else a)
  end.

(** The [or] chain of lines 462-467; [None] when it raises. *)
Definition response_oid (a b : option string) (d : RespData)
  : option (option string) :=
  if truthy a then Some a
  else if truthy b then Some b
  else
    c ← data_get d false;
    if truthy c then Some c else data_get d true.

(** [ensure_one_sell], line 448: the triple returned and the broker calls
    made, given what the broker answers to a placement. *)
Definition ensure_one_sell (cfg : Config) (exch sym : string) (q avg : Q)
    (answer : PlaceAnswer)
  : (option string * option Q * option Q) * list BrokerCall :=
  if Qle_bool q 0 then ((None, None, None), [])
  else
    let px := round_to_tick (avg + AUTO_SELL_MARGIN_OPT cfg) (TICK_SIZE_OPT cfg) in
    let call := PlaceOrder sym exch "SELL" q px (PLACE_PRODUCT cfg) "LIMIT" in
    match answer with
    | PlaceRaises => ((None, None, None), [call])
    | PlaceResp a b d =>
        match response_oid a b d with
        | None => ((None, None, None), [call])
        | Some oid => ((if truthy oid then oid else None, Some px, Some q), [call])
        end
    end.

(** *** The decision cycle of one instrument, lines 511-654 *)

Inductive Source := Session | Ledger | SessionPartial | PositionUNSAFE.

Inductive Choice :=
| Defer
| Chosen (source : Source) (chosen_avg : Q).

(** Seconds between two timestamps, [(b - a).total_seconds()]. *)
Definition total_seconds (a b : Z) : Q := inject_Z (b - a) / 1000000.

(** "Choose avg according to rules", lines 584-610.  [now] is the value of
    [now_utc()] at line 603. *)
Definition choose_avg (cfg : Config) (session_avg : option Q)
    (session_buy_qty qty ledger_open_qty : Q) (ledger_open_avg : option Q)
    (session_start : option Z) (now : Z) (pos_avg_pos_legs : Q) : Choice :=
  (* ledger_open_avg is not None and ledger_open_qty >= qty * 0.95 *)
  let ledger_pick :=
    match ledger_open_avg with
    | Some lavg => if Qle_bool (qty * (95 # 100)) ledger_open_qty
                   then Some lavg else None
    | None => None
    end in
  match session_avg, Qltb 0 session_buy_qty with
  | Some savg, true =>
      let coverage_ratio := if Qltb 0 qty then session_buy_qty / qty else 0 in
      if Qle_bool (95 # 100) coverage_ratio then Chosen Session savg
      else match ledger_pick with
           | Some lavg => Chosen Ledger lavg
           | None => Chosen SessionPartial savg
           end
  | _, _ =>
      match ledger_pick with
      | Some lavg => Chosen Ledger lavg
      | None =>
          let defer :=
            USE_EXECUTIONS cfg
            && match session_start with
               | Some ss => Qltb (total_seconds ss now) (DEFER_ON_START_SEC cfg)
               | None => false
               end in
          if defer then Defer else Chosen PositionUNSAFE pos_avg_pos_legs
      end
  end.

(** The target price, line 616. *)
Definition target_price (cfg : Config) (chosen_avg : Q) : Q :=
  round_to_tick (chosen_avg + AUTO_SELL_MARGIN_OPT cfg) (TICK_SIZE_OPT cfg).

Definition EPSILON : Q := 1 # 1000000.

(** The first live SELL at exactly the current quantity, lines 621-622. *)
Definition find_sell (orders : list Order) (q : Q) : option Order :=
  List.find (fun o => String.eqb (action o) "SELL" && Qeq_bool (quantity o) q) orders.

(** What one cycle reads for one instrument. *)
Record CycleInput := {
  in_qty : Q;                  (* totals.get(key, (0.0, 0.0)) *)
  in_pos_avg : Q;
  in_orders : list Order;      (* open_orders.get(key, []) *)
  in_execs : list Exec;        (* the executions fetched this cycle *)
  in_now_session : Z;          (* now_utc() inside reset_session *)
  in_now_defer : Z;            (* now_utc() at line 603 *)
  in_answer : PlaceAnswer      (* the broker's answer to a placement *)
}.

(** What one cycle leaves: the state, [last_qty[key]], the broker calls in
    the order they are made, and the costing source when one was chosen. *)
Record CycleResult := {
  out_state : SymbolState;
  out_last_qty : Q;
  out_calls : list BrokerCall;
  out_choice : option Choice
}.

(** Lines 544-550. *)
Definition ledger_engine (cfg : Config) (st : SymbolState) (inp : CycleInput)
  : option (Q * option Q) :=
  if USE_EXECUTIONS cfg then
    fifo_ledger_avg cfg (in_execs inp) (st_exchange st) (st_symbol st)
      (match session_start st with None => in_qty inp | Some _ => 0 end)
      (match session_start st with None => in_pos_avg inp | Some _ => 0 end)
  else Some (0, None).

(** Lines 553-580: [session_avg] and the state after line 579. *)
Definition session_engine (cfg : Config) (st : SymbolState) (inp : CycleInput)
  : option (option Q * SymbolState) :=
  match session_start st with
  | Some ss =>
      if USE_EXECUTIONS cfg then
        '(sess_open_qty, savg) ← session_ledger cfg (in_execs inp)
                                   (st_exchange st) (st_symbol st) ss;
        if Qltb 0 sess_open_qty
        then Some (savg, note_session_qty sess_open_qty st)
        else Some (None, st)
      else Some (None, st)
  | None => Some (None, st)
  end.

(** Lines 618-652: inspect the open orders and keep, leave, place or
    re-price. *)
Definition reconcile (cfg : Config) (st : SymbolState) (inp : CycleInput)
    (chosen_avg : Q) : SymbolState * list BrokerCall :=
  let q := in_qty inp in
  let exch := st_exchange st in
  let sym := st_symbol st in
  let target_px := target_price cfg chosen_avg in
  let found := find_sell (in_orders inp) q in
  let '(st1, matched_target) :=
    match found with
    | Some o =>
        let actual_px := o_price o in
        let st' := set_open_sell (Some (orderid o)) (Some actual_px) (Some q) st in
        if Qltb (Qabs (actual_px - target_px)) EPSILON
        then (set_manual_override false st', true)
        else (set_manual_override true st', false)
    | None => (st, false)
    end in
  if matched_target then (set_armed false st1, [])
  else if bool_decide (found <> None) && manual_override st1
  then (set_armed false st1, [])
  else if armed st1 then
    let '((oid, px, oq), calls) :=
      ensure_one_sell cfg exch sym q chosen_avg (in_answer inp) in
    (set_armed false (set_open_sell oid px oq st1), calls)
  else
    let cancels := cancel_existing_sells (in_orders inp) in
    let '((oid, px, oq), calls) :=
      ensure_one_sell cfg exch sym q chosen_avg (in_answer inp) in
    (set_open_sell oid px oq st1, cancels ++ calls).

(** Lines 532-541, for a positive quantity: start tracking if needed, and
    re-arm when the quantity grew. *)
Definition cycle_start (st : SymbolState) (prev_qty : Q) (inp : CycleInput)
  : SymbolState :=
  let st1 := if negb (tracking st)
             then reset_session (in_now_session inp) (set_tracking true st)
             else st in
  if Qltb prev_qty (in_qty inp) then set_armed true st1 else st1.

(** Both engines, lines 543-580: the ledger's open quantity and average, the
    session average, and the state after the session engine. *)
Definition costing (cfg : Config) (st : SymbolState) (inp : CycleInput)
  : option (Q * option Q * option Q * SymbolState) :=
  '(ledger_open_qty, ledger_open_avg) ← ledger_engine cfg st inp;
  '(session_avg, st') ← session_engine cfg st inp;
  Some (ledger_open_qty, ledger_open_avg, session_avg, st').

(** The body of the per-symbol loop, lines 511-654, for the instrument of
    [st]; [prev_qty] is [last_qty.get(key, 0.0)]. *)
Definition symbol_cycle (cfg : Config) (st : SymbolState) (prev_qty : Q)
    (inp : CycleInput) : option CycleResult :=
  let q := in_qty inp in
  if Qle_bool q 0 then
    let st0 := set_view 0 0 st in
    if tracking st0 then
      let calls := cancel_existing_sells (in_orders inp) in
      let st1 := clear_session
                   (set_tracking false
                      (set_manual_override false
                         (set_open_sell None None None st0))) in
      Some {| out_state := st1; out_last_qty := 0; out_calls := calls;
              out_choice := None |}
    else
      Some {| out_state := st0; out_last_qty := 0; out_calls := [];
              out_choice := None |}
  else
    let st2 := cycle_start st prev_qty inp in
    '(ledger_open_qty, ledger_open_avg, session_avg, st3) ← costing cfg st2 inp;
    let choice :=
      choose_avg cfg session_avg (session_buy_qty st3) q
                 ledger_open_qty ledger_open_avg
                 (session_start st3) (in_now_defer inp) (in_pos_avg inp) in
    match choice with
    | Defer =>
        Some {| out_state := st3; out_last_qty := q; out_calls := [];
                out_choice := Some Defer |}
    | Chosen source chosen_avg =>
        let st4 := set_view q chosen_avg st3 in
        let '(st5, calls) := reconcile cfg st4 inp chosen_avg in
        Some {| out_state := st5; out_last_qty := q; out_calls := calls;
                out_choice := Some choice |}
    end.

(** A run of cycles for one instrument: each cycle starts from the state and
    [last_qty] the previous one left. *)
Fixpoint run_cycles (cfg : Config) (st : SymbolState) (prev_qty : Q)
    (inps : list CycleInput) : option (list CycleResult) :=
  match inps with
  | [] => Some []
  | inp :: inps' =>
      r ← symbol_cycle cfg st prev_qty inp;
      rs ← run_cycles cfg (out_state r) (out_last_qty r) inps';
      Some (r :: rs)
  end.

(** *** An order store that reflects the engine's calls *)

(** The order a successful placement creates, under the id the broker
    answered with. *)
Definition placed_order (oid : string) (c : BrokerCall) : option Order :=
  match c with
  | PlaceOrder sym exch act q px prod _ =>
      Some {| orderid := oid; o_exchange := exch; o_symbol := sym;
              o_product := prod; action := act; quantity := q; o_price := px;
              status := "open" |}
  | CancelOrder _ => None
  end.

(** The book after one call: a cancellation removes the order with that id, a
    placement the broker accepted under [oid] adds the order. *)
Definition book_after_call (oid : option string) (book : list Order)
    (c : BrokerCall) : list Order :=
  match c with
  | CancelOrder i => List.filter (fun o => negb (String.eqb (orderid o) i)) book
  | PlaceOrder _ _ _ _ _ _ _ =>
      match oid with
      | Some i => book ++ option_list (placed_order i c)
      | None => book
      end
  end.

Definition book_after (oid : option string) (book : list Order)
    (calls : list BrokerCall) : list Order :=
  fold_left (book_after_call oid) calls book.

Definition live_sells (cfg : Config) (book : list Order) (exch sym : string)
  : list Order :=
  List.filter (fun o => String.eqb (action o) "SELL")
              (open_orders_get cfg book exch sym).

End Engine.

(** * Notions used to state the properties *)

Module Notions.
Import Normalizer Engine.

(** The total quantity of a lot queue, [sum(q for q, _ in queue)]. *)
Definition total (queue : list lot) : Q := sum_Q (map fst queue).

Definition lots_pos (queue : list lot) : Prop := Forall (fun l => 0 < fst l) queue.

(** The queue a SELL leaves, by recursion on the queue: lots are dropped from
    the front while the SELL covers them, and the first lot it does not cover
    is reduced. *)
Fixpoint consume (sell_qty : Q) (queue : list lot) : list lot :=
  match queue with
  | [] => []
  | (lot_qty, lot_price) :: rest =>
      if Qltb 0 sell_qty then
        if Qle_bool (lot_qty - qmin sell_qty lot_qty) 0
        then consume (sell_qty - qmin sell_qty lot_qty) rest
        else (lot_qty - qmin sell_qty lot_qty, lot_price) :: rest
      else queue
  end.

Definition side_is (sd : Side) (r : Exec) : bool :=
  match side r, sd with
  | BUY, BUY | SELL, SELL => true
  | _, _ => false
  end.

(** Quantity traded on one side by the rows of the instrument. *)
Definition traded (cfg : Config) (exch sym : string) (sd : Side)
    (execs : list Exec) : Q :=
  sum_Q (map qty (List.filter (fun r => in_scope cfg exch sym r && side_is sd r) execs)).

(** "Clamped at zero". *)
Definition clamp0 (x : Q) : Q := if Qltb x 0 then 0 else x.

(** No SELL of the instrument exceeds what is open when it is applied;
    [bal] is the quantity open before the first row. *)
Fixpoint never_short (cfg : Config) (exch sym : string) (bal : Q)
    (execs : list Exec) : Prop :=
  match execs with
  | [] => True
  | r :: execs' =>
      if in_scope cfg exch sym r then
        match side r with
        | BUY => never_short cfg exch sym (bal + qty r) execs'
        | SELL => qty r <= bal /\ never_short cfg exch sym (bal - qty r) execs'
        end
      else never_short cfg exch sym bal execs'
  end.

(** A whole number, as the quantities of option contracts are. *)
Definition whole (q : Q) : bool := Qeq_bool (inject_Z (Qfloor q)) q.

(** The quantity open after the rows of the instrument, kept as a running
    balance: a BUY adds its quantity, a SELL subtracts its quantity and the
    balance stops at zero.  [bal] is the balance before the first row. *)
Fixpoint running_open (cfg : Config) (exch sym : string) (bal : Q)
    (execs : list Exec) : Q :=
  match execs with
  | [] => bal
  | r :: execs' =>
      if in_scope cfg exch sym r then
        match side r with
        | BUY => running_open cfg exch sym (bal + qty r) execs'
        | SELL => running_open cfg exch sym (clamp0 (bal - qty r)) execs'
        end
      else running_open cfg exch sym bal execs'
  end.

Definition mk_exec (t : Z) (sd : Side) (q p : Q) : Exec :=
  {| time := t; side := sd; qty := q; price := p;
     symbol := "NIFTY24CE"; exchange := "NFO"; product := "NRML";
     exec_id := None |}.

(** The rows of a list that carry timestamp [t], in list order. *)
Definition at_time (t : Z) (l : list Exec) : list Exec :=
  List.filter (fun e => (time e =? t)%Z) l.

Definition time_le (a b : Exec) : Prop := (time a <= time b)%Z.

Definition time_sorted (l : list Exec) : Prop := StronglySorted time_le l.

Definition mk_row (t : Z) (sd i : string) : RawRow :=
  {| r_exch := "NFO"; r_sym := "NIFTY24CE"; r_dt := Some t; r_side := sd;
     r_qty := 10; r_price := 100; r_product := "NRML"; r_exec_id := i |}.

Definition exec_of_row (t : Z) (sd : Side) (i : string) : Exec :=
  {| time := t; side := sd; qty := 10; price := 100;
     symbol := "NIFTY24CE"; exchange := "NFO"; product := "NRML";
     exec_id := Some i |}.

(** Half-up rounding, as the specification words it: to the nearest tick,
    ties upwards, then to two decimals, ties upwards. *)
Definition spec_round_half_up (x : Q) : Z := Qfloor (x + (1#2)).

Definition spec_target_half_up (cfg : Config) (chosen_avg : Q) : Q :=
  let tick := TICK_SIZE_OPT cfg in
  let ticks := spec_round_half_up ((chosen_avg + AUTO_SELL_MARGIN_OPT cfg) / tick) in
  inject_Z (spec_round_half_up (inject_Z ticks * tick * 100)) / 100.

Definition is_place (c : BrokerCall) : bool :=
  match c with
  | PlaceOrder _ _ _ _ _ _ _ => true
  | CancelOrder _ => false
  end.

(** The first branch of a priority list that applies. *)
Fixpoint first_of (branches : list (option Choice)) (otherwise : Choice)
  : Choice :=
  match branches with
  | [] => otherwise
  | Some c :: _ => c
  | None :: branches' => first_of branches' otherwise
  end.

(** The six-branch policy in the words of the specification, in priority
    order: (1) Session when a session average exists and covers 95% of the
    quantity; (2) Ledger when the ledger average covers 95%; (3)
    Session-Partial when a session average exists; (4) Ledger when it covers
    95%; (5) defer inside the defer window since session start; (6) the
    position average, flagged unsafe. *)
Definition spec_policy (cfg : Config) (session_avg : option Q)
    (session_buy_qty qty ledger_open_qty : Q) (ledger_open_avg : option Q)
    (session_start : option Z) (now : Z) (pos_avg : Q) : Choice :=
  let session_covers := Qle_bool (95 # 100) (session_buy_qty / qty) in
  let ledger_covers := Qle_bool (qty * (95 # 100)) ledger_open_qty in
  let in_defer_window :=
    match session_start with
    | Some ss => Qltb (total_seconds ss now) (DEFER_ON_START_SEC cfg)
    | None => false
    end in
  first_of
    [ savg ← session_avg;
      (if session_covers then Some (Chosen Session savg) else None);
      lavg ← ledger_open_avg;
      (if ledger_covers then Some (Chosen Ledger lavg) else None);
      savg ← session_avg; Some (Chosen SessionPartial savg);
      lavg ← ledger_open_avg;
      (if ledger_covers then Some (Chosen Ledger lavg) else None);
      (if in_defer_window then Some Defer else None) ]
    (Chosen PositionUNSAFE pos_avg).

(** An instrument tracked since time 5 holds 10; the session saw a BUY of 3,
    the ledger window holds the 7 bought before it as well. *)
Definition scenario_state : SymbolState :=
  set_tracking true (reset_session 5 (new_state "NIFTY24CE" "NFO")).

Definition scenario_input : CycleInput := {|
  in_qty := 10; in_pos_avg := 103; in_orders := [];
  in_execs := [mk_exec 1 BUY 7 100; mk_exec 10 BUY 3 110];
  in_now_session := 20; in_now_defer := 20;
  in_answer := PlaceResp (Some "S1"%string) None DataAbsent |}.

(** Execution-based costing switched off. *)
Definition config_no_executions : Config := {|
  OPTION_PRODUCTS := OPTION_PRODUCTS default_config;
  TICK_SIZE_OPT := TICK_SIZE_OPT default_config;
  AUTO_SELL_MARGIN_OPT := AUTO_SELL_MARGIN_OPT default_config;
  USE_EXECUTIONS := false;
  DEFER_ON_START_SEC := DEFER_ON_START_SEC default_config;
  LEDGER_USE_SYNTHETIC_BOOTSTRAP := LEDGER_USE_SYNTHETIC_BOOTSTRAP default_config
|}.

Definition entry_input : CycleInput := {|
  in_qty := 10; in_pos_avg := 100; in_orders := [];
  in_execs := []; in_now_session := 5; in_now_defer := 5;
  in_answer := PlaceResp (Some "S1"%string) None DataAbsent |}.

Definition no_open_sell (st : SymbolState) : Prop :=
  open_sell_id st = None /\ open_sell_px st = None /\ open_sell_qty st = None.

(** A tracked instrument with one live SELL goes flat and stays flat for a
    cycle. *)
Definition flat_book : list Order :=
  [{| orderid := "S1"; o_exchange := "NFO"; o_symbol := "NIFTY24CE";
      o_product := "NRML"; action := "SELL"; quantity := 10;
      o_price := 100 + (25 # 100); status := "open" |}].

Definition flat_input : CycleInput := {|
  in_qty := 0; in_pos_avg := 0;
  in_orders := open_orders_get default_config flat_book "NFO" "NIFTY24CE";
  in_execs := []; in_now_session := 30; in_now_defer := 30;
  in_answer := PlaceRaises |}.

(** The order [o] as a later snapshot shows it: same id, same action, same
    quantity; its price may have been moved again. *)
Definition still_live (o : Order) (orders : list Order) : Prop :=
  exists o', In o' orders /\ orderid o' = orderid o /\ action o' = action o
             /\ quantity o' == quantity o.

(** The engine's SELL of 10 was moved by hand from 103.25 to 120; the
    position stays at 10. *)
Definition moved_order : Order :=
  {| orderid := "S1"; o_exchange := "NFO"; o_symbol := "NIFTY24CE";
     o_product := "NRML"; action := "SELL"; quantity := 10;
     o_price := 120; status := "open" |}.

Definition override_input : CycleInput := {|
  in_qty := 10; in_pos_avg := 103; in_orders := [moved_order];
  in_execs := [mk_exec 1 BUY 7 100; mk_exec 10 BUY 3 110];
  in_now_session := 20; in_now_defer := 20;
  in_answer := PlaceResp (Some "S2"%string) None DataAbsent |}.

(** The moved order after its quantity was edited by hand as well, to 5; the
    position stays at 10. *)
Definition resized_order : Order :=
  {| orderid := "S1"; o_exchange := "NFO"; o_symbol := "NIFTY24CE";
     o_product := "NRML"; action := "SELL"; quantity := 5;
     o_price := 120; status := "open" |}.

Definition resized_input : CycleInput := {|
  in_qty := 10; in_pos_avg := 103; in_orders := [resized_order];
  in_execs := [mk_exec 1 BUY 7 100; mk_exec 10 BUY 3 110];
  in_now_session := 30; in_now_defer := 30;
  in_answer := PlaceResp (Some "S2"%string) None DataAbsent |}.

(** Two cycles of one instrument against an order store that reflects every
    call.  Cycle 1: the position is 10 (one BUY of 10 @ 100 in the ledger
    window), no order is open.  Cycle 2: a second BUY of 10 @ 110 has taken
    the position to 20, and the SELL of cycle 1 is still live. *)
Definition grow_input1 : CycleInput := {|
  in_qty := 10; in_pos_avg := 100;
  in_orders := open_orders_get default_config [] "NFO" "NIFTY24CE";
  in_execs := [mk_exec 1 BUY 10 100];
  in_now_session := 5; in_now_defer := 5;
  in_answer := PlaceResp (Some "S1"%string) None DataAbsent |}.

Definition grow_input2 (book : list Order) : CycleInput := {|
  in_qty := 20; in_pos_avg := 105;
  in_orders := open_orders_get default_config book "NFO" "NIFTY24CE";
  in_execs := [mk_exec 1 BUY 10 100; mk_exec 8 BUY 10 110];
  in_now_session := 9; in_now_defer := 9;
  in_answer := PlaceResp (Some "S2"%string) None DataAbsent |}.

Definition is_cancel (c : BrokerCall) : bool := negb (is_place c).

End Notions.
Import Notions.

(** * The rest of the module: response shapes, snapshots, subscriptions *)

(** ** Response shapes, lines 160-222 *)

Module Shapes.

(** A broker response as the normalizers inspect it: [None], a string, a
    list of rows, a dict, or anything else.  Rows are of any type [A]. *)
#[warning="-register-all"]
Inductive Json (A : Type) :=
| JNone
| JStr (s : string)
| JOther
| JList (rows : list A)
| JDict (fields : gmap string (Json A)).

Arguments JNone {A}.
Arguments JStr {A} s.
Arguments JOther {A}.
Arguments JList {A} rows.
Arguments JDict {A} fields.

Section Norm.
Context {A : Type}.

(** [d.get(k)]. *)
Definition jget (d : gmap string (Json A)) (k : string) : Json A :=
  default JNone (d !! k).

(** [for k in keys: v = d.get(k); if isinstance(v, list): return v]. *)
Fixpoint first_list (d : gmap string (Json A)) (keys : list string)
  : option (list A) :=
  match keys with
  | [] => None
  | k :: keys' =>
      match jget d k with
      | JList rows => Some rows
      | _ => first_list d keys'
      end
  end.

(** [resp.get("status") == "success"]. *)
Definition is_success (v : Json A) : bool :=
  match v with
  | JStr s => String.eqb s "success"
  | _ => false
  end.

(** The body shared by [norm_positions] and [norm_orders]: the list under a
    successful envelope, then the list at a top-level key. *)
Definition norm_enveloped (inner outer : list string) (resp : Json A) : list A :=
  match resp with
  | JNone => []
  | JList rows => rows
  | JDict d =>
      let under_success :=
        if is_success (jget d "status") then
          match jget d "data" with
          | JList rows => Some rows
          | JDict data => first_list data inner
          | _ => None
          end
        else None in
      match under_success with
      | Some rows => rows
      | None => default [] (first_list d outer)
      end
  | _ => []
  end.

(** [norm_positions], line 160. *)
Definition norm_positions : Json A -> list A :=
  norm_enveloped ["positions"; "data"; "holdings"]%string
                 ["positions"; "data"; "holdings"; "orders"]%string.

(** [norm_orders], line 182. *)
Definition norm_orders : Json A -> list A :=
  norm_enveloped ["orders"; "data"]%string ["orders"; "data"]%string.

(** [norm_execs], line 203: no status test. *)
Definition norm_execs (resp : Json A) : list A :=
  match resp with
  | JNone => []
  | JList rows => rows
  | JDict d =>
      let under_data :=
        match jget d "data" with
        | JList rows => Some rows
        | JDict data =>
            first_list data ["trades"; "orders"; "executions"; "data"]%string
        | _ => None
        end in
      match under_data with
      | Some rows => rows
      | None =>
          default [] (first_list d ["trades"; "orders"; "executions"]%string)
      end
  | _ => []
  end.

End Norm.
End Shapes.

(** ** Snapshots, lines 332-393 *)

Module Snapshots.
Import Engine.

Abbreviation key := (string * string)%type.

(** A position leg after the field extraction of lines 343-355: upper-cased
    exchange, product and symbol.  Legs whose extraction raises are dropped
    by line 357 and are not represented. *)
Record Leg := {
  p_exchange : string;
  p_product : string;
  p_symbol : string;
  p_quantity : Q;
  p_average_price : Q
}.

(** The four [continue] tests of lines 344-354, negated. *)
Definition leg_in_scope (cfg : Config) (p : Leg) : bool :=
  existsb (String.eqb (p_exchange p)) EXCHANGES
  && in_products cfg (p_product p)
  && is_option_symbol (p_symbol p)
  && negb (Qeq_bool (p_quantity p) 0).

(** [d.setdefault(k, []).append(x)]. *)
Definition setdefault_append {B : Type} (k : key) (x : B)
    (d : gmap key (list B)) : gmap key (list B) :=
  <[k := default [] (d !! k) ++ [x]]> d.

(** The first loop, lines 340-358. *)
Definition group_legs (cfg : Config) (pos_list : list Leg)
  : gmap key (list (Q * Q)) :=
  fold_left
    (fun rows p =>
       if leg_in_scope cfg p
       then setdefault_append (p_exchange p, p_symbol p)
                              (p_quantity p, p_average_price p) rows
       else rows)
    pos_list ∅.

(** The body of the second loop, lines 362-368: the entry of [merged] for
    the legs of one instrument, if any. *)
Definition merge_pairs (pairs : list (Q * Q)) : option (Q * Q) :=
  let net_qty := sum_Q (map fst pairs) in
  if Qltb 0 net_qty then
    let same_sign_legs := List.filter (fun qa => Qltb 0 (fst qa)) pairs in
    match same_sign_legs with
    | [] => None
    | _ :: _ => Some (net_qty, weighted_avg same_sign_legs)
    end
  else None.

(** [snapshot_option_positions], line 332, on the normalized position list. *)
Definition snapshot_option_positions (cfg : Config) (pos_list : list Leg)
  : gmap key (Q * Q) :=
  omap merge_pairs (group_legs cfg pos_list).

(** The four [continue] tests of lines 378-389, negated. *)
Definition order_in_scope (cfg : Config) (o : Order) : bool :=
  existsb (String.eqb (o_exchange o)) EXCHANGES
  && in_products cfg (o_product o)
  && String.eqb (status o) "open"
  && is_option_symbol (o_symbol o).

(** [snapshot_open_orders_options], line 372, on the normalized order list. *)
Definition snapshot_open_orders_options (cfg : Config) (orders : list Order)
  : gmap key (list Order) :=
  fold_left
    (fun out o =>
       if order_in_scope cfg o
       then setdefault_append (o_exchange o, o_symbol o) o out
       else out)
    orders ∅.

(** [totals.get(key, (0.0, 0.0))], line 512. *)
Definition totals_get (totals : gmap key (Q * Q)) (k : key) : Q * Q :=
  default (0, 0) (totals !! k).

End Snapshots.

(** ** The state's own session average, line 135 *)

Module Session.
Import Engine.

(** [SymbolState.session_avg]. *)
Definition session_avg (st : SymbolState) : option Q :=
  if Qltb 0 (session_buy_qty st)
  then Some (session_buy_value st / session_buy_qty st)
  else None.

End Session.

(** ** Price subscriptions, lines 693-718 *)

Module Relay.
Import Engine Snapshots.

Inductive RelayCall :=
| SubscribeLtp (instruments : gset key)
| UnsubscribeLtp (instruments : gset key).

(** [desired], line 698: the instruments of the states that are tracking. *)
Definition desired_set (states : list SymbolState) : gset key :=
  list_to_set
    (map (fun st => (st_exchange st, st_symbol st))
         (List.filter tracking states)).

(** One pass of the loop body, lines 700-718: the calls made and the new
    [subscribed].  A failing call is caught; [subscribed] is updated either
    way. *)
Definition sync_subscriptions (desired subscribed : gset key)
  : list RelayCall * gset key :=
  let to_add := desired ∖ subscribed in
  let calls1 := if bool_decide (to_add = ∅) then [] else [SubscribeLtp to_add] in
  let subscribed1 := subscribed ∪ to_add in
  let to_remove := subscribed1 ∖ desired in
  let calls2 :=
    if bool_decide (to_remove = ∅) then [] else [UnsubscribeLtp to_remove] in
  (calls1 ++ calls2, subscribed1 ∖ to_remove).

End Relay.

(** ** Further notions *)

Module MoreNotions.
Import Normalizer Engine Snapshots.

(** What the ledger engine reads of the executions: of each row of the
    instrument in scope, in order, its side, its quantity, and its price
    when it is a BUY. *)
Definition ledger_view (cfg : Config) (exch sym : string) (execs : list Exec)
  : list (Side * Q * option Q) :=
  map (fun r => (side r, qty r,
                 match side r with BUY => Some (price r) | SELL => None end))
      (List.filter (in_scope cfg exch sym) execs).

(** The filters of lines 275-307 alone, without the de-duplication: the
    execution a row is read as, if it is kept. *)
Definition accepted (cutoff : Z) (r : RawRow) : option Exec :=
  if String.eqb (r_exch r) "" || String.eqb (r_sym r) "" then None
  else
    dt ← r_dt r;
    if (dt <? cutoff)%Z then None
    else
      sd ← parse_side (r_side r);
      if Qle_bool (r_qty r) 0 then None
      else Some {| time := dt; side := sd; qty := r_qty r; price := r_price r;
                   symbol := r_sym r; exchange := r_exch r;
                   product := r_product r;
                   exec_id := exec_id_of (r_exec_id r) |}.


(** The (quantity, average price) pairs of the legs of one instrument that
    pass the scope tests, in the order of the position list. *)
Definition legs_of (cfg : Config) (pos_list : list Leg) (exch sym : string)
  : list (Q * Q) :=
  map (fun p => (p_quantity p, p_average_price p))
      (List.filter
         (fun p => leg_in_scope cfg p
                   && bool_decide ((p_exchange p, p_symbol p) = (exch, sym)))
         pos_list).

(** A response dict carries [rows] as its payload: directly under "data", or
    under key [k] of a dict under "data". *)
Definition carries {A : Type} (k : string)
    (d : gmap string (Shapes.Json A)) (rows : list A) : Prop :=
  Shapes.jget d "data" = Shapes.JList rows
  \/ exists inner, Shapes.jget d "data" = Shapes.JDict inner
                   /\ Shapes.jget inner k = Shapes.JList rows.

Definition not_a_list {A : Type} (v : Shapes.Json A) : Prop :=
  forall rows, v <> Shapes.JList rows.

(** The placement a cycle makes for quantity [q] at the target of [avg]. *)
Definition placement (cfg : Config) (st : SymbolState) (q avg : Q) : BrokerCall :=
  PlaceOrder (st_symbol st) (st_exchange st) "SELL" q (target_price cfg avg)
             (PLACE_PRODUCT cfg) "LIMIT".

(** What a broker call of a cycle may be: the cancellation of a SELL of the
    snapshot in a cancellable state, or the placement for the cycle's
    quantity at the target of the average [avg]. *)
Definition call_allowed (cfg : Config) (st : SymbolState) (inp : CycleInput)
    (avg : Q) (c : BrokerCall) : Prop :=
  match c with
  | CancelOrder i =>
      exists o, In o (in_orders inp) /\ orderid o = i
                /\ action o = "SELL"%string /\ cancellable (status o) = true
  | PlaceOrder _ _ _ _ _ _ _ =>
      c = placement cfg st (in_qty inp) avg /\ 0 < in_qty inp
  end.

(** The average a cycle chose, 0 when it chose none. *)
Definition chosen_of (r : CycleResult) : Q :=
  match out_choice r with
  | Some (Chosen _ avg) => avg
  | _ => 0
  end.

(** What holds of the state of an instrument between cycles: it is tracking
    exactly when a session is open; the accumulator [session_buy_value] is
    zero; and while it is not tracking it owns no order, has no override, is
    not armed and shows no quantity. *)
Definition state_ok (sym exch : string) (st : SymbolState) : Prop :=
  st_symbol st = sym /\ st_exchange st = exch
  /\ (tracking st = true <-> session_start st <> None)
  /\ session_buy_value st = 0
  /\ (tracking st = false ->
      open_sell_id st = None /\ open_sell_px st = None /\ open_sell_qty st = None
      /\ manual_override st = false /\ armed st = false
      /\ total_qty st = 0 /\ avg_price st = 0 /\ session_buy_qty st = 0).

(** The responses that carry order id [i] in one of the four places
    [ensure_one_sell] looks at, the places before it holding nothing. *)
Definition answers_with (i : string) : list PlaceAnswer :=
  [ PlaceResp (Some i) None DataAbsent;
    PlaceResp None (Some i) DataAbsent;
    PlaceResp None None (DataDict (Some i) None);
    PlaceResp None None (DataDict None (Some i)) ].

(** The instrument of a state is in scope of the snapshots, and there is a
    product to place under. *)
Definition instrument_in_scope (cfg : Config) (st : SymbolState) : Prop :=
  existsb (String.eqb (st_exchange st)) EXCHANGES = true
  /\ is_option_symbol (st_symbol st) = true
  /\ OPTION_PRODUCTS cfg <> [].

(** The order a placement creates when the broker accepts it under id [i]. *)
Definition new_order (cfg : Config) (st : SymbolState) (i : string) (q avg : Q)
  : Order :=
  {| orderid := i; o_exchange := st_exchange st; o_symbol := st_symbol st;
     o_product := PLACE_PRODUCT cfg; action := "SELL"; quantity := q;
     o_price := target_price cfg avg; status := "open" |}.

(** The cycle that follows [grow_input1] when the broker accepted its
    placement under id "S1" and nothing else changed. *)
Definition settle_input : CycleInput := {|
  in_qty := 10; in_pos_avg := 100;
  in_orders :=
    open_orders_get default_config
      (book_after (Some "S1"%string) []
         [placement default_config (new_state "NIFTY24CE" "NFO") 10 100])
      "NFO" "NIFTY24CE";
  in_execs := [mk_exec 1 BUY 10 100];
  in_now_session := 8; in_now_defer := 8;
  in_answer := PlaceResp (Some "S2"%string) None DataAbsent |}.

(** Two long legs and a short one of one option, and a stock leg. *)
Definition sample_legs : list Leg :=
  [ {| p_exchange := "NFO"; p_product := "NRML"; p_symbol := "NIFTY24CE";
       p_quantity := 10; p_average_price := 100 |};
    {| p_exchange := "NSE"; p_product := "CNC"; p_symbol := "INFY";
       p_quantity := 5; p_average_price := 1500 |};
    {| p_exchange := "NFO"; p_product := "MIS"; p_symbol := "NIFTY24CE";
       p_quantity := 30; p_average_price := 120 |};
    {| p_exchange := "NFO"; p_product := "NRML"; p_symbol := "NIFTY24CE";
       p_quantity := -15; p_average_price := 90 |} ].

End MoreNotions.
Import MoreNotions.

(** * Properties *)

(** ** Arithmetic helpers *)

Module NumFacts.

Lemma Qltb_lt a b : Qltb a b = true <-> a < b.
Proof.
  unfold Qltb. rewrite negb_true_iff. split.
  - intros H. apply Qnot_le_lt. intros Hle.
    apply Qle_bool_iff in Hle. congruence.
  - intros H. destruct (Qle_bool b a) eqn:E; [|reflexivity].
    apply Qle_bool_iff in E. lra.
Qed.

Lemma Qltb_ge a b : Qltb a b = false <-> b <= a.
Proof.
  unfold Qltb. rewrite negb_false_iff. apply Qle_bool_iff.
Qed.

Lemma Qle_bool_gt a b : Qle_bool a b = false <-> b < a.
Proof.
  rewrite <- Qltb_lt. unfold Qltb. rewrite negb_true_iff. tauto.
Qed.

#[export] Instance Qltb_proper : Proper (Qeq ==> Qeq ==> eq) Qltb.
Proof. intros a a' Ha b b' Hb. unfold Qltb. now rewrite Ha, Hb. Qed.

Lemma qmin_spec a b :
  (b < a /\ qmin a b = b) \/ (a <= b /\ qmin a b = a).
Proof.
  unfold qmin. destruct (Qltb b a) eqn:E.
  - left. split; [now apply Qltb_lt | reflexivity].
  - right. split; [now apply Qltb_ge | reflexivity].
Qed.

(** [sum_Q] is the left fold Python's [sum] performs; up to [==] it is the
    usual recursive sum. *)
Lemma sum_Q_acc (l : list Q) (a : Q) : fold_left Qplus l a == a + sum_Q l.
Proof.
  unfold sum_Q. revert a. induction l as [|x l IH]; intros a; simpl.
  - lra.
  - rewrite IH. rewrite (IH (0 + x)). lra.
Qed.

Lemma sum_Q_cons x (l : list Q) : sum_Q (x :: l) == x + sum_Q l.
Proof. unfold sum_Q at 1. simpl. rewrite sum_Q_acc. lra. Qed.

Lemma sum_Q_app (l1 l2 : list Q) : sum_Q (l1 ++ l2) == sum_Q l1 + sum_Q l2.
Proof.
  induction l1 as [|x l1 IH]; simpl.
  - unfold sum_Q at 2. simpl. lra.
  - rewrite !sum_Q_cons, IH. lra.
Qed.

(** *** Python's [round] *)

Lemma py_round_cases x :
  let f := Qfloor x in
  let r := x - inject_Z f in
  0 <= r /\ r < 1
  /\ ((r < 1#2 /\ py_round x = f)
      \/ (1#2 < r /\ py_round x = (f + 1)%Z)
      \/ (r == 1#2 /\ py_round x = (if Z.even f then f else (f + 1)%Z))).
Proof.
  cbv zeta. pose proof (Qfloor_le x) as Hlo. pose proof (Qlt_floor x) as Hhi.
  rewrite inject_Z_plus in Hhi. change (inject_Z 1) with 1 in Hhi.
  split; [lra|]. split; [lra|].
  unfold py_round.
  destruct (Qltb (x - inject_Z (Qfloor x)) (1#2)) eqn:E1.
  - apply Qltb_lt in E1. left. split; [exact E1|reflexivity].
  - apply Qltb_ge in E1.
    destruct (Qltb (1#2) (x - inject_Z (Qfloor x))) eqn:E2.
    + apply Qltb_lt in E2. right. left. split; [exact E2|reflexivity].
    + apply Qltb_ge in E2. right. right. split; [lra|reflexivity].
Qed.

(** [round] returns a nearest integer. *)
Lemma py_round_nearest x :
  - (1#2) <= inject_Z (py_round x) - x <= 1#2.
Proof.
  destruct (py_round_cases x) as (H0 & H1 & [[Hr ->]|[[Hr ->]|[Hr ->]]]).
  - lra.
  - rewrite inject_Z_plus. change (inject_Z 1) with 1. lra.
  - destruct (Z.even (Qfloor x)).
    + lra.
    + rewrite inject_Z_plus. change (inject_Z 1) with 1. lra.
Qed.

(** At a tie, [round] returns the even neighbour. *)
Lemma py_round_tie_even x :
  inject_Z (py_round x) - x == 1#2 \/ inject_Z (py_round x) - x == - (1#2) ->
  Z.even (py_round x) = true.
Proof.
  destruct (py_round_cases x) as (H0 & H1 & [[Hr E]|[[Hr E]|[Hr E]]]);
    rewrite E; intros Ht.
  - exfalso. destruct Ht; lra.
  - exfalso. rewrite inject_Z_plus in Ht. change (inject_Z 1) with 1 in Ht.
    destruct Ht; lra.
  - destruct (Z.even (Qfloor x)) eqn:Hev; [exact Hev|].
    rewrite Z.add_1_r, Z.even_succ, <- Z.negb_even, Hev. reflexivity.
Qed.

#[export] Instance py_round_proper : Proper (Qeq ==> eq) py_round.
Proof.
  intros x y Hxy. unfold py_round. rewrite (Qfloor_comp _ _ Hxy).
  assert (E1 : Qltb (x - inject_Z (Qfloor y)) (1#2)
               = Qltb (y - inject_Z (Qfloor y)) (1#2)) by now rewrite Hxy.
  assert (E2 : Qltb (1#2) (x - inject_Z (Qfloor y))
               = Qltb (1#2) (y - inject_Z (Qfloor y))) by now rewrite Hxy.
  now rewrite E1, E2.
Qed.

Lemma py_round_Z z : py_round (inject_Z z) = z.
Proof.
  unfold py_round. rewrite Qfloor_Z.
  assert (E : Qltb (inject_Z z - inject_Z z) (1#2) = true)
    by (apply Qltb_lt; lra).
  now rewrite E.
Qed.

(** [round(x, 2)] leaves a number of whole cents alone. *)
Lemma py_round2_cents x k : x * 100 == inject_Z k -> py_round2 x == x.
Proof.
  intros H. unfold py_round2. rewrite H, py_round_Z, <- H. field.
Qed.

(** When the tick is a whole number of cents, [round_to_tick] is the nearest
    multiple of the tick, without a second rounding. *)
Lemma round_to_tick_multiple price tick c :
  tick == inject_Z c / 100 ->
  round_to_tick price tick == inject_Z (py_round (price / tick)) * tick.
Proof.
  intros Ht. unfold round_to_tick.
  apply (py_round2_cents _ (py_round (price / tick) * c)).
  rewrite inject_Z_mult. generalize (py_round (price / tick)). intros m.
  rewrite Ht. field.
Qed.

End NumFacts.
Import NumFacts.

(** ** The FIFO ledger engine *)

Module FifoFacts.

Lemma total_nil : total [] == 0.
Proof. reflexivity. Qed.

Lemma total_cons l queue : total (l :: queue) == fst l + total queue.
Proof. unfold total. simpl. apply sum_Q_cons. Qed.

Lemma total_app q1 q2 : total (q1 ++ q2) == total q1 + total q2.
Proof. unfold total. rewrite map_app. apply sum_Q_app. Qed.

Lemma lots_pos_total queue : lots_pos queue -> 0 <= total queue.
Proof.
  induction 1 as [|l queue Hl _ IH].
  - pose proof total_nil. lra.
  - pose proof (total_cons l queue). lra.
Qed.

(** The [while] loop stops within [length queue] passes: every pass but the
    last removes a lot. *)
Lemma sell_loop_consume fuel : forall sell_qty queue,
  (length queue <= fuel)%nat ->
  sell_loop fuel sell_qty queue = Some (consume sell_qty queue).
Proof.
  induction fuel as [|fuel IH]; intros s queue Hlen.
  - destruct queue as [|[lq lp] rest]; [|simpl in Hlen; lia].
    simpl. now rewrite andb_false_r.
  - destruct queue as [|[lq lp] rest].
    + simpl. now rewrite andb_false_r.
    + cbn [sell_loop consume sell_iter].
      destruct (Qltb 0 s) eqn:Hs; cbn [andb negb]; [|reflexivity].
      rewrite bool_decide_eq_false_2 by discriminate. cbn [negb].
      destruct (Qle_bool (lq - qmin s lq) 0) eqn:Hpop.
      * apply IH. simpl in Hlen. lia.
      * (* the lot survives, so the whole SELL was taken from it *)
        apply Qle_bool_gt in Hpop.
        destruct (qmin_spec s lq) as [[Hlt Hm]|[Hle Hm]]; rewrite Hm in *.
        { lra. }
        assert (Hz : Qltb 0 (s - s) = false) by (apply Qltb_ge; lra).
        destruct fuel; simpl; now rewrite Hz.
Qed.

Lemma apply_sell_consume sell_qty queue :
  apply_sell sell_qty queue = Some (consume sell_qty queue).
Proof. unfold apply_sell. now apply sell_loop_consume. Qed.

(** A SELL lowers the total by its quantity, stopping at zero. *)
Lemma consume_total : forall queue sell_qty,
  0 <= sell_qty -> lots_pos queue ->
  lots_pos (consume sell_qty queue)
  /\ ((sell_qty <= total queue /\
       total (consume sell_qty queue) == total queue - sell_qty)
      \/ (total queue < sell_qty /\ total (consume sell_qty queue) == 0)).
Proof.
  induction queue as [|[lq lp] rest IH]; intros s Hs Hpos.
  - simpl. split; [constructor|]. pose proof total_nil.
    destruct (Qlt_le_dec 0 s); [right|left]; split; lra.
  - inversion Hpos as [|? ? Hlq Hrest]; subst. simpl in Hlq.
    pose proof (lots_pos_total _ Hrest) as Hr0.
    pose proof (total_cons (lq, lp) rest) as Hc. simpl in Hc.
    cbn [consume]. destruct (Qltb 0 s) eqn:Hs0.
    + apply Qltb_lt in Hs0.
      destruct (Qle_bool (lq - qmin s lq) 0) eqn:Hpop.
      * apply Qle_bool_iff in Hpop.
        destruct (qmin_spec s lq) as [[Hlt Hm]|[Hle Hm]]; rewrite Hm in *.
        -- destruct (IH (s - lq) ltac:(lra) Hrest) as [Hp [[Hle' He]|[Hgt He]]];
             (split; [exact Hp|]); [left|right]; split; lra.
        -- destruct (IH (s - s) ltac:(lra) Hrest) as [Hp [[Hle' He]|[Hgt He]]];
             [|lra].
           split; [exact Hp|]. left. split; lra.
      * apply Qle_bool_gt in Hpop.
        destruct (qmin_spec s lq) as [[Hlt Hm]|[Hle Hm]]; rewrite Hm in *.
        { lra. }
        split.
        -- constructor; [simpl; lra | exact Hrest].
        -- left. pose proof (total_cons (lq - s, lp) rest) as Hc'. simpl in Hc'.
           split; lra.
    + apply Qltb_ge in Hs0. split; [exact Hpos|].
      left. split; lra.
Qed.

Lemma clamp0_spec x : (x < 0 /\ clamp0 x = 0) \/ (0 <= x /\ clamp0 x = x).
Proof.
  unfold clamp0. destruct (Qltb x 0) eqn:E.
  - left. split; [now apply Qltb_lt | reflexivity].
  - right. split; [now apply Qltb_ge | reflexivity].
Qed.

Lemma traded_cons cfg exch sym sd r execs :
  traded cfg exch sym sd (r :: execs)
  == (if in_scope cfg exch sym r && side_is sd r then qty r else 0)
     + traded cfg exch sym sd execs.
Proof.
  unfold traded. simpl.
  destruct (in_scope cfg exch sym r && side_is sd r); simpl.
  - apply sum_Q_cons.
  - lra.
Qed.

Lemma never_short_mono cfg exch sym execs : forall bal bal',
  bal <= bal' -> never_short cfg exch sym bal execs ->
  never_short cfg exch sym bal' execs.
Proof.
  induction execs as [|r execs IH]; intros bal bal' Hle H; simpl in *; [exact I|].
  destruct (in_scope cfg exch sym r); [|now apply (IH bal)].
  destruct (side r).
  - apply (IH (bal + qty r)); [lra | exact H].
  - destruct H as [H1 H2]. split; [lra|].
    apply (IH (bal - qty r)); [lra | exact H2].
Qed.

(** The [for] loop always returns a queue. *)
Lemma ledger_loop_is_Some cfg exch sym execs : forall queue,
  is_Some (ledger_loop cfg exch sym execs queue).
Proof.
  induction execs as [|r execs IH]; intros queue; simpl; [eauto|].
  destruct (in_scope cfg exch sym r); simpl; [|apply IH].
  destruct (side r); [apply IH|].
  rewrite apply_sell_consume. simpl. apply IH.
Qed.

(** The quantity the loop leaves open, between the clamped net and the gross
    quantity received. *)
Lemma ledger_loop_total cfg exch sym execs : forall queue,
  Forall (fun r => 0 < qty r) execs -> lots_pos queue ->
  exists queue',
    ledger_loop cfg exch sym execs queue = Some queue'
    /\ lots_pos queue'
    /\ total queue' <= total queue + traded cfg exch sym BUY execs
    /\ total queue + traded cfg exch sym BUY execs
       - traded cfg exch sym SELL execs <= total queue'
    /\ (never_short cfg exch sym (total queue) execs ->
        total queue' == total queue + traded cfg exch sym BUY execs
                        - traded cfg exch sym SELL execs).
Proof.
  induction execs as [|r execs IH]; intros queue Hq Hpos.
  - exists queue. unfold traded. simpl.
    split; [reflexivity|]. split; [exact Hpos|].
    unfold sum_Q. simpl. repeat split; intros; lra.
  - inversion Hq as [|? ? Hr Hq']; subst.
    pose proof (traded_cons cfg exch sym BUY r execs) as HB.
    pose proof (traded_cons cfg exch sym SELL r execs) as HS.
    unfold side_is in HB, HS. cbn [ledger_loop never_short].
    destruct (in_scope cfg exch sym r); cbn [negb andb] in *.
    + destruct (side r).
      * assert (Hpos' : lots_pos (queue ++ [(qty r, price r)])).
        { apply Forall_app. split; [exact Hpos|]. constructor; [exact Hr|constructor]. }
        destruct (IH _ Hq' Hpos') as (q' & He & Hp & Hub & Hlb & Heq).
        pose proof (total_app queue [(qty r, price r)]) as Ha.
        pose proof (total_cons (qty r, price r) []) as Hc.
        pose proof total_nil as Hn. simpl in Hc.
        exists q'. split; [exact He|]. split; [exact Hp|].
        split; [lra|]. split; [lra|].
        intros Hns.
        assert (Hns' : never_short cfg exch sym
                         (total (queue ++ [(qty r, price r)])) execs).
        { apply (never_short_mono _ _ _ _ (total queue + qty r)); [lra|exact Hns]. }
        specialize (Heq Hns'). lra.
      * rewrite apply_sell_consume. cbn [mbind option_bind].
        destruct (consume_total queue (qty r) ltac:(lra) Hpos)
          as [Hpos' Hcases].
        destruct (IH _ Hq' Hpos') as (q' & He & Hp & Hub & Hlb & Heq).
        pose proof (lots_pos_total _ Hpos) as H0.
        exists q'. split; [exact He|]. split; [exact Hp|].
        destruct Hcases as [[Hle Ht]|[Hgt Ht]].
        -- split; [lra|]. split; [lra|].
           intros [_ Hns].
           assert (Hns' : never_short cfg exch sym
                            (total (consume (qty r) queue)) execs).
           { apply (never_short_mono _ _ _ _ (total queue - qty r)); [lra|exact Hns]. }
           specialize (Heq Hns'). lra.
        -- split; [lra|]. split; [lra|].
           intros [Hcov _]. lra.
    + destruct (IH _ Hq' Hpos) as (q' & He & Hp & Hub & Hlb & Heq).
      exists q'. split; [exact He|]. split; [exact Hp|].
      split; [lra|]. split; [lra|].
      intros Hns. specialize (Heq Hns). lra.
Qed.

Lemma seed_queue_pos cfg oq oa : lots_pos (seed_queue cfg oq oa).
Proof.
  unfold seed_queue.
  destruct (LEDGER_USE_SYNTHETIC_BOOTSTRAP cfg); simpl; [|constructor].
  destruct (Qltb 0 oq) eqn:E; simpl; [|constructor].
  destruct (Qltb 0 oa); [|constructor].
  constructor; [|constructor]. simpl. now apply Qltb_lt.
Qed.

Lemma seed_queue_zero cfg : seed_queue cfg 0 0 = [].
Proof.
  unfold seed_queue. now destruct (LEDGER_USE_SYNTHETIC_BOOTSTRAP cfg).
Qed.

(** On rows that are all in scope the ledger loop is the session loop. *)
Lemma ledger_loop_session_loop cfg exch sym execs : forall queue,
  Forall (fun r => in_scope cfg exch sym r = true) execs ->
  ledger_loop cfg exch sym execs queue = session_loop execs queue.
Proof.
  induction execs as [|r execs IH]; intros queue H; [reflexivity|].
  inversion H as [|? ? Hr H']; subst. simpl. rewrite Hr. simpl.
  destruct (side r); [now apply IH|].
  destruct (apply_sell (qty r) queue); simpl; [now apply IH | reflexivity].
Qed.

Lemma sess_execs_in_scope cfg exch sym ss execs :
  Forall (fun r => in_scope cfg exch sym r = true) (sess_execs cfg exch sym ss execs).
Proof.
  unfold sess_execs. apply List.Forall_forall. intros r Hin.
  apply filter_In in Hin. destruct Hin as [_ H].
  now apply andb_true_iff in H.
Qed.

Lemma fifo_ledger_avg_is_Some cfg execs exch sym oq oa :
  is_Some (fifo_ledger_avg cfg execs exch sym oq oa).
Proof.
  unfold fifo_ledger_avg.
  destruct (ledger_loop_is_Some cfg exch sym execs (seed_queue cfg oq oa))
    as [q Hq].
  rewrite Hq. simpl. eauto.
Qed.

Lemma session_ledger_fifo cfg execs exch sym ss :
  session_ledger cfg execs exch sym ss
  = fifo_ledger_avg cfg (sess_execs cfg exch sym ss execs) exch sym 0 0.
Proof.
  unfold session_ledger, fifo_ledger_avg.
  rewrite seed_queue_zero.
  rewrite ledger_loop_session_loop by apply sess_execs_in_scope.
  reflexivity.
Qed.

(** The session engine returns; its average exists exactly when its open
    quantity is positive. *)
Lemma session_ledger_result cfg execs exch sym ss :
  exists q a, session_ledger cfg execs exch sym ss = Some (q, a)
    /\ (a <> None <-> Qltb 0 q = true).
Proof.
  unfold session_ledger.
  rewrite <- (ledger_loop_session_loop cfg exch sym) by apply sess_execs_in_scope.
  destruct (ledger_loop_is_Some cfg exch sym (sess_execs cfg exch sym ss execs) [])
    as [queue Hq].
  rewrite Hq. cbn [mbind option_bind]. eexists _, _. split; [reflexivity|].
  destruct (Qltb 0 (sum_Q (map fst queue))); split; congruence.
Qed.

(** *** Scenarios of the specification *)

(** Long 10 @ 100 before any observed execution: the seeded engine returns
    (10, 100) on an empty window. *)
Example bootstrap_scenario :
  fifo_ledger_avg default_config [] "NFO" "NIFTY24CE" 10 100
  = Some (0 + 10, Some ((0 + 10 * 100) / (0 + 10))).
Proof. reflexivity. Qed.

(** Queue [(10,100)], SELL 4: the queue becomes [(6,100)]. *)
Example partial_sell_scenario :
  apply_sell 4 [(10, 100)] = Some [(10 - 4, 100)].
Proof. reflexivity. Qed.

(** *** Open quantity *)

(** C3, as the specification states it, fails: a SELL that arrives while
    nothing is open is dropped, it is not carried against later BUYs.  After
    SELL 5 and then BUY 3 the engine reports 3 open, while BUY total minus
    SELL total clamped at zero is 0. *)
Lemma fifo_open_qty_not_net :
  let execs := [mk_exec 1 SELL 5 100; mk_exec 2 BUY 3 100] in
  Forall (fun r => 0 < qty r) execs
  /\ match fifo_ledger_avg default_config execs "NFO" "NIFTY24CE" 0 0 with
     | Some (open_qty, _) =>
         open_qty == 3
         /\ clamp0 (traded default_config "NFO" "NIFTY24CE" BUY execs
                    - traded default_config "NFO" "NIFTY24CE" SELL execs) == 0
         /\ ~ open_qty
              == clamp0 (traded default_config "NFO" "NIFTY24CE" BUY execs
                         - traded default_config "NFO" "NIFTY24CE" SELL execs)
     | None => False
     end.
Proof.
  split.
  - repeat constructor.
  - vm_compute. repeat split; discriminate.
Qed.

(** *** The running balance *)

Lemma clamp0_eq x y : x == y -> clamp0 x == clamp0 y.
Proof.
  intros H. unfold clamp0.
  assert (E : Qltb x 0 = Qltb y 0) by now rewrite H.
  rewrite E. destruct (Qltb y 0); [reflexivity|exact H].
Qed.

Lemma running_open_eq cfg exch sym execs : forall bal bal',
  bal == bal' ->
  running_open cfg exch sym bal execs == running_open cfg exch sym bal' execs.
Proof.
  induction execs as [|r execs IH]; intros bal bal' H; simpl; [exact H|].
  destruct (in_scope cfg exch sym r); [|now apply IH].
  destruct (side r); apply IH.
  - now rewrite H.
  - apply clamp0_eq. now rewrite H.
Qed.

Lemma running_open_app cfg exch sym pre : forall bal post,
  running_open cfg exch sym bal (pre ++ post)
  = running_open cfg exch sym (running_open cfg exch sym bal pre) post.
Proof.
  induction pre as [|r pre IH]; intros bal post; simpl; [reflexivity|].
  destruct (in_scope cfg exch sym r); [|apply IH].
  destruct (side r); apply IH.
Qed.

(** A SELL lowers the total of the queue by its quantity and stops at
    zero. *)
Lemma consume_clamp queue sell_qty :
  0 <= sell_qty -> lots_pos queue ->
  total (consume sell_qty queue) == clamp0 (total queue - sell_qty).
Proof.
  intros Hs Hpos.
  destruct (consume_total queue sell_qty Hs Hpos) as [_ [[Hle He]|[Hgt He]]];
    destruct (clamp0_spec (total queue - sell_qty)) as [[Hn Hc]|[Hn Hc]];
    rewrite Hc, He; lra.
Qed.

(** The quantity the loop leaves open is the running balance. *)
Lemma ledger_loop_running cfg exch sym execs : forall queue,
  Forall (fun r => 0 < qty r) execs -> lots_pos queue ->
  exists queue',
    ledger_loop cfg exch sym execs queue = Some queue'
    /\ total queue' == running_open cfg exch sym (total queue) execs.
Proof.
  induction execs as [|r execs IH]; intros queue Hq Hpos.
  - exists queue. split; reflexivity.
  - inversion Hq as [|? ? Hr Hq']; subst. cbn [ledger_loop running_open].
    destruct (in_scope cfg exch sym r); cbn [negb]; [|now apply IH].
    destruct (side r).
    + assert (Hpos' : lots_pos (queue ++ [(qty r, price r)])).
      { apply Forall_app. split; [exact Hpos|]. constructor; [exact Hr|constructor]. }
      destruct (IH _ Hq' Hpos') as (q' & He & Ht).
      exists q'. split; [exact He|]. rewrite Ht.
      apply running_open_eq.
      pose proof (total_app queue [(qty r, price r)]) as Ha.
      pose proof (total_cons (qty r, price r) []) as Hc.
      pose proof total_nil as Hn. simpl in Hc. lra.
    + rewrite apply_sell_consume. cbn [mbind option_bind].
      destruct (consume_total queue (qty r) ltac:(lra) Hpos) as [Hpos' _].
      destruct (IH _ Hq' Hpos') as (q' & He & Ht).
      exists q'. split; [exact He|]. rewrite Ht.
      apply running_open_eq. apply consume_clamp; [lra|exact Hpos].
Qed.

(** *** Whole quantities *)

Lemma whole_iff q : whole q = true <-> exists n : Z, q == inject_Z n.
Proof.
  unfold whole. rewrite Qeq_bool_iff. split.
  - intros H. exists (Qfloor q). symmetry. exact H.
  - intros [n H]. rewrite (Qfloor_comp _ _ H), Qfloor_Z. symmetry. exact H.
Qed.

Lemma whole_plus a b : whole a = true -> whole b = true -> whole (a + b) = true.
Proof.
  rewrite !whole_iff. intros [n Hn] [m Hm]. exists (n + m)%Z.
  rewrite inject_Z_plus, Hn, Hm. reflexivity.
Qed.

Lemma whole_minus a b : whole a = true -> whole b = true -> whole (a - b) = true.
Proof.
  rewrite !whole_iff. intros [n Hn] [m Hm]. exists (n - m)%Z.
  unfold Z.sub. rewrite inject_Z_plus, inject_Z_opp, Hn, Hm. reflexivity.
Qed.

Lemma whole_qmin a b : whole a = true -> whole b = true -> whole (qmin a b) = true.
Proof. intros Ha Hb. unfold qmin. now destruct (Qltb b a). Qed.

(** A SELL of a whole quantity leaves whole lots: no residue stays in the
    queue. *)
Lemma consume_whole : forall queue sell_qty,
  whole sell_qty = true ->
  Forall (fun l : lot => whole (fst l) = true) queue ->
  Forall (fun l : lot => whole (fst l) = true) (consume sell_qty queue).
Proof.
  induction queue as [|[lq lp] rest IH]; intros s Hs Hall; [constructor|].
  inversion Hall as [|? ? Hlq Hrest]; subst. simpl in Hlq.
  cbn [consume]. destruct (Qltb 0 s); [|exact Hall].
  pose proof (whole_qmin s lq Hs Hlq) as Hm.
  destruct (Qle_bool (lq - qmin s lq) 0).
  - apply IH; [now apply whole_minus|exact Hrest].
  - constructor; [|exact Hrest]. simpl. now apply whole_minus.
Qed.

Lemma total_whole queue :
  Forall (fun l : lot => whole (fst l) = true) queue -> whole (total queue) = true.
Proof.
  induction 1 as [|l queue Hl _ IH].
  - reflexivity.
  - apply whole_iff. apply whole_iff in Hl, IH.
    destruct Hl as [n Hn], IH as [m Hm]. exists (n + m)%Z.
    rewrite total_cons, inject_Z_plus, Hn, Hm. reflexivity.
Qed.

Lemma ledger_loop_whole cfg exch sym execs : forall queue queue',
  Forall (fun r => whole (qty r) = true) execs ->
  Forall (fun l : lot => whole (fst l) = true) queue ->
  ledger_loop cfg exch sym execs queue = Some queue' ->
  Forall (fun l : lot => whole (fst l) = true) queue'.
Proof.
  induction execs as [|r execs IH]; intros queue queue' Hq Hall.
  - intros [= <-]. exact Hall.
  - inversion Hq as [|? ? Hr Hq']; subst. cbn [ledger_loop].
    destruct (in_scope cfg exch sym r); cbn [negb]; [|now apply IH].
    destruct (side r).
    + apply IH; [exact Hq'|]. apply Forall_app. split; [exact Hall|].
      constructor; [exact Hr|constructor].
    + rewrite apply_sell_consume. cbn [mbind option_bind].
      apply IH; [exact Hq'|]. now apply consume_whole.
Qed.

Lemma seed_queue_whole cfg oq oa :
  whole oq = true ->
  Forall (fun l : lot => whole (fst l) = true) (seed_queue cfg oq oa).
Proof.
  intros H. unfold seed_queue.
  destruct (LEDGER_USE_SYNTHETIC_BOOTSTRAP cfg && Qltb 0 oq && Qltb 0 oa);
    repeat constructor. exact H.
Qed.

(** C3 (amended).  For every sequence of executions with positive whole
    quantities, with or without a synthetic opening lot of a whole quantity,
    the engine returns, and the open quantity it reports is the running
    balance of the instrument's rows, in which a BUY adds its quantity and a
    SELL subtracts its quantity and stops at zero.  So the open quantity is a
    whole number; it never exceeds the seeded-plus-bought total; it is at
    least the seeded-plus-bought total minus the sold total, clamped at
    zero, and equals it whenever no SELL exceeds the quantity open at the
    moment it is applied; and a SELL that takes all that is open, or more,
    drains the queue: its excess is dropped, and the open quantity is the
    running balance of the rows after it from zero. *)
Theorem fifo_open_qty_running cfg execs exch sym opening_qty opening_avg :
  Forall (fun r => 0 < qty r /\ whole (qty r) = true) execs ->
  whole opening_qty = true ->
  exists open_qty open_avg,
    fifo_ledger_avg cfg execs exch sym opening_qty opening_avg
    = Some (open_qty, open_avg)
    /\ let seeded := total (seed_queue cfg opening_qty opening_avg) in
       let bought := traded cfg exch sym BUY execs in
       let sold := traded cfg exch sym SELL execs in
       open_qty == running_open cfg exch sym seeded execs
       /\ whole open_qty = true
       /\ clamp0 (seeded + bought - sold) <= open_qty
       /\ open_qty <= seeded + bought
       /\ (never_short cfg exch sym seeded execs ->
           open_qty == clamp0 (seeded + bought - sold))
       /\ (forall pre r post,
             execs = pre ++ r :: post ->
             in_scope cfg exch sym r = true -> side r = SELL ->
             running_open cfg exch sym seeded pre <= qty r ->
             open_qty == running_open cfg exch sym 0 post).
Proof.
  intros Hall Hseed.
  assert (Hq : Forall (fun r => 0 < qty r) execs)
    by (eapply List.Forall_impl; [|exact Hall]; now intros r [H _]).
  assert (Hw : Forall (fun r => whole (qty r) = true) execs)
    by (eapply List.Forall_impl; [|exact Hall]; now intros r [_ H]).
  pose proof (seed_queue_pos cfg opening_qty opening_avg) as Hpos.
  destruct (ledger_loop_total cfg exch sym execs _ Hq Hpos)
    as (q' & He & Hp & Hub & Hlb & Heq).
  destruct (ledger_loop_running cfg exch sym execs _ Hq Hpos)
    as (q'' & He' & Hrun).
  rewrite He in He'. injection He' as <-.
  pose proof (ledger_loop_whole cfg exch sym execs _ _ Hw
                (seed_queue_whole cfg opening_qty opening_avg Hseed) He) as Hw'.
  unfold fifo_ledger_avg. rewrite He. cbn [mbind option_bind queue_result].
  eexists _, _. split; [reflexivity|].
  fold (total q'). pose proof (lots_pos_total _ Hp) as H0.
  cbv zeta.
  split; [exact Hrun|]. split; [now apply total_whole|].
  set (net := total (seed_queue cfg opening_qty opening_avg)
              + traded cfg exch sym BUY execs - traded cfg exch sym SELL execs) in *.
  assert (Hnet : clamp0 net <= total q'
                 /\ (never_short cfg exch sym
                       (total (seed_queue cfg opening_qty opening_avg)) execs ->
                     total q' == clamp0 net)).
  { destruct (clamp0_spec net) as [[Hn Hc]|[Hn Hc]]; rewrite Hc;
      (split; [lra|]); intros Hns; specialize (Heq Hns); lra. }
  destruct Hnet as [Hlow Hexact].
  split; [exact Hlow|]. split; [exact Hub|]. split; [exact Hexact|].
  intros pre r post -> Hin Hside Hshort.
  rewrite Hrun, running_open_app. cbn [running_open]. rewrite Hin, Hside.
  apply running_open_eq.
  set (bal := running_open cfg exch sym
                (total (seed_queue cfg opening_qty opening_avg)) pre) in *.
  destruct (clamp0_spec (bal - qty r)) as [[Hn Hc]|[Hn Hc]]; rewrite Hc; lra.
Qed.

(** Seed (5, 90), BUY 10 @ 100, SELL 4: every SELL is covered and 11 stay
    open. *)
Lemma fifo_open_qty_running_witness :
  let execs := [mk_exec 1 BUY 10 100; mk_exec 2 SELL 4 101] in
  Forall (fun r => 0 < qty r /\ whole (qty r) = true) execs
  /\ whole 5 = true
  /\ exists open_qty open_avg,
       fifo_ledger_avg default_config execs "NFO" "NIFTY24CE" 5 90
       = Some (open_qty, open_avg)
       /\ open_qty == 11.
Proof.
  assert (H : Forall (fun r => 0 < qty r /\ whole (qty r) = true)
                [mk_exec 1 BUY 10 100; mk_exec 2 SELL 4 101])
    by (repeat constructor).
  assert (H5 : whole 5 = true) by reflexivity.
  split; [exact H|]. split; [exact H5|].
  destruct (fifo_open_qty_running default_config _ "NFO" "NIFTY24CE" 5 90 H H5)
    as (q & a & He & Hrun & _).
  exists q, a. split; [exact He|].
  rewrite Hrun. vm_compute. reflexivity.
Defined.

(** *** The session mini-ledger *)

(** C7.  For every execution list, instrument and session start, the inline
    session computation of the supervisor returns, and it returns exactly
    the open quantity and weighted average that the FIFO ledger engine
    returns on the session-filtered executions with opening quantity and
    opening price zero. *)
Theorem session_ledger_is_fifo cfg execs exch sym session_start :
  session_ledger cfg execs exch sym session_start
  = fifo_ledger_avg cfg (sess_execs cfg exch sym session_start execs) exch sym 0 0
  /\ is_Some (session_ledger cfg execs exch sym session_start).
Proof.
  split; [apply session_ledger_fifo|].
  rewrite session_ledger_fifo. apply fifo_ledger_avg_is_Some.
Qed.

End FifoFacts.

(** ** The execution normalizer *)

Module NormalizerFacts.
Import Normalizer FifoFacts.

(** *** The stable sort by time *)

Lemma at_time_insert t e l :
  at_time t (insert_by_time e l) = at_time t (e :: l).
Proof.
  induction l as [|x l IH]; [reflexivity|].
  cbn [insert_by_time]. destruct (time e <=? time x)%Z eqn:Hle; [reflexivity|].
  apply Z.leb_gt in Hle.
  unfold at_time in *. cbn [List.filter] in *. rewrite IH.
  destruct (time e =? t)%Z eqn:He; [|reflexivity].
  apply Z.eqb_eq in He.
  assert (Hx : (time x =? t)%Z = false) by (apply Z.eqb_neq; lia).
  now rewrite Hx.
Qed.

(** Stability: at every timestamp the sorted list has the rows of the input,
    in the order of the input. *)
Lemma at_time_sort t l : at_time t (sort_by_time l) = at_time t l.
Proof.
  induction l as [|e l IH]; [reflexivity|].
  cbn [sort_by_time fold_right]. fold (sort_by_time l).
  rewrite at_time_insert. unfold at_time in *. cbn [List.filter].
  now rewrite IH.
Qed.

Lemma Forall_insert (P : Exec -> Prop) e l :
  P e -> Forall P l -> Forall P (insert_by_time e l).
Proof.
  intros He Hl. induction Hl as [|x l Hx Hl IH]; cbn [insert_by_time].
  - constructor; [exact He|constructor].
  - destruct (time e <=? time x)%Z; repeat constructor; assumption.
Qed.

Lemma insert_sorted e l : time_sorted l -> time_sorted (insert_by_time e l).
Proof.
  unfold time_sorted. induction 1 as [|x l Hs IH Hx]; cbn [insert_by_time].
  - repeat constructor.
  - destruct (time e <=? time x)%Z eqn:Hle.
    + apply Z.leb_le in Hle. constructor; [now constructor|].
      constructor; [exact Hle|].
      eapply Forall_impl; [exact Hx|]. unfold time_le. simpl. intros; lia.
    + apply Z.leb_gt in Hle. constructor; [exact IH|].
      apply Forall_insert; [unfold time_le; lia | exact Hx].
Qed.

Lemma sort_sorted l : time_sorted (sort_by_time l).
Proof.
  induction l as [|e l IH]; [constructor|].
  cbn [sort_by_time fold_right]. now apply insert_sorted.
Qed.

Lemma at_time_none t l :
  Forall (fun x => (t < time x)%Z) l -> at_time t l = [].
Proof.
  induction 1 as [|x l Hx _ IH]; [reflexivity|].
  unfold at_time in *. cbn [List.filter].
  assert (E : (time x =? t)%Z = false) by (apply Z.eqb_neq; lia).
  now rewrite E.
Qed.

(** A time-sorted list is determined by its rows at each timestamp. *)
Lemma sorted_by_classes : forall l1 l2,
  time_sorted l1 -> time_sorted l2 ->
  (forall t, at_time t l1 = at_time t l2) -> l1 = l2.
Proof.
  induction l1 as [|a l1 IH]; intros l2 H1 H2 Hcl.
  - destruct l2 as [|b l2]; [reflexivity|].
    specialize (Hcl (time b)). unfold at_time in Hcl. cbn [List.filter] in Hcl.
    rewrite Z.eqb_refl in Hcl. discriminate.
  - destruct l2 as [|b l2].
    { specialize (Hcl (time a)). unfold at_time in Hcl. cbn [List.filter] in Hcl.
      rewrite Z.eqb_refl in Hcl. discriminate. }
    apply StronglySorted_inv in H1. destruct H1 as [H1 Ha].
    apply StronglySorted_inv in H2. destruct H2 as [H2 Hb].
    unfold time_le in Ha, Hb.
    assert (Hab : time a = time b).
    { destruct (Z.lt_trichotomy (time a) (time b)) as [Hlt|[Heq|Hgt]];
        [exfalso | exact Heq | exfalso].
      - specialize (Hcl (time a)). unfold at_time in Hcl.
        cbn [List.filter] in Hcl. rewrite Z.eqb_refl in Hcl.
        assert (E : (time b =? time a)%Z = false) by (apply Z.eqb_neq; lia).
        rewrite E in Hcl. fold (at_time (time a) l2) in Hcl.
        rewrite (at_time_none (time a) l2) in Hcl; [discriminate|].
        eapply Forall_impl; [exact Hb|]. simpl. intros; lia.
      - specialize (Hcl (time b)). unfold at_time in Hcl.
        cbn [List.filter] in Hcl. rewrite Z.eqb_refl in Hcl.
        assert (E : (time a =? time b)%Z = false) by (apply Z.eqb_neq; lia).
        rewrite E in Hcl. fold (at_time (time b) l1) in Hcl.
        rewrite (at_time_none (time b) l1) in Hcl; [discriminate|].
        eapply Forall_impl; [exact Ha|]. simpl. intros; lia. }
    assert (Hhead : a = b).
    { specialize (Hcl (time a)). unfold at_time in Hcl.
      cbn [List.filter] in Hcl. rewrite <- Hab, Z.eqb_refl in Hcl.
      now inversion Hcl. }
    subst b. f_equal. apply IH; [exact H1 | exact H2 |].
    intros t. specialize (Hcl t). unfold at_time in *.
    cbn [List.filter] in Hcl. destruct (time a =? t)%Z; [now inversion Hcl | exact Hcl].
Qed.

Lemma sort_by_classes l1 l2 :
  (forall t, at_time t l1 = at_time t l2) -> sort_by_time l1 = sort_by_time l2.
Proof.
  intros H. apply sorted_by_classes; try apply sort_sorted.
  intros t. now rewrite !at_time_sort.
Qed.

(** With pairwise distinct timestamps the fetch order does not matter at
    all. *)
Lemma at_time_perm t l1 l2 :
  Permutation l1 l2 -> Permutation (at_time t l1) (at_time t l2).
Proof.
  unfold at_time. induction 1 as [|x l1 l2 _ IH|x y l|l1 l2 l3 _ IH1 _ IH2];
    cbn [List.filter].
  - constructor.
  - destruct (time x =? t)%Z; [now constructor|exact IH].
  - destruct (time x =? t)%Z, (time y =? t)%Z;
      try reflexivity; apply perm_swap.
  - now transitivity (List.filter (fun e => (time e =? t)%Z) l2).
Qed.

Lemma at_time_short t l :
  List.NoDup (map time l) -> (length (at_time t l) <= 1)%nat.
Proof.
  induction l as [|x l IH]; intros Hnd; [simpl; lia|].
  cbn [map] in Hnd. apply List.NoDup_cons_iff in Hnd. destruct Hnd as [Hx Hnd].
  unfold at_time in *. cbn [List.filter].
  destruct (time x =? t)%Z eqn:E; [|now apply IH].
  apply Z.eqb_eq in E.
  assert (Hnone : List.filter (fun e => (time e =? t)%Z) l = []).
  { destruct (List.filter (fun e => (time e =? t)%Z) l) as [|y l'] eqn:Hf;
      [reflexivity|].
    exfalso. apply Hx.
    assert (Hy : In y (List.filter (fun e => (time e =? t)%Z) l))
      by (rewrite Hf; now left).
    apply filter_In in Hy. destruct Hy as [Hy Ht]. apply Z.eqb_eq in Ht.
    rewrite E, <- Ht. now apply in_map. }
  rewrite Hnone. simpl. lia.
Qed.

Lemma sort_distinct_times l1 l2 :
  Permutation l1 l2 -> List.NoDup (map time l1) ->
  sort_by_time l1 = sort_by_time l2.
Proof.
  intros Hp Hnd. apply sort_by_classes. intros t.
  pose proof (at_time_perm t _ _ Hp) as Ht.
  pose proof (at_time_short t l1 Hnd) as Hlen.
  destruct (at_time t l1) as [|x [|y l]] eqn:E1.
  - apply Permutation_nil in Ht. now rewrite Ht.
  - apply Permutation_length_1_inv in Ht. now rewrite Ht.
  - simpl in Hlen. lia.
Qed.

(** *** The de-duplication cache *)

Lemma remember_spec cap i cache b cache' :
  remember cap i cache = (b, cache') ->
  (b = true /\ cache' = ∅) \/ (b = false /\ cache' = {[ i ]} ∪ cache).
Proof.
  unfold remember. destruct (cap <? _)%Z; intros [= <- <-]; auto.
Qed.

(** A row whose id is cached is not yielded; the cache keeps the id unless
    this pass clears it. *)
Lemma step_cached cap cutoff cache r o cache' id :
  id ∈ cache ->
  normalize_row cap cutoff cache r = (o, cache') ->
  (forall e c, o = Yielded e c -> exec_id e <> Some id)
  /\ ((exists e, o = Yielded e true) /\ cache' = ∅
      \/ id ∈ cache' /\ forall e, o <> Yielded e true).
Proof.
  intros Hin. unfold normalize_row.
  destruct (_ || _); [intros [= <- <-]; split; [discriminate | right; split; [done|discriminate]]|].
  destruct (r_dt r) as [dt|];
    [|intros [= <- <-]; split; [discriminate | right; split; [done|discriminate]]].
  destruct (dt <? cutoff)%Z;
    [intros [= <- <-]; split; [discriminate | right; split; [done|discriminate]]|].
  destruct (parse_side (r_side r)) as [sd|];
    [|intros [= <- <-]; split; [discriminate | right; split; [done|discriminate]]].
  destruct (Qle_bool (r_qty r) 0);
    [intros [= <- <-]; split; [discriminate | right; split; [done|discriminate]]|].
  destruct (exec_id_of (r_exec_id r)) as [i|] eqn:Ei.
  - destruct (bool_decide (i ∈ cache)) eqn:Hi;
      [intros [= <- <-]; split; [discriminate | right; split; [done|discriminate]]|].
    apply bool_decide_eq_false in Hi.
    destruct (remember cap i cache) as [b c'] eqn:Hr. intros [= <- <-].
    split.
    + intros e c [= <- <-]. simpl. intros [= ->]. contradiction.
    + apply remember_spec in Hr. destruct Hr as [[-> ->]|[-> ->]].
      * left. split; [eauto|reflexivity].
      * right. split; [set_solver|discriminate].
  - intros [= <- <-]. split.
    + intros e c [= <- <-]. simpl. discriminate.
    + right. split; [done|discriminate].
Qed.

(** A row that is yielded with an id leaves the id in the cache, unless this
    very pass clears the cache. *)
Lemma step_yielded cap cutoff cache r e c cache' id :
  normalize_row cap cutoff cache r = (Yielded e c, cache') ->
  exec_id e = Some id ->
  (c = true /\ cache' = ∅) \/ (c = false /\ id ∈ cache').
Proof.
  unfold normalize_row.
  destruct (_ || _); [discriminate|].
  destruct (r_dt r) as [dt|]; [|discriminate].
  destruct (dt <? cutoff)%Z; [discriminate|].
  destruct (parse_side (r_side r)) as [sd|]; [|discriminate].
  destruct (Qle_bool (r_qty r) 0); [discriminate|].
  destruct (exec_id_of (r_exec_id r)) as [i|] eqn:Ei.
  - destruct (bool_decide (i ∈ cache)); [discriminate|].
    destruct (remember cap i cache) as [b c'] eqn:Hr. intros [= <- <- <-].
    simpl. intros [= ->].
    apply remember_spec in Hr. destruct Hr as [[-> ->]|[-> ->]]; [auto|].
    right. split; [reflexivity|set_solver].
  - intros [= <- <- <-]. simpl. discriminate.
Qed.

Lemma run_rows_cons cap cache cutoff r steps :
  run_rows cap cache ((cutoff, r) :: steps)
  = (fst (normalize_row cap cutoff cache r)
       :: fst (run_rows cap (snd (normalize_row cap cutoff cache r)) steps),
     snd (run_rows cap (snd (normalize_row cap cutoff cache r)) steps)).
Proof.
  cbn [run_rows]. destruct (normalize_row cap cutoff cache r) as [o c1].
  cbn [fst snd]. now destruct (run_rows cap c1 steps).
Qed.

(** While an id is cached, a later row with that id is yielded only after a
    pass that cleared the cache. *)
Lemma cached_until_clear cap id : forall steps cache j e2 c2,
  id ∈ cache ->
  fst (run_rows cap cache steps) !! j = Some (Yielded e2 c2) ->
  exec_id e2 = Some id ->
  exists k e, (k < j)%nat
    /\ fst (run_rows cap cache steps) !! k = Some (Yielded e true)
    /\ snd (run_rows cap cache (take (S k) steps)) = ∅.
Proof.
  induction steps as [|[cutoff r] steps IH]; intros cache j e2 c2 Hin Hj Hid.
  - simpl in Hj. discriminate.
  - rewrite run_rows_cons in *. cbn [fst snd] in *.
    destruct (normalize_row cap cutoff cache r) as [o c1] eqn:Hstep.
    cbn [fst snd] in *.
    destruct (step_cached _ _ _ _ _ _ _ Hin Hstep) as [Hno Hcase].
    destruct j as [|j]; simpl in Hj.
    + injection Hj as ->. exfalso. now apply (Hno e2 c2).
    + destruct Hcase as [[[e ->] ->]|[Hin1 _]].
      * exists 0%nat, e. split; [lia|]. split; [reflexivity|].
        cbn [take]. rewrite run_rows_cons, Hstep. reflexivity.
      * destruct (IH c1 j e2 c2 Hin1 Hj Hid) as (k & e & Hk & Hlk & Hempty).
        exists (S k), e. split; [lia|]. split; [exact Hlk|].
        change (take (S (S k)) ((cutoff, r) :: steps))
          with ((cutoff, r) :: take (S k) steps).
        rewrite run_rows_cons, Hstep. exact Hempty.
Qed.

(** C6.  Across the rows of all fetch calls, in the order they are
    processed against the shared cache: when a row carrying execution id [id]
    is yielded at pass [i] and a row carrying the same id is yielded at a
    later pass [j], some pass [k] with [i <= k < j] cleared the cache in full
    (it overflowed its capacity and is empty after that pass).  Without such
    a clear an id that was processed is never yielded again. *)
Theorem exec_id_once_until_clear cap id : forall steps cache i j e1 c1 e2 c2,
  (i < j)%nat ->
  fst (run_rows cap cache steps) !! i = Some (Yielded e1 c1) ->
  exec_id e1 = Some id ->
  fst (run_rows cap cache steps) !! j = Some (Yielded e2 c2) ->
  exec_id e2 = Some id ->
  exists k e, (i <= k < j)%nat
    /\ fst (run_rows cap cache steps) !! k = Some (Yielded e true)
    /\ snd (run_rows cap cache (take (S k) steps)) = ∅.
Proof.
  induction steps as [|[cutoff r] steps IH];
    intros cache i j e1 c1 e2 c2 Hij Hi Hid1 Hj Hid2.
  - simpl in Hi. discriminate.
  - rewrite run_rows_cons in *. cbn [fst snd] in *.
    destruct (normalize_row cap cutoff cache r) as [o cache1] eqn:Hstep.
    cbn [fst snd] in *.
    destruct j as [|j]; [lia|]. simpl in Hj.
    destruct i as [|i]; simpl in Hi.
    + injection Hi as ->.
      destruct (step_yielded _ _ _ _ _ _ _ _ Hstep Hid1) as [[-> ->]|[-> Hin]].
      * exists 0%nat, e1. split; [lia|]. split; [reflexivity|].
        cbn [take]. rewrite run_rows_cons, Hstep. reflexivity.
      * destruct (cached_until_clear cap id steps cache1 j e2 c2 Hin Hj Hid2)
          as (k & e & Hk & Hlk & Hempty).
        exists (S k), e. split; [lia|]. split; [exact Hlk|].
        change (take (S (S k)) ((cutoff, r) :: steps))
          with ((cutoff, r) :: take (S k) steps).
        rewrite run_rows_cons, Hstep. exact Hempty.
    + destruct (IH cache1 i j e1 c1 e2 c2 ltac:(lia) Hi Hid1 Hj Hid2)
        as (k & e & Hk & Hlk & Hempty).
      exists (S k), e. split; [lia|]. split; [exact Hlk|].
      change (take (S (S k)) ((cutoff, r) :: steps))
        with ((cutoff, r) :: take (S k) steps).
      rewrite run_rows_cons, Hstep. exact Hempty.
Qed.

(** With room for one id: "a" is processed, "b" overflows the cache and
    clears it, and "a" is processed again. *)
Lemma exec_id_once_until_clear_witness :
  let steps := [(0, mk_row 5 "BUY" "a"); (0, mk_row 6 "BUY" "b");
                (0, mk_row 5 "BUY" "a")]%Z in
  fst (run_rows 1 ∅ steps) !! 0%nat
    = Some (Yielded (exec_of_row 5 BUY "a") false)
  /\ fst (run_rows 1 ∅ steps) !! 2%nat
     = Some (Yielded (exec_of_row 5 BUY "a") false)
  /\ exists k e, (0 <= k < 2)%nat
       /\ fst (run_rows 1 ∅ steps) !! k = Some (Yielded e true)
       /\ snd (run_rows 1 ∅ (take (S k) steps)) = ∅.
Proof.
  assert (H0 : fst (run_rows 1 ∅ [(0, mk_row 5 "BUY" "a"); (0, mk_row 6 "BUY" "b");
                                  (0, mk_row 5 "BUY" "a")]%Z) !! 0%nat
               = Some (Yielded (exec_of_row 5 BUY "a") false))
    by (vm_compute; reflexivity).
  assert (H2 : fst (run_rows 1 ∅ [(0, mk_row 5 "BUY" "a"); (0, mk_row 6 "BUY" "b");
                                  (0, mk_row 5 "BUY" "a")]%Z) !! 2%nat
               = Some (Yielded (exec_of_row 5 BUY "a") false))
    by (vm_compute; reflexivity).
  split; [exact H0|]. split; [exact H2|].
  apply (exec_id_once_until_clear 1 "a" _ ∅ 0 2 _ false _ false
           ltac:(lia) H0 eq_refl H2 eq_refl).
Defined.

(** The fetcher is this loop: the calls share the cache, and what they return
    is, up to the sort, what the passes yield. *)
Lemma normalize_rows_run cap cutoff rows : forall cache,
  normalize_rows cap cutoff cache rows = run_rows cap cache (map (pair cutoff) rows).
Proof.
  induction rows as [|r rows IH]; intros cache; [reflexivity|].
  cbn [normalize_rows run_rows map].
  destruct (normalize_row cap cutoff cache r) as [o c1]. now rewrite IH.
Qed.

Lemma run_rows_app cap s1 : forall cache s2,
  run_rows cap cache (s1 ++ s2)
  = (fst (run_rows cap cache s1)
       ++ fst (run_rows cap (snd (run_rows cap cache s1)) s2),
     snd (run_rows cap (snd (run_rows cap cache s1)) s2)).
Proof.
  induction s1 as [|[cutoff r] s1 IH]; intros cache s2.
  - simpl. now destruct (run_rows cap cache s2).
  - rewrite <- app_comm_cons, !run_rows_cons, IH. reflexivity.
Qed.

Lemma insert_perm e l : Permutation (insert_by_time e l) (e :: l).
Proof.
  induction l as [|x l IH]; cbn [insert_by_time]; [reflexivity|].
  destruct (time e <=? time x)%Z; [reflexivity|].
  rewrite IH. apply perm_swap.
Qed.

Lemma sort_perm l : Permutation (sort_by_time l) l.
Proof.
  induction l as [|e l IH]; [reflexivity|].
  cbn [sort_by_time fold_right]. fold (sort_by_time l).
  rewrite insert_perm. now constructor.
Qed.

Lemma fetch_calls_steps calls : forall cache,
  snd (fetch_calls calls cache)
  = snd (run_rows MAX_EXEC_ID_CACHE cache (steps_of calls))
  /\ Permutation (concat (fst (fetch_calls calls cache)))
       (yielded (fst (run_rows MAX_EXEC_ID_CACHE cache (steps_of calls)))).
Proof.
  induction calls as [|[cutoff rows] calls IH]; intros cache.
  - split; reflexivity.
  - cbn [fetch_calls]. unfold fetch_executions_lookback.
    rewrite normalize_rows_run.
    unfold steps_of. cbn [map concat fst snd]. fold (steps_of calls).
    rewrite run_rows_app.
    destruct (run_rows MAX_EXEC_ID_CACHE cache (map (pair cutoff) rows))
      as [os c1]. cbn [fst snd].
    destruct (IH c1) as [IHc IHp].
    destruct (fetch_calls calls c1) as [outs c2]. cbn [fst snd] in *.
    split; [exact IHc|].
    unfold yielded in *. rewrite omap_app.
    cbn [concat]. apply Permutation_app; [apply sort_perm | exact IHp].
Qed.

(** *** Order sensitivity of the FIFO average *)

(** C9, as the specification states it, fails.  The sort is stable and the
    engine consumes lots in list order, so rows with one timestamp are applied
    in the order they were fetched: two BUYs at the same instant, 10 @ 100
    and 10 @ 200, followed by a SELL of 10, leave an average of 200 in one
    order and of 100 in the other. *)
Lemma fifo_avg_tie_order_matters :
  let a := mk_exec 1 BUY 10 100 in
  let b := mk_exec 1 BUY 10 200 in
  let c := mk_exec 2 SELL 10 150 in
  time a = time b
  /\ Permutation [a; b; c] [b; a; c]
  /\ match fifo_ledger_avg default_config (sort_by_time [a; b; c])
             "NFO" "NIFTY24CE" 0 0,
           fifo_ledger_avg default_config (sort_by_time [b; a; c])
             "NFO" "NIFTY24CE" 0 0 with
     | Some (_, Some avg1), Some (_, Some avg2) =>
         avg1 == 200 /\ avg2 == 100 /\ ~ avg1 == avg2
     | _, _ => False
     end.
Proof.
  split; [reflexivity|]. split; [apply perm_swap|].
  vm_compute. repeat split; discriminate.
Qed.

(** C9 (amended).  The engine's result on the time-sorted executions is
    unchanged under every reordering of the fetched executions that keeps, at
    each timestamp, the executions carrying it in the same relative order; it
    depends on chronological order otherwise: the oldest lot is consumed
    first, so exchanging the times of two BUYs changes the average left. *)
Theorem fifo_avg_stable_order cfg exch sym opening_qty opening_avg rows1 rows2 :
  (forall t, at_time t rows1 = at_time t rows2) ->
  (fifo_ledger_avg cfg (sort_by_time rows1) exch sym opening_qty opening_avg
   = fifo_ledger_avg cfg (sort_by_time rows2) exch sym opening_qty opening_avg
   /\ is_Some (fifo_ledger_avg cfg (sort_by_time rows1) exch sym
                               opening_qty opening_avg))
  /\ match fifo_ledger_avg default_config
             (sort_by_time [mk_exec 1 BUY 10 100; mk_exec 2 BUY 10 200;
                            mk_exec 3 SELL 10 150]) "NFO" "NIFTY24CE" 0 0,
           fifo_ledger_avg default_config
             (sort_by_time [mk_exec 2 BUY 10 100; mk_exec 1 BUY 10 200;
                            mk_exec 3 SELL 10 150]) "NFO" "NIFTY24CE" 0 0 with
     | Some (_, Some avg1), Some (_, Some avg2) => avg1 == 200 /\ avg2 == 100
     | _, _ => False
     end.
Proof.
  intros Hcl. split.
  - rewrite (sort_by_classes rows1 rows2 Hcl). split; [reflexivity|].
    apply fifo_ledger_avg_is_Some.
  - vm_compute. repeat split.
Qed.

(** A SELL fetched before the BUY that precedes it in time: the fetch order
    of rows with different timestamps does not matter. *)
Lemma fifo_avg_stable_order_witness :
  let rows1 := [mk_exec 2 SELL 4 101; mk_exec 1 BUY 10 100] in
  let rows2 := [mk_exec 1 BUY 10 100; mk_exec 2 SELL 4 101] in
  (forall t, at_time t rows1 = at_time t rows2)
  /\ fifo_ledger_avg default_config (sort_by_time rows1) "NFO" "NIFTY24CE" 0 0
     = fifo_ledger_avg default_config (sort_by_time rows2) "NFO" "NIFTY24CE" 0 0.
Proof.
  assert (H : forall t,
             at_time t [mk_exec 2 SELL 4 101; mk_exec 1 BUY 10 100]
             = at_time t [mk_exec 1 BUY 10 100; mk_exec 2 SELL 4 101]).
  { intros t. unfold at_time. cbn [List.filter mk_exec time].
    destruct (2 =? t)%Z eqn:E2, (1 =? t)%Z eqn:E1; try reflexivity.
    apply Z.eqb_eq in E1, E2. congruence. }
  split; [exact H|].
  exact (proj1 (proj1 (fifo_avg_stable_order default_config "NFO" "NIFTY24CE"
                         0 0 _ _ H))).
Defined.

End NormalizerFacts.

(** ** The decision engine *)

Module EngineFacts.
Import Engine FifoFacts.

(** *** Target price *)

(** C8, as the specification states it, fails twice.  Python's [round] sends
    a tie to the even neighbour, not upwards: with the default margin 0.25 and
    tick 0.05, an average of 1.875 asks for 2.125, which is 42.5 ticks, and
    the target is 2.10 where half-up rounding gives 2.15.  And the final
    rounding to two decimals moves a tick-aligned price when the tick is not
    a whole number of cents: with tick 0.125 the aligned price 0.125 is sent
    to 0.12. *)
Lemma target_price_not_half_up :
  (target_price default_config (15 # 8) == 21 # 10
   /\ spec_target_half_up default_config (15 # 8) == 43 # 20
   /\ ~ target_price default_config (15 # 8)
        == spec_target_half_up default_config (15 # 8))
  /\ ~ round_to_tick (inject_Z 1 * (1 # 8)) (1 # 8) == inject_Z 1 * (1 # 8).
Proof.
  vm_compute. repeat split; discriminate.
Qed.

Lemma Qabs_eq_cases x y : Qabs x == y -> x == y \/ x == - y.
Proof.
  intros H. destruct (Qlt_le_dec x 0) as [Hneg|Hpos].
  - right. rewrite Qabs_neg in H by lra. lra.
  - left. rewrite Qabs_pos in H by lra. exact H.
Qed.

(** A nearest integer is at least as near as any other integer. *)
Lemma py_round_closest x (z : Z) :
  Qabs (inject_Z (py_round x) - x) <= Qabs (inject_Z z - x).
Proof.
  pose proof (py_round_nearest x) as [Hlo Hhi].
  apply Qabs_Qle_condition.
  pose proof (Qle_Qabs (inject_Z z - x)) as Hup.
  pose proof (Qle_Qabs (- (inject_Z z - x))) as Hdn.
  rewrite Qabs_opp in Hdn.
  set (e := Qabs (inject_Z z - x)) in *.
  destruct (Z.lt_trichotomy z (py_round x)) as [Hlt|[->|Hgt]].
  - assert (H : inject_Z z + 1 <= inject_Z (py_round x)).
    { change 1 with (inject_Z 1). rewrite <- inject_Z_plus, <- Zle_Qle. lia. }
    clearbody e. split; lra.
  - clearbody e. split; lra.
  - assert (H : inject_Z (py_round x) + 1 <= inject_Z z).
    { change 1 with (inject_Z 1). rewrite <- inject_Z_plus, <- Zle_Qle. lia. }
    clearbody e. split; lra.
Qed.

(** C8 (amended).  When the tick is a positive whole number of cents, the
    target price is a multiple of the tick nearest to the chosen average plus
    the margin: it lies at most half a tick away, and no multiple of the
    tick is nearer.  Rounding a tick-aligned price returns the same price.
    Which of the two neighbours an exact half tick goes to is left open: it
    is not always the upper one, and in floating point the quotient of line
    86 may fall on either side of the half. *)
Theorem target_price_nearest_tick cfg chosen_avg (cents : Z) :
  (0 < cents)%Z ->
  TICK_SIZE_OPT cfg == inject_Z cents / 100 ->
  let tick := TICK_SIZE_OPT cfg in
  let wanted := chosen_avg + AUTO_SELL_MARGIN_OPT cfg in
  let target := target_price cfg chosen_avg in
  (exists m : Z, target == inject_Z m * tick)
  /\ Qabs (target - wanted) <= tick / 2
  /\ (forall z : Z, Qabs (target - wanted) <= Qabs (inject_Z z * tick - wanted))
  /\ forall z : Z, round_to_tick (inject_Z z * tick) tick == inject_Z z * tick.
Proof.
  intros Hc Ht. cbv zeta.
  assert (Hpos : 0 < TICK_SIZE_OPT cfg).
  { rewrite Ht. assert (0 < inject_Z cents).
    { change 0 with (inject_Z 0). rewrite <- Zlt_Qlt. exact Hc. }
    apply Qlt_shift_div_l; lra. }
  set (tick := TICK_SIZE_OPT cfg) in *.
  set (wanted := chosen_avg + AUTO_SELL_MARGIN_OPT cfg).
  assert (Hne : ~ tick == 0) by lra.
  assert (Htarget : target_price cfg chosen_avg
                    == inject_Z (py_round (wanted / tick)) * tick).
  { unfold target_price. fold tick. fold wanted.
    apply (round_to_tick_multiple _ _ cents). exact Ht. }
  assert (Hscale : forall z : Z,
            Qabs (inject_Z z * tick - wanted)
            == Qabs (inject_Z z - wanted / tick) * tick).
  { intros z.
    assert (E : inject_Z z * tick - wanted == (inject_Z z - wanted / tick) * tick)
      by (field; exact Hne).
    rewrite E, Qabs_Qmult, (Qabs_pos tick) by lra. reflexivity. }
  split; [|split; [|split]].
  - exists (py_round (wanted / tick)). exact Htarget.
  - rewrite Htarget, Hscale.
    pose proof (py_round_nearest (wanted / tick)) as [Hlo Hhi].
    assert (Hd : Qabs (inject_Z (py_round (wanted / tick)) - wanted / tick) <= 1#2)
      by (apply Qabs_Qle_condition; split; lra).
    assert (E2 : tick / 2 == (1#2) * tick) by field. rewrite E2.
    apply Qmult_le_compat_r; [exact Hd|lra].
  - intros z. rewrite Htarget, !Hscale.
    apply Qmult_le_compat_r; [apply py_round_closest|lra].
  - intros z.
    rewrite (round_to_tick_multiple _ _ cents Ht).
    assert (E : inject_Z z * tick / tick == inject_Z z) by (field; exact Hne).
    rewrite E, py_round_Z. reflexivity.
Qed.

(** Default configuration: tick 0.05, average 100, margin 0.25. *)
Lemma target_price_nearest_tick_witness :
  (0 < 5)%Z
  /\ TICK_SIZE_OPT default_config == inject_Z 5 / 100
  /\ (exists m : Z,
        target_price default_config 100 == inject_Z m * TICK_SIZE_OPT default_config)
  /\ Qabs (target_price default_config 100
           - (100 + AUTO_SELL_MARGIN_OPT default_config))
     <= TICK_SIZE_OPT default_config / 2.
Proof.
  assert (H1 : (0 < 5)%Z) by lia.
  assert (H2 : TICK_SIZE_OPT default_config == inject_Z 5 / 100)
    by (vm_compute; reflexivity).
  split; [exact H1|]. split; [exact H2|].
  destruct (target_price_nearest_tick default_config 100 5 H1 H2)
    as (Hm & Hd & _).
  split; [exact Hm|exact Hd].
Defined.

(** The entry scenario: one BUY of 10 @ 100, margin 2, tick 0.05: the target
    is 102.00. *)
Example target_scenario :
  round_to_tick (100 + 2) (5 # 100) == 102.
Proof. vm_compute. reflexivity. Qed.

(** *** Costing and the selection policy *)

Lemma choose_avg_policy cfg session_avg session_buy_qty qty ledger_open_qty
    ledger_open_avg session_start now pos_avg :
  USE_EXECUTIONS cfg = true ->
  0 < qty ->
  (session_avg <> None -> 0 < session_buy_qty) ->
  choose_avg cfg session_avg session_buy_qty qty ledger_open_qty ledger_open_avg
             session_start now pos_avg
  = spec_policy cfg session_avg session_buy_qty qty ledger_open_qty
                ledger_open_avg session_start now pos_avg.
Proof.
  intros Hue Hq Hs. unfold choose_avg, spec_policy. rewrite Hue.
  apply Qltb_lt in Hq. rewrite Hq. cbn [andb].
  destruct session_avg as [savg|]; cbn [mbind option_bind first_of].
  - assert (Hb : Qltb 0 session_buy_qty = true)
      by (apply Qltb_lt, Hs; discriminate).
    rewrite Hb.
    destruct (Qle_bool (95 # 100) (session_buy_qty / qty)); [reflexivity|].
    destruct ledger_open_avg as [lavg|]; cbn [mbind option_bind first_of];
      [|reflexivity].
    now destruct (Qle_bool (qty * (95 # 100)) ledger_open_qty).
  - destruct ledger_open_avg as [lavg|]; cbn [mbind option_bind first_of].
    + destruct (Qle_bool (qty * (95 # 100)) ledger_open_qty); cbn [first_of];
        [reflexivity|].
      now destruct session_start as [ss|];
        [destruct (Qltb (total_seconds ss now) (DEFER_ON_START_SEC cfg))|].
    + now destruct session_start as [ss|];
        [destruct (Qltb (total_seconds ss now) (DEFER_ON_START_SEC cfg))|].
Qed.

(** Both engines return; the session engine either leaves the state alone,
    with no average, or records a positive open quantity with its average. *)
Lemma costing_result cfg st inp :
  exists lq la sa st',
    costing cfg st inp = Some (lq, la, sa, st')
    /\ ((sa = None /\ st' = st)
        \/ (exists q, 0 < q /\ sa <> None /\ st' = note_session_qty q st)).
Proof.
  unfold costing.
  assert (HL : is_Some (ledger_engine cfg st inp)).
  { unfold ledger_engine. destruct (USE_EXECUTIONS cfg); [|eauto].
    apply fifo_ledger_avg_is_Some. }
  destruct HL as [[lq la] HL]. rewrite HL. cbn [mbind option_bind].
  unfold session_engine.
  destruct (session_start st) as [ss|];
    [|cbn; eexists _, _, _, _; split; [reflexivity|left; auto]].
  destruct (USE_EXECUTIONS cfg);
    [|cbn; eexists _, _, _, _; split; [reflexivity|left; auto]].
  destruct (session_ledger_result cfg (in_execs inp) (st_exchange st)
              (st_symbol st) ss) as (q & a & Hq & Ha).
  rewrite Hq. cbn [mbind option_bind].
  destruct (Qltb 0 q) eqn:Hpos; cbn.
  - eexists _, _, _, _. split; [reflexivity|]. right.
    exists q. split; [now apply Qltb_lt|]. split; [now apply Ha|reflexivity].
  - eexists _, _, _, _. split; [reflexivity|]. left. auto.
Qed.

Lemma costing_session_qty cfg st inp lq la sa st' :
  costing cfg st inp = Some (lq, la, sa, st') ->
  (sa <> None -> 0 < session_buy_qty st')
  /\ session_start st' = session_start st.
Proof.
  intros H. destruct (costing_result cfg st inp)
    as (lq' & la' & sa' & st'' & H' & Hcase).
  rewrite H in H'. injection H' as <- <- <- <-.
  destruct Hcase as [[-> ->]|(q & Hq & Hsa & ->)].
  - split; [congruence|reflexivity].
  - split; [intros _; exact Hq|reflexivity].
Qed.

Lemma costing_disabled cfg st inp lq la sa st' :
  USE_EXECUTIONS cfg = false ->
  costing cfg st inp = Some (lq, la, sa, st') ->
  la = None /\ sa = None.
Proof.
  intros Hue. unfold costing, ledger_engine, session_engine. rewrite Hue.
  cbn [mbind option_bind].
  destruct (session_start st); cbn; intros [= <- <- <- <-]; auto.
Qed.

Lemma choose_avg_disabled cfg sbq q lq ss now pos_avg :
  USE_EXECUTIONS cfg = false ->
  choose_avg cfg None sbq q lq None ss now pos_avg = Chosen PositionUNSAFE pos_avg.
Proof. intros Hue. unfold choose_avg. now rewrite Hue. Qed.

(** C2, as the specification states it, fails when execution-based costing
    is switched off ([USE_EXECUTIONS] false): the deferral is gated on that
    toggle, so a cycle inside the defer window, with no session average and
    no ledger coverage, does not defer as the fifth branch says; it takes
    the position average and places an order at once. *)
Lemma policy_not_followed_without_executions :
  match symbol_cycle config_no_executions (new_state "NIFTY24CE" "NFO") 0
                     entry_input with
  | Some r =>
      0 < in_qty entry_input
      /\ spec_policy config_no_executions None (session_buy_qty (out_state r))
           (in_qty entry_input) 0 None (session_start (out_state r))
           (in_now_defer entry_input) (in_pos_avg entry_input) = Defer
      /\ out_choice r = Some (Chosen PositionUNSAFE 100)
      /\ List.filter is_place (out_calls r) <> []
  | None => False
  end.
Proof. vm_compute. repeat split; discriminate. Qed.

(** C2 (amended).  Every cycle of an instrument with positive net quantity
    returns.  With execution-based costing enabled, the source and average
    it chooses are the six-branch policy applied to the session average and
    open quantity, the quantity, the ledger open quantity and average, the
    time since session start and the position average; with it disabled the
    cycle never defers and takes the position average, flagged unsafe.  A
    deferred cycle makes no broker call.  Session covering 3 of 10 with the
    ledger covering 10 of 10 selects Ledger. *)
Theorem costing_choice_policy cfg st prev_qty inp :
  0 < in_qty inp ->
  (exists lq la sa st' r,
     costing cfg (cycle_start st prev_qty inp) inp = Some (lq, la, sa, st')
     /\ symbol_cycle cfg st prev_qty inp = Some r
     /\ out_choice r
        = Some (if USE_EXECUTIONS cfg
                then spec_policy cfg sa (session_buy_qty st') (in_qty inp) lq la
                       (session_start st') (in_now_defer inp) (in_pos_avg inp)
                else Chosen PositionUNSAFE (in_pos_avg inp))
     /\ (out_choice r = Some Defer -> out_calls r = []))
  /\ match symbol_cycle default_config scenario_state 10 scenario_input with
     | Some r =>
         match out_choice r with
         | Some (Chosen Ledger avg) => avg == 103
         | _ => False
         end
     | None => False
     end.
Proof.
  intros Hq. split; [|vm_compute; reflexivity].
  destruct (costing_result cfg (cycle_start st prev_qty inp) inp)
    as (lq & la & sa & st' & Hc & _).
  pose proof (costing_session_qty _ _ _ _ _ _ _ Hc) as [Hsq _].
  exists lq, la, sa, st'. unfold symbol_cycle.
  assert (Hn : Qle_bool (in_qty inp) 0 = false) by (apply Qle_bool_gt; exact Hq).
  rewrite Hn, Hc. cbn [mbind option_bind].
  assert (Hch : choose_avg cfg sa (session_buy_qty st') (in_qty inp) lq la
                  (session_start st') (in_now_defer inp) (in_pos_avg inp)
                = if USE_EXECUTIONS cfg
                  then spec_policy cfg sa (session_buy_qty st') (in_qty inp) lq la
                         (session_start st') (in_now_defer inp) (in_pos_avg inp)
                  else Chosen PositionUNSAFE (in_pos_avg inp)).
  { destruct (USE_EXECUTIONS cfg) eqn:Hue.
    - now apply choose_avg_policy.
    - destruct (costing_disabled _ _ _ _ _ _ _ Hue Hc) as [-> ->].
      now apply choose_avg_disabled. }
  rewrite Hch.
  destruct (if USE_EXECUTIONS cfg then _ else _) as [|src avg].
  - eexists. split; [reflexivity|]. split; [reflexivity|].
    split; [reflexivity|]. reflexivity.
  - destruct (reconcile cfg (set_view (in_qty inp) avg st') inp avg)
      as [st5 calls].
    eexists. split; [reflexivity|]. split; [reflexivity|].
    split; [reflexivity|]. cbn. discriminate.
Qed.

Lemma costing_choice_policy_witness :
  0 < in_qty scenario_input
  /\ exists lq la sa st' r,
       costing default_config (cycle_start scenario_state 10 scenario_input)
               scenario_input = Some (lq, la, sa, st')
       /\ symbol_cycle default_config scenario_state 10 scenario_input = Some r
       /\ out_choice r
          = Some (spec_policy default_config sa (session_buy_qty st')
                    (in_qty scenario_input) lq la (session_start st')
                    (in_now_defer scenario_input) (in_pos_avg scenario_input))
       /\ (out_choice r = Some Defer -> out_calls r = []).
Proof.
  assert (H2 : 0 < in_qty scenario_input) by reflexivity.
  split; [exact H2|].
  exact (proj1 (costing_choice_policy default_config scenario_state 10
                  scenario_input H2)).
Defined.

(** *** Placement *)

Lemma reconcile_not_found cfg st inp chosen_avg :
  find_sell (in_orders inp) (in_qty inp) = None ->
  reconcile cfg st inp chosen_avg
  = (let '((oid, px, oq), calls) :=
       ensure_one_sell cfg (st_exchange st) (st_symbol st) (in_qty inp)
                       chosen_avg (in_answer inp) in
     if armed st
     then (set_armed false (set_open_sell oid px oq st), calls)
     else (set_open_sell oid px oq st,
           cancel_existing_sells (in_orders inp) ++ calls)).
Proof.
  intros Hf. unfold reconcile. rewrite Hf.
  rewrite bool_decide_eq_false_2 by (intros H; now apply H). cbn [andb].
  destruct (ensure_one_sell cfg (st_exchange st) (st_symbol st) (in_qty inp)
              chosen_avg (in_answer inp)) as [[[oid px] oq] calls].
  now destruct (armed st).
Qed.

(** C10.  [ensure_one_sell] with a quantity that is not positive returns
    (None, None, None) and places nothing; with a positive quantity and a
    placement that raises it returns (None, None, None) too; and when the
    reconciliation step places (no live SELL at the quantity was found) and
    the placement fails, the owned-order fields of the state record no
    order. *)
Theorem ensure_one_sell_failure cfg exch sym q avg answer :
  q <= 0 \/ answer = PlaceRaises ->
  fst (ensure_one_sell cfg exch sym q avg answer) = (None, None, None)
  /\ (q <= 0 -> snd (ensure_one_sell cfg exch sym q avg answer) = [])
  /\ forall st inp,
       in_qty inp = q -> in_answer inp = answer ->
       find_sell (in_orders inp) q = None ->
       no_open_sell (fst (reconcile cfg st inp avg)).
Proof.
  intros H.
  assert (E : fst (ensure_one_sell cfg exch sym q avg answer) = (None, None, None)).
  { unfold ensure_one_sell. destruct (Qle_bool q 0) eqn:Hq; [reflexivity|].
    destruct H as [H| ->]; [|reflexivity].
    apply Qle_bool_iff in H. congruence. }
  split; [exact E|]. split.
  - intros Hq. unfold ensure_one_sell.
    apply Qle_bool_iff in Hq. now rewrite Hq.
  - intros st inp <- <- Hf. rewrite reconcile_not_found by exact Hf.
    assert (E' : fst (ensure_one_sell cfg (st_exchange st) (st_symbol st)
                        (in_qty inp) avg (in_answer inp)) = (None, None, None)).
    { unfold ensure_one_sell in *.
      destruct (Qle_bool (in_qty inp) 0); [reflexivity|].
      destruct (in_answer inp) as [|a b d]; [reflexivity|].
      destruct (response_oid a b d); [|reflexivity].
      simpl in E. discriminate. }
    destruct (ensure_one_sell cfg (st_exchange st) (st_symbol st) (in_qty inp)
                avg (in_answer inp)) as [[[oid px] oq] calls].
    simpl in E'. injection E' as -> -> ->.
    destruct (armed st); repeat split.
Qed.

(** A placement of 10 that the broker client rejects by raising. *)
Lemma ensure_one_sell_failure_witness :
  fst (ensure_one_sell default_config "NFO" "NIFTY24CE" 10 100 PlaceRaises)
  = (None, None, None)
  /\ no_open_sell
       (fst (reconcile default_config scenario_state
               {| in_qty := 10; in_pos_avg := 100; in_orders := [];
                  in_execs := []; in_now_session := 20; in_now_defer := 20;
                  in_answer := PlaceRaises |} 100)).
Proof.
  destruct (ensure_one_sell_failure default_config "NFO" "NIFTY24CE" 10 100
              PlaceRaises (or_intror eq_refl)) as (H1 & _ & H3).
  split; [exact H1|].
  apply H3; reflexivity.
Defined.

(** *** Cancellation *)

Lemma cancel_existing_sells_In o orders :
  In o orders -> String.eqb (action o) "SELL" = true ->
  cancellable (status o) = true ->
  In (CancelOrder (orderid o)) (cancel_existing_sells orders).
Proof.
  intros Hin Ha Hs. induction orders as [|x orders IH]; [contradiction|].
  cbn [cancel_existing_sells]. destruct Hin as [->|Hin].
  - rewrite Ha, Hs. now left.
  - destruct (String.eqb (action x) "SELL"); [|now apply IH].
    destruct (negb (cancellable (status x))); [now apply IH|].
    right. now apply IH.
Qed.

Lemma cancel_existing_sells_no_place orders :
  forallb (fun c => negb (is_place c)) (cancel_existing_sells orders) = true.
Proof.
  induction orders as [|x orders IH]; [reflexivity|].
  cbn [cancel_existing_sells].
  destruct (String.eqb (action x) "SELL"); [|exact IH].
  destruct (negb (cancellable (status x))); [exact IH|].
  cbn. exact IH.
Qed.

(** Every live SELL of the instrument is in the snapshot, with a status the
    cancellation accepts. *)
Lemma live_sells_cancelled cfg book exch sym o :
  In o (live_sells cfg book exch sym) ->
  In (CancelOrder (orderid o))
     (cancel_existing_sells (open_orders_get cfg book exch sym)).
Proof.
  unfold live_sells. intros Hin. apply filter_In in Hin.
  destruct Hin as [Hin Ha].
  apply cancel_existing_sells_In; [exact Hin | exact Ha |].
  unfold open_orders_get in Hin. apply filter_In in Hin.
  destruct Hin as [_ Hf].
  repeat (apply andb_true_iff in Hf; destruct Hf as [Hf ?]).
  match goal with H : String.eqb (status o) _ = true |- _ =>
    apply String.eqb_eq in H; rewrite H end.
  reflexivity.
Qed.

(** *** Flat instruments *)

(** An untracked instrument with no quantity: nothing is called, nothing is
    tracked. *)
Lemma flat_untracked_cycle cfg st prev_qty inp :
  in_qty inp <= 0 -> tracking st = false ->
  exists r, symbol_cycle cfg st prev_qty inp = Some r
    /\ out_calls r = [] /\ tracking (out_state r) = false.
Proof.
  intros Hq Ht. unfold symbol_cycle.
  apply Qle_bool_iff in Hq. rewrite Hq. cbn [set_view tracking]. rewrite Ht.
  eexists. split; [reflexivity|]. split; [reflexivity|exact Ht].
Qed.

Lemma flat_untracked_run cfg later : forall st prev_qty,
  Forall (fun i => in_qty i <= 0) later -> tracking st = false ->
  exists rs, run_cycles cfg st prev_qty later = Some rs
    /\ Forall (fun r => out_calls r = [] /\ tracking (out_state r) = false) rs.
Proof.
  induction later as [|inp later IH]; intros st prev_qty Hall Ht.
  - exists []. split; [reflexivity|constructor].
  - inversion Hall as [|? ? Hq Hall']; subst.
    destruct (flat_untracked_cycle cfg st prev_qty inp Hq Ht)
      as (r & Hr & Hc & Ht').
    destruct (IH (out_state r) (out_last_qty r) Hall' Ht') as (rs & Hrs & Hf).
    exists (r :: rs). cbn [run_cycles]. rewrite Hr. cbn [mbind option_bind].
    rewrite Hrs. cbn [mbind option_bind].
    split; [reflexivity|]. constructor; [split; assumption|exact Hf].
Qed.

(** C5.  When the net quantity of a tracked instrument is zero or below, the
    cycle returns; it requests the cancellation of every live SELL of the
    instrument in the order book, places nothing, clears the session state,
    the override flag and the owned order, stops tracking with [total_qty]
    and [avg_price] at zero; and as long as the quantity stays at zero or
    below, the following cycles make no broker call at all. *)
Theorem flat_stops_tracking cfg st prev_qty inp book later :
  in_qty inp <= 0 ->
  tracking st = true ->
  in_orders inp = open_orders_get cfg book (st_exchange st) (st_symbol st) ->
  Forall (fun i => in_qty i <= 0) later ->
  exists r rs,
    symbol_cycle cfg st prev_qty inp = Some r
    /\ (forall o, In o (live_sells cfg book (st_exchange st) (st_symbol st)) ->
                  In (CancelOrder (orderid o)) (out_calls r))
    /\ forallb (fun c => negb (is_place c)) (out_calls r) = true
    /\ (tracking (out_state r) = false
        /\ manual_override (out_state r) = false
        /\ armed (out_state r) = false
        /\ total_qty (out_state r) = 0
        /\ avg_price (out_state r) = 0
        /\ session_start (out_state r) = None
        /\ session_buy_qty (out_state r) = 0
        /\ session_buy_value (out_state r) = 0
        /\ no_open_sell (out_state r))
    /\ run_cycles cfg (out_state r) (out_last_qty r) later = Some rs
    /\ Forall (fun r' => out_calls r' = [] /\ tracking (out_state r') = false) rs.
Proof.
  intros Hq Ht Ho Hlater.
  assert (Hr : symbol_cycle cfg st prev_qty inp
               = Some {| out_state :=
                           clear_session
                             (set_tracking false
                                (set_manual_override false
                                   (set_open_sell None None None (set_view 0 0 st))));
                         out_last_qty := 0;
                         out_calls := cancel_existing_sells (in_orders inp);
                         out_choice := None |}).
  { unfold symbol_cycle. apply Qle_bool_iff in Hq. rewrite Hq.
    cbn [set_view tracking]. now rewrite Ht. }
  destruct (flat_untracked_run cfg later
              (clear_session
                 (set_tracking false
                    (set_manual_override false
                       (set_open_sell None None None (set_view 0 0 st)))))
              0 Hlater eq_refl) as (rs & Hrs & Hf).
  eexists _, rs. split; [exact Hr|]. cbn [out_calls out_state out_last_qty].
  split.
  - intros o Hin. rewrite Ho. now apply live_sells_cancelled.
  - split; [apply cancel_existing_sells_no_place|].
    split; [repeat split|]. split; [exact Hrs|exact Hf].
Qed.

Lemma flat_stops_tracking_witness :
  in_qty flat_input <= 0
  /\ tracking scenario_state = true
  /\ exists r rs,
       symbol_cycle default_config scenario_state 10 flat_input = Some r
       /\ In (CancelOrder "S1") (out_calls r)
       /\ tracking (out_state r) = false
       /\ run_cycles default_config (out_state r) (out_last_qty r) [flat_input]
          = Some rs
       /\ Forall (fun r' => out_calls r' = [] /\ tracking (out_state r') = false) rs.
Proof.
  assert (H1 : in_qty flat_input <= 0) by discriminate.
  assert (H2 : tracking scenario_state = true) by reflexivity.
  assert (H4 : Forall (fun i => in_qty i <= 0) [flat_input])
    by (constructor; [exact H1|constructor]).
  split; [exact H1|]. split; [exact H2|].
  destruct (flat_stops_tracking default_config scenario_state 10 flat_input
              flat_book [flat_input] H1 H2 eq_refl H4)
    as (r & rs & Hr & Hc & _ & (Ht & _) & Hrs & Hf).
  exists r, rs. split; [exact Hr|]. split.
  - apply (Hc (List.hd (Build_Order "" "" "" "" "" 0 0 "") flat_book)).
    vm_compute. left. reflexivity.
  - split; [exact Ht|]. split; [exact Hrs|exact Hf].
Defined.

(** *** A live SELL at the exact quantity *)

(** When a live SELL at the quantity is found, the step calls nothing: the
    order is kept when its price is the target, and the override flag is set
    otherwise. *)
Lemma reconcile_found cfg st inp chosen_avg o :
  find_sell (in_orders inp) (in_qty inp) = Some o ->
  let st' := set_open_sell (Some (orderid o)) (Some (o_price o))
                           (Some (in_qty inp)) st in
  reconcile cfg st inp chosen_avg
  = (set_armed false
       (set_manual_override
          (negb (Qltb (Qabs (o_price o - target_price cfg chosen_avg)) EPSILON))
          st'), []).
Proof.
  intros Hf. cbv zeta. unfold reconcile. rewrite Hf.
  destruct (Qltb (Qabs (o_price o - target_price cfg chosen_avg)) EPSILON);
    [reflexivity|].
  rewrite bool_decide_eq_true_2 by discriminate. reflexivity.
Qed.

Lemma find_sell_present orders q o :
  In o orders -> String.eqb (action o) "SELL" = true -> quantity o == q ->
  exists o', find_sell orders q = Some o'.
Proof.
  intros Hin Ha Hq. unfold find_sell.
  destruct (List.find _ orders) as [o'|] eqn:Hf; [eauto|].
  exfalso. apply (find_none _ _ Hf) in Hin.
  rewrite Ha in Hin. apply Qeq_bool_iff in Hq. rewrite Hq in Hin. discriminate.
Qed.

Lemma find_sell_Some orders q o :
  find_sell orders q = Some o ->
  In o orders /\ String.eqb (action o) "SELL" = true /\ quantity o == q.
Proof.
  unfold find_sell. intros H. apply find_some in H. destruct H as [Hin Hp].
  apply andb_true_iff in Hp. destruct Hp as [Ha Hq].
  apply Qeq_bool_iff in Hq. auto.
Qed.

(** A cycle with a positive quantity that finds a live SELL at that quantity
    makes no broker call. *)
Lemma found_cycle_quiet cfg st prev_qty inp o :
  0 < in_qty inp ->
  find_sell (in_orders inp) (in_qty inp) = Some o ->
  exists r, symbol_cycle cfg st prev_qty inp = Some r
    /\ out_calls r = []
    /\ forall src avg, out_choice r = Some (Chosen src avg) ->
         manual_override (out_state r)
         = negb (Qltb (Qabs (o_price o - target_price cfg avg)) EPSILON)
         /\ armed (out_state r) = false.
Proof.
  intros Hq Hf. unfold symbol_cycle.
  assert (Hn : Qle_bool (in_qty inp) 0 = false) by (apply Qle_bool_gt; exact Hq).
  rewrite Hn.
  destruct (costing_result cfg (cycle_start st prev_qty inp) inp)
    as (lq & la & sa & st' & Hc & _).
  rewrite Hc. cbn [mbind option_bind].
  destruct (choose_avg cfg sa (session_buy_qty st') (in_qty inp) lq la
              (session_start st') (in_now_defer inp) (in_pos_avg inp))
    as [|src avg].
  - eexists. split; [reflexivity|]. split; [reflexivity|]. discriminate.
  - rewrite (reconcile_found cfg _ inp avg o Hf).
    eexists. split; [reflexivity|]. split; [reflexivity|].
    cbn [out_choice out_state]. intros src' avg' [= _ <-].
    split; reflexivity.
Qed.

Lemma found_run_quiet cfg o q later : forall st prev_qty,
  0 < q ->
  String.eqb (action o) "SELL" = true -> quantity o == q ->
  Forall (fun i => in_qty i == q /\ still_live o (in_orders i)) later ->
  exists rs, run_cycles cfg st prev_qty later = Some rs
    /\ Forall (fun r => out_calls r = []) rs.
Proof.
  induction later as [|inp later IH]; intros st prev_qty Hq Ha Ho Hall.
  - exists []. split; [reflexivity|constructor].
  - inversion Hall as [|? ? [Hqi (o1 & Hin & _ & Ha1 & Hq1)] Hall']; subst.
    destruct (find_sell_present (in_orders inp) (in_qty inp) o1 Hin)
      as [o' Hf]; [now rewrite Ha1 | now rewrite Hq1, Hqi, Ho|].
    destruct (found_cycle_quiet cfg st prev_qty inp o' ltac:(now rewrite Hqi) Hf)
      as (r & Hr & Hc & _).
    destruct (IH (out_state r) (out_last_qty r) Hq Ha Ho Hall') as (rs & Hrs & Hf').
    exists (r :: rs). cbn [run_cycles]. rewrite Hr. cbn [mbind option_bind].
    rewrite Hrs. cbn [mbind option_bind].
    split; [reflexivity|]. constructor; assumption.
Qed.

(** C4, as the specification states it, fails: an unchanged net quantity is
    not enough.  The override is recognised in each cycle anew, by a live
    SELL at exactly the position's quantity (line 622); the re-price branch
    (lines 647-652) does not read [manual_override].  Here the first cycle
    finds the moved order and sets [manual_override]; the order is then
    edited to quantity 5 while the position stays at 10, and the next cycle
    cancels it and places a new one. *)
Lemma manual_override_lost_on_resize :
  match symbol_cycle default_config scenario_state 10 override_input with
  | Some r1 =>
      out_calls r1 = []
      /\ manual_override (out_state r1) = true
      /\ armed (out_state r1) = false
      /\ in_qty resized_input == in_qty override_input
      /\ match symbol_cycle default_config (out_state r1) (out_last_qty r1)
                            resized_input with
         | Some r2 =>
             List.filter is_cancel (out_calls r2) = [CancelOrder "S1"]
             /\ map (fun c => match c with
                              | PlaceOrder _ _ act q px _ _ =>
                                  Some (act, Qred q, Qred px)
                              | CancelOrder _ => None
                              end) (out_calls r2)
                = [None; Some ("SELL"%string, 10, 413 # 4)]
         | None => False
         end
  | None => False
  end.
Proof. vm_compute. repeat split. Qed.

(** C4 (amended).  A cycle with positive quantity that finds a live SELL [o]
    at exactly that quantity returns and makes no broker call; when [o]'s
    price differs from the target the cycle computed by epsilon or more, it
    sets [manual_override] and disarms; and in every later cycle in which the
    quantity is unchanged and the order is still live at that quantity, the
    engine makes no broker call: it neither cancels nor replaces the order. *)
Theorem manual_override_untouched cfg st prev_qty inp o later :
  0 < in_qty inp ->
  find_sell (in_orders inp) (in_qty inp) = Some o ->
  Forall (fun i => in_qty i == in_qty inp /\ still_live o (in_orders i)) later ->
  exists r rs,
    symbol_cycle cfg st prev_qty inp = Some r
    /\ out_calls r = []
    /\ (forall src avg,
          out_choice r = Some (Chosen src avg) ->
          EPSILON <= Qabs (o_price o - target_price cfg avg) ->
          manual_override (out_state r) = true /\ armed (out_state r) = false)
    /\ run_cycles cfg (out_state r) (out_last_qty r) later = Some rs
    /\ Forall (fun r' => out_calls r' = []) rs.
Proof.
  intros Hq Hf Hlater.
  destruct (found_cycle_quiet cfg st prev_qty inp o Hq Hf) as (r & Hr & Hc & Hst).
  destruct (find_sell_Some _ _ _ Hf) as (_ & Ha & Ho).
  destruct (found_run_quiet cfg o (in_qty inp) later (out_state r)
              (out_last_qty r) Hq Ha Ho Hlater) as (rs & Hrs & Hquiet).
  exists r, rs. split; [exact Hr|]. split; [exact Hc|]. split.
  - intros src avg Hch Hdiff. destruct (Hst src avg Hch) as [Hm Harm].
    split; [|exact Harm]. rewrite Hm.
    apply Qltb_ge in Hdiff. now rewrite Hdiff.
  - split; [exact Hrs|exact Hquiet].
Qed.

Lemma manual_override_untouched_witness :
  0 < in_qty override_input
  /\ find_sell (in_orders override_input) (in_qty override_input)
     = Some moved_order
  /\ exists r rs,
       symbol_cycle default_config scenario_state 10 override_input = Some r
       /\ out_calls r = []
       /\ manual_override (out_state r) = true
       /\ run_cycles default_config (out_state r) (out_last_qty r)
            [override_input; override_input] = Some rs
       /\ Forall (fun r' => out_calls r' = []) rs.
Proof.
  assert (H1 : 0 < in_qty override_input) by reflexivity.
  assert (H2 : find_sell (in_orders override_input) (in_qty override_input)
               = Some moved_order) by reflexivity.
  assert (H3 : Forall (fun i => in_qty i == in_qty override_input
                                /\ still_live moved_order (in_orders i))
                 [override_input; override_input]).
  { repeat constructor; exists moved_order; repeat split; now left. }
  split; [exact H1|]. split; [exact H2|].
  destruct (manual_override_untouched default_config scenario_state 10
              override_input moved_order _ H1 H2 H3)
    as (r & rs & Hr & Hc & Hm & Hrs & Hq).
  exists r, rs. split; [exact Hr|]. split; [exact Hc|].
  split; [|split; [exact Hrs|exact Hq]].
  assert (Hr' : exists src avg,
             out_choice r = Some (Chosen src avg)
             /\ EPSILON <= Qabs (o_price moved_order
                                 - target_price default_config avg)).
  { assert (E : match symbol_cycle default_config scenario_state 10
                        override_input with
                | Some r0 =>
                    match out_choice r0 with
                    | Some (Chosen _ avg) =>
                        Qle_bool EPSILON
                          (Qabs (o_price moved_order
                                 - target_price default_config avg)) = true
                    | _ => False
                    end
                | None => False
                end) by (vm_compute; reflexivity).
    rewrite Hr in E. destruct (out_choice r) as [[|src avg]|]; try contradiction.
    exists src, avg. split; [reflexivity|]. now apply Qle_bool_iff. }
  destruct Hr' as (src & avg & Hch & Hdiff).
  exact (proj1 (Hm src avg Hch Hdiff)).
Defined.

(** *** One protective order per instrument *)

(** C1 fails on the code.  When the quantity grows while the SELL placed for
    the old quantity is still live, the cycle is armed, finds no SELL at the
    new quantity, and places a second SELL without cancelling the first: the
    store then holds two live protective SELLs for the instrument, with
    [manual_override] false.  (The re-price branch of the same step cancels
    the stale SELLs before it places.) *)
Theorem two_live_sells_after_increase :
  match symbol_cycle default_config (new_state "NIFTY24CE" "NFO") 0 grow_input1 with
  | Some r1 =>
      let book1 := book_after (Some "S1"%string) [] (out_calls r1) in
      match symbol_cycle default_config (out_state r1) (out_last_qty r1)
                         (grow_input2 book1) with
      | Some r2 =>
          let book2 := book_after (Some "S2"%string) book1 (out_calls r2) in
          map orderid (live_sells default_config book1 "NFO" "NIFTY24CE")
          = ["S1"%string]
          /\ manual_override (out_state r1) = false
          /\ List.filter is_cancel (out_calls r2) = []
          /\ manual_override (out_state r2) = false
          /\ map orderid (live_sells default_config book2 "NFO" "NIFTY24CE")
             = ["S1"; "S2"]%string
          /\ map (fun o => Qred (quantity o))
                 (live_sells default_config book2 "NFO" "NIFTY24CE")
             = [10; 20]
      | None => False
      end
  | None => False
  end.
Proof. vm_compute. repeat split. Qed.

End EngineFacts.

(** * Further properties of the module *)

(** ** Averages and the lot queue *)

Module CostFacts.
Import FifoFacts.

(** A SELL takes lots from the front: what is left is a suffix of the queue,
    whose first lot may be reduced. *)
Lemma consume_suffix : forall queue sell_qty,
  lots_pos queue ->
  exists k,
    consume sell_qty queue = drop k queue
    \/ exists lot_qty lot_price rest left,
         drop k queue = (lot_qty, lot_price) :: rest
         /\ 0 < left /\ left < lot_qty
         /\ consume sell_qty queue = (left, lot_price) :: rest.
Proof.
  induction queue as [|[lq lp] rest IH]; intros s Hpos.
  - exists 0%nat. left. reflexivity.
  - inversion Hpos as [|? ? Hlq Hrest]; subst. simpl in Hlq.
    cbn [consume]. destruct (Qltb 0 s) eqn:Hs.
    + apply Qltb_lt in Hs.
      destruct (Qle_bool (lq - qmin s lq) 0) eqn:Hpop.
      * destruct (IH (s - qmin s lq) Hrest) as [k Hk].
        exists (S k). exact Hk.
      * apply Qle_bool_gt in Hpop.
        destruct (qmin_spec s lq) as [[Hlt Hm]|[Hle Hm]]; rewrite Hm in *;
          [lra|].
        exists 0%nat. right. exists lq, lp, rest, (lq - s).
        repeat split; try reflexivity; lra.
    + exists 0%nat. left. reflexivity.
Qed.

(** X3.  A SELL applied to a queue of positive lots returns, and leaves a
    suffix of the queue: the oldest lots are removed whole, at most the first
    remaining lot is reduced (it keeps its price and a positive quantity),
    and the lots behind it are untouched. *)
Theorem apply_sell_fifo queue sell_qty :
  lots_pos queue ->
  exists queue' k,
    apply_sell sell_qty queue = Some queue'
    /\ (queue' = drop k queue
        \/ exists lot_qty lot_price rest left,
             drop k queue = (lot_qty, lot_price) :: rest
             /\ 0 < left /\ left < lot_qty
             /\ queue' = (left, lot_price) :: rest).
Proof.
  intros Hpos. destruct (consume_suffix queue sell_qty Hpos) as [k Hk].
  exists (consume sell_qty queue), k. split; [apply apply_sell_consume|exact Hk].
Qed.

Lemma apply_sell_fifo_witness :
  lots_pos [(10, 100); (5, 110); (7, 120)]
  /\ exists queue' k,
       apply_sell 12 [(10, 100); (5, 110); (7, 120)] = Some queue'
       /\ (queue' = drop k [(10, 100); (5, 110); (7, 120)]
           \/ exists lot_qty lot_price rest left,
                drop k [(10, 100); (5, 110); (7, 120)]
                = (lot_qty, lot_price) :: rest
                /\ 0 < left /\ left < lot_qty
                /\ queue' = (left, lot_price) :: rest).
Proof.
  assert (H : lots_pos [(10, 100); (5, 110); (7, 120)])
    by (repeat constructor).
  split; [exact H|]. exact (apply_sell_fifo _ 12 H).
Defined.

(** The loop skips the rows out of scope. *)
Lemma ledger_loop_filter cfg exch sym execs : forall queue,
  ledger_loop cfg exch sym execs queue
  = ledger_loop cfg exch sym (List.filter (in_scope cfg exch sym) execs) queue.
Proof.
  induction execs as [|r execs IH]; intros queue; [reflexivity|].
  cbn [List.filter]. destruct (in_scope cfg exch sym r) eqn:Hs.
  - cbn [ledger_loop]. rewrite Hs. cbn [negb].
    destruct (side r); [apply IH|].
    destruct (apply_sell (qty r) queue); cbn [mbind option_bind];
      [apply IH|reflexivity].
  - cbn [ledger_loop]. rewrite Hs. cbn [negb]. apply IH.
Qed.

(** Of a row in scope the loop reads the side, the quantity, and the price
    of a BUY. *)
Lemma ledger_loop_view cfg exch sym : forall l1 l2 queue,
  Forall (fun r => in_scope cfg exch sym r = true) l1 ->
  Forall (fun r => in_scope cfg exch sym r = true) l2 ->
  map (fun r => (side r, qty r,
                 match side r with BUY => Some (price r) | SELL => None end)) l1
  = map (fun r => (side r, qty r,
                   match side r with BUY => Some (price r) | SELL => None end)) l2 ->
  ledger_loop cfg exch sym l1 queue = ledger_loop cfg exch sym l2 queue.
Proof.
  induction l1 as [|r1 l1 IH]; intros [|r2 l2] queue H1 H2 Hv;
    try discriminate; [reflexivity|].
  inversion H1 as [|? ? Hs1 H1']; subst. inversion H2 as [|? ? Hs2 H2']; subst.
  cbn [map] in Hv. injection Hv as Hside Hqty Hprice Hrest.
  cbn [ledger_loop]. rewrite Hs1, Hs2. cbn [negb].
  rewrite <- Hside, <- Hqty. rewrite <- Hside in Hprice.
  destruct (side r1).
  - injection Hprice as <-. now apply IH.
  - destruct (apply_sell (qty r1) queue); cbn [mbind option_bind];
      [now apply IH|reflexivity].
Qed.

(** X2.  The ledger engine reads, of the executions, only the rows of the
    instrument in scope, in order, and of each its side, its quantity, and
    its price when it is a BUY: two execution lists that agree on these give
    the same open quantity and average.  Rows of other instruments or
    products, timestamps, execution ids and the prices of SELLs have no
    influence on the cost basis. *)
Theorem fifo_reads_ledger_view cfg execs1 execs2 exch sym opening_qty opening_avg :
  ledger_view cfg exch sym execs1 = ledger_view cfg exch sym execs2 ->
  fifo_ledger_avg cfg execs1 exch sym opening_qty opening_avg
  = fifo_ledger_avg cfg execs2 exch sym opening_qty opening_avg.
Proof.
  unfold ledger_view, fifo_ledger_avg. intros Hv.
  rewrite (ledger_loop_filter cfg exch sym execs1),
          (ledger_loop_filter cfg exch sym execs2).
  assert (Hscope : forall execs,
            Forall (fun r => in_scope cfg exch sym r = true)
                   (List.filter (in_scope cfg exch sym) execs)).
  { intros execs. apply List.Forall_forall. intros r Hin.
    apply filter_In in Hin. tauto. }
  now rewrite (ledger_loop_view cfg exch sym _ _
                 (seed_queue cfg opening_qty opening_avg)
                 (Hscope execs1) (Hscope execs2) Hv).
Qed.

(** A SELL priced differently, and a row of another instrument in between:
    the cost basis is the same. *)
Lemma fifo_reads_ledger_view_witness :
  let execs1 := [mk_exec 1 BUY 10 100; mk_exec 2 SELL 4 150] in
  let execs2 :=
    [mk_exec 1 BUY 10 100;
     {| time := 2; side := BUY; qty := 50; price := 7; symbol := "BANKNIFTY24PE";
        exchange := "NFO"; product := "NRML"; exec_id := Some "x"%string |};
     mk_exec 9 SELL 4 90] in
  ledger_view default_config "NFO" "NIFTY24CE" execs1
  = ledger_view default_config "NFO" "NIFTY24CE" execs2
  /\ fifo_ledger_avg default_config execs1 "NFO" "NIFTY24CE" 0 0
     = fifo_ledger_avg default_config execs2 "NFO" "NIFTY24CE" 0 0.
Proof.
  cbv zeta.
  assert (H : ledger_view default_config "NFO" "NIFTY24CE"
                [mk_exec 1 BUY 10 100; mk_exec 2 SELL 4 150]
              = ledger_view default_config "NFO" "NIFTY24CE"
                  [mk_exec 1 BUY 10 100;
                   {| time := 2; side := BUY; qty := 50; price := 7;
                      symbol := "BANKNIFTY24PE"; exchange := "NFO";
                      product := "NRML"; exec_id := Some "x"%string |};
                   mk_exec 9 SELL 4 90]) by reflexivity.
  split; [exact H|].
  exact (fifo_reads_ledger_view default_config _ _ "NFO" "NIFTY24CE" 0 0 H).
Defined.

End CostFacts.

(** ** The fetcher *)

Module FetchFacts.
Import Normalizer NormalizerFacts.

(** The loop body is the filter followed by the de-duplication. *)
Lemma normalize_row_accepted cap cutoff cache r :
  normalize_row cap cutoff cache r
  = match accepted cutoff r with
    | None => (Skipped, cache)
    | Some e =>
        match exec_id e with
        | None => (Yielded e false, cache)
        | Some i =>
            if bool_decide (i ∈ cache) then (Skipped, cache)
            else let '(cleared, cache') := remember cap i cache in
                 (Yielded e cleared, cache')
        end
    end.
Proof.
  unfold normalize_row, accepted.
  destruct (_ || _); [reflexivity|].
  destruct (r_dt r) as [dt|]; [|reflexivity]. cbn [mbind option_bind].
  destruct (dt <? cutoff)%Z; [reflexivity|].
  destruct (parse_side (r_side r)) as [sd|]; [|reflexivity].
  cbn [mbind option_bind].
  destruct (Qle_bool (r_qty r) 0); reflexivity.
Qed.


Lemma accepted_later_cutoff cutoff cutoff' r e :
  (cutoff <= cutoff')%Z ->
  accepted cutoff' r = Some e -> accepted cutoff r = Some e.
Proof.
  intros Hle. unfold accepted.
  destruct (_ || _); [discriminate|].
  destruct (r_dt r) as [dt|]; [|discriminate]. cbn [mbind option_bind].
  destruct (dt <? cutoff')%Z eqn:E; [discriminate|].
  apply Z.ltb_ge in E.
  assert (E' : (dt <? cutoff)%Z = false) by (apply Z.ltb_ge; lia).
  now rewrite E'.
Qed.

Lemma accepted_exec_id cutoff r e :
  accepted cutoff r = Some e -> exec_id e = exec_id_of (r_exec_id r).
Proof.
  unfold accepted.
  destruct (_ || _); [discriminate|].
  destruct (r_dt r) as [dt|]; [|discriminate]. cbn [mbind option_bind].
  destruct (dt <? cutoff)%Z; [discriminate|].
  destruct (parse_side (r_side r)) as [sd|]; [|discriminate].
  cbn [mbind option_bind]. destruct (Qle_bool (r_qty r) 0); [discriminate|].
  now intros [= <-].
Qed.



(** *** The size of the cache *)

Lemma remember_size cap i cache :
  (0 <= cap)%Z ->
  (Z.of_nat (size (snd (remember cap i cache))) <= cap)%Z.
Proof.
  intros Hc. unfold remember.
  destruct (cap <? Z.of_nat (size ({[i]} ∪ cache)))%Z eqn:E; cbn [snd].
  - rewrite size_empty. exact Hc.
  - now apply Z.ltb_ge in E.
Qed.

Lemma normalize_row_size cap cutoff cache r :
  (0 <= cap)%Z ->
  (Z.of_nat (size cache) <= cap)%Z ->
  (Z.of_nat (size (snd (normalize_row cap cutoff cache r))) <= cap)%Z.
Proof.
  intros Hc Hs. rewrite normalize_row_accepted.
  destruct (accepted cutoff r) as [e|]; [|exact Hs].
  destruct (exec_id e) as [i|]; [|exact Hs].
  destruct (bool_decide (i ∈ cache)); [exact Hs|].
  pose proof (remember_size cap i cache Hc) as Hr.
  now destruct (remember cap i cache).
Qed.

Lemma run_rows_size cap steps : forall cache,
  (0 <= cap)%Z ->
  (Z.of_nat (size cache) <= cap)%Z ->
  (Z.of_nat (size (snd (run_rows cap cache steps))) <= cap)%Z.
Proof.
  induction steps as [|[cutoff r] steps IH]; intros cache Hc Hs; [exact Hs|].
  rewrite run_rows_cons. cbn [snd]. apply IH; [exact Hc|].
  now apply normalize_row_size.
Qed.

(** X5.  The de-duplication cache is bounded: when it holds at most
    [MAX_EXEC_ID_CACHE] ids before a sequence of fetch calls, it holds at
    most that many after it. *)
Theorem exec_id_cache_bounded calls cache :
  (Z.of_nat (size cache) <= MAX_EXEC_ID_CACHE)%Z ->
  (Z.of_nat (size (snd (fetch_calls calls cache))) <= MAX_EXEC_ID_CACHE)%Z.
Proof.
  intros Hs. rewrite (proj1 (fetch_calls_steps calls cache)).
  apply run_rows_size; [unfold MAX_EXEC_ID_CACHE; lia|exact Hs].
Qed.

Lemma exec_id_cache_bounded_witness :
  (Z.of_nat (size (∅ : gset string)) <= MAX_EXEC_ID_CACHE)%Z
  /\ (Z.of_nat (size (snd (fetch_calls
                             [(0, [mk_row 5 "BUY" "a"; mk_row 6 "SELL" "b"])]%Z
                             ∅)))
      <= MAX_EXEC_ID_CACHE)%Z.
Proof.
  assert (H : (Z.of_nat (size (∅ : gset string)) <= MAX_EXEC_ID_CACHE)%Z)
    by (vm_compute; discriminate).
  split; [exact H|]. exact (exec_id_cache_bounded _ ∅ H).
Defined.

(** *** Rows fetched again *)

(** A first pass that cannot overflow the cache keeps what was cached and
    caches the id of every row it accepts. *)
Lemma first_pass_records cap cutoff rows : forall cache,
  Forall (fun r => r_exec_id r <> ""%string) rows ->
  (Z.of_nat (size cache + length rows) <= cap)%Z ->
  cache ⊆ snd (normalize_rows cap cutoff cache rows)
  /\ Forall (fun r => forall e, accepted cutoff r = Some e ->
                      r_exec_id r ∈ snd (normalize_rows cap cutoff cache rows))
            rows.
Proof.
  induction rows as [|r rows IHrows]; intros cache Hid Hsz.
  - split; [reflexivity|constructor].
  - inversion Hid as [|? ? Hr Hid']; subst. cbn [length] in Hsz.
    cbn [normalize_rows]. rewrite normalize_row_accepted.
    assert (Hstep : exists c1,
               (match accepted cutoff r with
                | None => (Skipped, cache)
                | Some e =>
                    match exec_id e with
                    | None => (Yielded e false, cache)
                    | Some i =>
                        if bool_decide (i ∈ cache) then (Skipped, cache)
                        else let '(cleared, cache') := remember cap i cache in
                             (Yielded e cleared, cache')
                    end
                end).2 = c1
               /\ cache ⊆ c1
               /\ (size c1 <= S (size cache))%nat
               /\ (forall e, accepted cutoff r = Some e -> r_exec_id r ∈ c1)).
    { clear IHrows. destruct (accepted cutoff r) as [e|] eqn:Ha.
      - rewrite (accepted_exec_id _ _ _ Ha). unfold exec_id_of.
        apply String.eqb_neq in Hr. rewrite Hr.
        destruct (bool_decide (r_exec_id r ∈ cache)) eqn:Hin.
        + apply bool_decide_eq_true in Hin. exists cache.
          split; [reflexivity|]. split; [reflexivity|]. split; [lia|].
          intros; exact Hin.
        + apply bool_decide_eq_false in Hin. unfold remember.
          assert (Hsize : size ({[r_exec_id r]} ∪ cache) = S (size cache)).
          { rewrite size_union by set_solver. now rewrite size_singleton. }
          rewrite Hsize.
          assert (E : (cap <? Z.of_nat (S (size cache)))%Z = false)
            by (apply Z.ltb_ge; lia).
          rewrite E. exists ({[r_exec_id r]} ∪ cache).
          split; [reflexivity|]. split; [set_solver|]. split; [lia|].
          intros; set_solver.
      - exists cache.
        split; [reflexivity|]. split; [reflexivity|]. split; [lia|discriminate]. }
    destruct Hstep as (c1 & Hc1 & Hsub & Hs1 & Hrec).
    destruct (match accepted cutoff r with None => _ | Some e => _ end)
      as [o c1'].
    cbn [snd] in Hc1. subst c1'.
    destruct (IHrows c1 Hid' ltac:(lia)) as [Hsub' Hall]. clear IHrows.
    destruct (normalize_rows cap cutoff c1 rows) as [os c2]. cbn [snd] in *.
    split; [set_solver|].
    constructor; [intros e He; specialize (Hrec e He); set_solver|exact Hall].
Qed.

(** A pass in which every accepted row has its id cached yields nothing and
    leaves the cache as it is. *)
Lemma second_pass_skips cap cutoff rows cache :
  Forall (fun r => r_exec_id r <> ""%string) rows ->
  Forall (fun r => forall e, accepted cutoff r = Some e -> r_exec_id r ∈ cache)
         rows ->
  yielded (fst (normalize_rows cap cutoff cache rows)) = []
  /\ snd (normalize_rows cap cutoff cache rows) = cache.
Proof.
  induction 1 as [|r rows Hr _ IH]; intros Hall; [split; reflexivity|].
  inversion Hall as [|? ? Hin Hall']; subst.
  cbn [normalize_rows]. rewrite normalize_row_accepted.
  destruct (IH Hall') as [IH1 IH2].
  destruct (accepted cutoff r) as [e|] eqn:Ha.
  - rewrite (accepted_exec_id _ _ _ Ha). unfold exec_id_of.
    apply String.eqb_neq in Hr. rewrite Hr.
    rewrite bool_decide_eq_true_2 by (now apply (Hin e)).
    destruct (normalize_rows cap cutoff cache rows). cbn in *. auto.
  - destruct (normalize_rows cap cutoff cache rows). cbn in *. auto.
Qed.

(** X6.  Executions that carry an id are returned once: when the rows of a
    fetch all carry an id and the cache has room for them, fetching the same
    rows again, with the same or a later cutoff, returns the empty list and
    leaves the cache unchanged. *)
Theorem refetch_returns_nothing cutoff cutoff' rows cache :
  Forall (fun r => r_exec_id r <> ""%string) rows ->
  (Z.of_nat (size cache + length rows) <= MAX_EXEC_ID_CACHE)%Z ->
  (cutoff <= cutoff')%Z ->
  fetch_executions_lookback cutoff' rows
    (snd (fetch_executions_lookback cutoff rows cache))
  = ([], snd (fetch_executions_lookback cutoff rows cache)).
Proof.
  intros Hid Hsz Hle. unfold fetch_executions_lookback.
  destruct (first_pass_records MAX_EXEC_ID_CACHE cutoff rows cache Hid Hsz)
    as [_ Hrec].
  destruct (normalize_rows MAX_EXEC_ID_CACHE cutoff cache rows) as [os c1].
  cbn [snd] in *.
  destruct (second_pass_skips MAX_EXEC_ID_CACHE cutoff' rows c1 Hid) as [Hy Hc].
  { eapply Forall_impl; [exact Hrec|]. intros r H e He. simpl in H.
    apply (H e). now apply (accepted_later_cutoff cutoff cutoff'). }
  destruct (normalize_rows MAX_EXEC_ID_CACHE cutoff' c1 rows) as [os' c2].
  cbn [fst snd] in *. now rewrite Hy, Hc.
Qed.

Lemma refetch_returns_nothing_witness :
  let rows := [mk_row 5 "BUY" "a"; mk_row 6 "SELL" "b"] in
  Forall (fun r => r_exec_id r <> ""%string) rows
  /\ (Z.of_nat (size (∅ : gset string) + length rows) <= MAX_EXEC_ID_CACHE)%Z
  /\ (0 <= 3)%Z
  /\ fst (fetch_executions_lookback 0 rows ∅)
     = [exec_of_row 5 BUY "a"; exec_of_row 6 SELL "b"]
  /\ fetch_executions_lookback 3 rows (snd (fetch_executions_lookback 0 rows ∅))
     = ([], snd (fetch_executions_lookback 0 rows ∅)).
Proof.
  assert (H1 : Forall (fun r => r_exec_id r <> ""%string)
                 [mk_row 5 "BUY" "a"; mk_row 6 "SELL" "b"])
    by (repeat constructor; discriminate).
  assert (H2 : (Z.of_nat (size (∅ : gset string)
                          + length [mk_row 5 "BUY" "a"; mk_row 6 "SELL" "b"])
                <= MAX_EXEC_ID_CACHE)%Z) by (vm_compute; discriminate).
  assert (H3 : (0 <= 3)%Z) by lia.
  split; [exact H1|]. split; [exact H2|]. split; [exact H3|].
  split; [vm_compute; reflexivity|].
  exact (refetch_returns_nothing 0 3 _ ∅ H1 H2 H3).
Defined.

(** *** Rows without an id *)

Lemma idless_pass cap cutoff rows cache :
  Forall (fun r => r_exec_id r = ""%string) rows ->
  yielded (fst (normalize_rows cap cutoff cache rows))
  = omap (accepted cutoff) rows
  /\ snd (normalize_rows cap cutoff cache rows) = cache.
Proof.
  induction 1 as [|r rows Hr _ [IH1 IH2]]; [split; reflexivity|].
  cbn [normalize_rows]. rewrite normalize_row_accepted. cbn [omap list_omap].
  destruct (accepted cutoff r) as [e|] eqn:Ha.
  - rewrite (accepted_exec_id _ _ _ Ha), Hr. cbn [exec_id_of String.eqb].
    destruct (normalize_rows cap cutoff cache rows). cbn in *.
    now rewrite IH1, IH2.
  - destruct (normalize_rows cap cutoff cache rows). cbn in *. auto.
Qed.

(** X7.  Rows without an execution id are never de-duplicated: a fetch
    whose rows carry no id returns every row that passes the filters, sorted
    by time, whatever the cache holds, and leaves the cache unchanged, so
    that fetching them again returns them again. *)
Theorem rows_without_id_always_returned cutoff rows cache :
  Forall (fun r => r_exec_id r = ""%string) rows ->
  fetch_executions_lookback cutoff rows cache
  = (sort_by_time (omap (accepted cutoff) rows), cache).
Proof.
  intros Hid. unfold fetch_executions_lookback.
  destruct (idless_pass MAX_EXEC_ID_CACHE cutoff rows cache Hid) as [Hy Hc].
  destruct (normalize_rows MAX_EXEC_ID_CACHE cutoff cache rows) as [os c1].
  cbn [fst snd] in *. now rewrite Hy, Hc.
Qed.

Lemma rows_without_id_always_returned_witness :
  let rows := [mk_row 6 "SELL" ""; mk_row 5 "BUY" ""] in
  Forall (fun r => r_exec_id r = ""%string) rows
  /\ fetch_executions_lookback 0 rows {[ "a"%string ]}
     = (sort_by_time (omap (accepted 0) rows), {[ "a"%string ]})
  /\ map time (fst (fetch_executions_lookback 0 rows {[ "a"%string ]}))
     = [5; 6]%Z.
Proof.
  assert (H : Forall (fun r => r_exec_id r = ""%string)
                [mk_row 6 "SELL" ""; mk_row 5 "BUY" ""])
    by (repeat constructor).
  split; [exact H|].
  split; [exact (rows_without_id_always_returned 0 _ _ H)|].
  rewrite (rows_without_id_always_returned 0 _ _ H). reflexivity.
Defined.

End FetchFacts.

(** ** Snapshots *)

Module SnapshotFacts.
Import Engine Snapshots.

Section Grouping.
Context {A B : Type} (P : A -> bool) (kf : A -> key) (vf : A -> B).

(** Grouping with [setdefault(...).append(...)]: under each key, the values
    of the elements kept for that key, in list order, after what was there. *)
Lemma group_lookup l : forall (acc : gmap key (list B)) (k : key),
  fold_left (fun m a => if P a then setdefault_append (kf a) (vf a) m else m)
            l acc !! k
  = match map vf (List.filter (fun a => P a && bool_decide (kf a = k)) l) with
    | [] => acc !! k
    | x :: extra => Some (default [] (acc !! k) ++ x :: extra)
    end.
Proof.
  induction l as [|a l IHl]; intros acc k; [reflexivity|].
  cbn [fold_left List.filter]. rewrite IHl.
  destruct (P a) eqn:HP; cbn [andb]; [|reflexivity].
  destruct (bool_decide (kf a = k)) eqn:Hk.
  - apply bool_decide_eq_true in Hk. subst k.
    unfold setdefault_append. rewrite lookup_insert_eq. cbn [map].
    destruct (map vf (List.filter _ l)) as [|x extra]; cbn.
    + reflexivity.
    + now rewrite <- app_assoc.
  - apply bool_decide_eq_false in Hk.
    unfold setdefault_append. now rewrite lookup_insert_ne.
Qed.

End Grouping.

Lemma group_legs_lookup cfg pos_list exch sym :
  group_legs cfg pos_list !! (exch, sym)
  = match legs_of cfg pos_list exch sym with
    | [] => None
    | pairs => Some pairs
    end.
Proof.
  unfold group_legs, legs_of.
  rewrite (group_lookup (leg_in_scope cfg)
             (fun p => (p_exchange p, p_symbol p))
             (fun p => (p_quantity p, p_average_price p))).
  rewrite lookup_empty. now destruct (map _ _).
Qed.

Lemma merge_pairs_nil : merge_pairs [] = None.
Proof. reflexivity. Qed.

(** X8.  The entry of [snapshot_option_positions] for an instrument is
    computed from the legs of that instrument that pass the scope tests
    (exchange, product, option symbol, non-zero quantity), in list order:
    other legs and legs out of scope have no influence, and an instrument
    without such legs has no entry. *)
Theorem snapshot_positions_lookup cfg pos_list exch sym :
  snapshot_option_positions cfg pos_list !! (exch, sym)
  = merge_pairs (legs_of cfg pos_list exch sym).
Proof.
  unfold snapshot_option_positions. rewrite lookup_omap, group_legs_lookup.
  destruct (legs_of cfg pos_list exch sym); reflexivity.
Qed.

Lemma nonpositive_sum (l : list Q) :
  Forall (fun x => x <= 0) l -> sum_Q l <= 0.
Proof.
  induction 1 as [|x l Hx _ IHl].
  - unfold sum_Q. simpl. lra.
  - pose proof (NumFacts.sum_Q_cons x l). lra.
Qed.

(** A positive net quantity needs a long leg. *)
Lemma long_leg_exists (pairs : list (Q * Q)) :
  0 < sum_Q (map fst pairs) ->
  List.filter (fun qa => Qltb 0 (fst qa)) pairs <> [].
Proof.
  intros Hpos Hnil.
  assert (H : Forall (fun x => x <= 0) (map fst pairs)).
  { apply List.Forall_forall. intros x Hx. apply in_map_iff in Hx.
    destruct Hx as (qa & <- & Hin).
    destruct (Qltb 0 (fst qa)) eqn:E; [|now apply Qltb_ge].
    assert (Hf : In qa (List.filter (fun qa => Qltb 0 (fst qa)) pairs))
      by (apply filter_In; auto).
    rewrite Hnil in Hf. contradiction. }
  apply nonpositive_sum in H. lra.
Qed.

Lemma legs_of_scope cfg pos_list exch sym :
  legs_of cfg pos_list exch sym <> [] ->
  In exch EXCHANGES /\ is_option_symbol sym = true.
Proof.
  unfold legs_of. intros Hne.
  destruct (List.filter _ pos_list) as [|p l] eqn:Hf; [now elim Hne|].
  assert (Hin : In p (List.filter
                        (fun p => leg_in_scope cfg p
                                  && bool_decide ((p_exchange p, p_symbol p)
                                                  = (exch, sym))) pos_list))
    by (rewrite Hf; now left).
  apply filter_In in Hin. destruct Hin as [_ Hp].
  apply andb_true_iff in Hp. destruct Hp as [Hs Hk].
  apply bool_decide_eq_true in Hk. injection Hk as <- <-.
  unfold leg_in_scope in Hs.
  repeat (apply andb_true_iff in Hs; destruct Hs as [Hs ?]).
  split; [|assumption].
  apply existsb_exists in Hs. destruct Hs as (x & Hx & Heq).
  apply String.eqb_eq in Heq. now subst x.
Qed.

(** X9.  An instrument has an entry in the position snapshot exactly when
    the net quantity of its legs in scope is positive (the test for missing
    long legs at line 365 never fires); the entry then holds that net
    quantity, the instrument trades on NFO or BFO and has an option symbol,
    and the average is the weighted average of its long legs alone: short
    legs lower the quantity and leave the average as it is.  The quantity a
    cycle reads with [totals.get] is therefore never negative. *)
Theorem position_entry cfg pos_list exch sym :
  let pairs := legs_of cfg pos_list exch sym in
  let entry := snapshot_option_positions cfg pos_list !! (exch, sym) in
  (is_Some entry <-> 0 < sum_Q (map fst pairs))
  /\ (forall q a, entry = Some (q, a) ->
        q = sum_Q (map fst pairs) /\ 0 < q
        /\ In exch EXCHANGES /\ is_option_symbol sym = true
        /\ a = weighted_avg (List.filter (fun qa => Qltb 0 (fst qa)) pairs))
  /\ 0 <= fst (totals_get (snapshot_option_positions cfg pos_list) (exch, sym)).
Proof.
  cbv zeta. unfold totals_get. rewrite snapshot_positions_lookup.
  set (pairs := legs_of cfg pos_list exch sym).
  assert (Hentry : forall q a, merge_pairs pairs = Some (q, a) ->
            q = sum_Q (map fst pairs) /\ 0 < q
            /\ a = weighted_avg (List.filter (fun qa => Qltb 0 (fst qa)) pairs)).
  { intros q a. unfold merge_pairs.
    destruct (Qltb 0 (sum_Q (map fst pairs))) eqn:Hpos; [|discriminate].
    apply Qltb_lt in Hpos.
    destruct (List.filter _ pairs); [discriminate|].
    intros [= <- <-]. auto. }
  split; [|split].
  - split.
    + intros [[q a] He]. destruct (Hentry q a He) as (-> & Hq & _). exact Hq.
    + intros Hpos. unfold merge_pairs.
      pose proof (long_leg_exists pairs Hpos) as Hne.
      apply Qltb_lt in Hpos. rewrite Hpos.
      destruct (List.filter _ pairs); [now elim Hne|eauto].
  - intros q a He. destruct (Hentry q a He) as (Hq & Hpos & Ha).
    assert (Hne : pairs <> []).
    { intros Hnil. rewrite Hnil in He. discriminate. }
    destruct (legs_of_scope cfg pos_list exch sym Hne) as [Hex Hsym].
    split; [exact Hq|]. split; [exact Hpos|].
    split; [exact Hex|]. split; [exact Hsym|exact Ha].
  - destruct (merge_pairs pairs) as [[q a]|]; simpl.
    + destruct (Hentry q a eq_refl) as (_ & Hpos & _). lra.
    + lra.
Qed.

(** Long 10 @ 100 and 30 @ 120, short 15 @ 90: 25 at the long legs' average
    of 115; the stock leg gives no entry. *)
Lemma position_entry_witness :
  exists q a,
    snapshot_option_positions default_config sample_legs !! ("NFO", "NIFTY24CE")%string
    = Some (q, a)
    /\ q == 25 /\ a == 115
    /\ snapshot_option_positions default_config sample_legs !! ("NSE", "INFY")%string
       = None.
Proof.
  destruct (snapshot_option_positions default_config sample_legs
              !! ("NFO", "NIFTY24CE")%string) as [[q a]|] eqn:E.
  - destruct (position_entry default_config sample_legs "NFO" "NIFTY24CE")
      as (_ & Hentry & _).
    destruct (Hentry q a E) as (Hq & _ & _ & _ & Ha).
    exists q, a. split; [reflexivity|].
    split; [rewrite Hq; vm_compute; reflexivity|].
    split; [rewrite Ha; vm_compute; reflexivity|vm_compute; reflexivity].
  - exfalso. vm_compute in E. discriminate.
Defined.

(** X10.  The open orders the snapshot groups under an instrument are the
    orders of the book that pass the scope tests (exchange, product, status
    open, option symbol) for that instrument, in book order; no key holds an
    empty list. *)
Theorem snapshot_orders_lookup cfg book exch sym :
  default [] (snapshot_open_orders_options cfg book !! (exch, sym))
  = open_orders_get cfg book exch sym
  /\ snapshot_open_orders_options cfg book !! (exch, sym) <> Some [].
Proof.
  unfold snapshot_open_orders_options.
  rewrite (group_lookup (order_in_scope cfg)
             (fun o => (o_exchange o, o_symbol o)) (fun o => o)).
  rewrite lookup_empty, map_id.
  assert (E : List.filter
                (fun o => order_in_scope cfg o
                          && bool_decide ((o_exchange o, o_symbol o) = (exch, sym)))
                book
              = open_orders_get cfg book exch sym).
  { unfold open_orders_get. apply filter_ext. intros o.
    unfold order_in_scope. rewrite <- !andb_assoc. do 4 f_equal.
    destruct (bool_decide ((o_exchange o, o_symbol o) = (exch, sym))) eqn:Hk.
    - apply bool_decide_eq_true in Hk. injection Hk as -> ->.
      now rewrite !String.eqb_refl.
    - apply bool_decide_eq_false in Hk. symmetry. apply andb_false_iff.
      destruct (String.eqb (o_exchange o) exch) eqn:E1; [|now left].
      destruct (String.eqb (o_symbol o) sym) eqn:E2; [|now right].
      apply String.eqb_eq in E1, E2. subst. now elim Hk. }
  rewrite E. destruct (open_orders_get cfg book exch sym); split;
    try reflexivity; discriminate.
Qed.

End SnapshotFacts.

(** ** Response shapes *)

Module ShapeFacts.
Import Shapes.

Section Rows.
Context {A : Type}.

(** X11.  A bare list, a success envelope with the list under "data", and a
    success envelope with the list nested under the function's first key
    normalise to the same rows: [norm_positions] (key "positions"),
    [norm_orders] (key "orders") and [norm_execs] (key "trades"). *)
Theorem norm_shapes_agree (d : gmap string (Json A)) :
  jget d "status" = JStr "success" ->
  (forall rows, carries "positions" d rows ->
     norm_positions (JDict d) = rows /\ norm_positions (JList rows) = rows)
  /\ (forall rows, carries "orders" d rows ->
        norm_orders (JDict d) = rows /\ norm_orders (JList rows) = rows)
  /\ (forall rows, carries "trades" d rows ->
        norm_execs (JDict d) = rows /\ norm_execs (JList rows) = rows).
Proof.
  intros Hs. unfold norm_positions, norm_orders, norm_enveloped, norm_execs.
  rewrite Hs. cbn [is_success String.eqb Ascii.eqb Bool.eqb].
  repeat split; try reflexivity;
    match goal with H : carries _ _ _ |- _ =>
      destruct H as [H|(inner & H & Hin)]; rewrite H; [reflexivity|];
      cbn [first_list]; rewrite Hin; reflexivity
    end.
Qed.

(** X12.  The status of an envelope is not enforced on a top-level list: a
    response whose "data" is a list is read as those rows whatever its
    status says, by [norm_execs] always, by [norm_orders] when "orders" is
    not a list, and by [norm_positions] when "positions" is not a list. *)
Theorem status_not_enforced (d : gmap string (Json A)) rows :
  jget d "data" = JList rows ->
  norm_execs (JDict d) = rows
  /\ (not_a_list (jget d "orders") -> norm_orders (JDict d) = rows)
  /\ (not_a_list (jget d "positions") -> norm_positions (JDict d) = rows).
Proof.
  intros Hd. unfold norm_positions, norm_orders, norm_enveloped, norm_execs.
  rewrite Hd. split; [reflexivity|].
  split; intros Hn; destruct (is_success (jget d "status")); try reflexivity;
    cbn [first_list];
    match goal with |- context [jget d ?k] =>
      destruct (jget d k) as [| | |l|] eqn:E; try (now rewrite ?Hd);
      exfalso; apply (Hn l); reflexivity
    end.
Qed.

End Rows.

Lemma norm_shapes_agree_witness :
  let d : gmap string (Json nat) :=
    <["status" := JStr "success"]> (<["data" := JList [1; 2]%nat]> ∅) in
  jget d "status" = JStr "success"
  /\ carries "orders" d [1; 2]%nat
  /\ norm_orders (JDict d) = [1; 2]%nat.
Proof.
  assert (H1 : jget (A:=nat)
                 (<["status" := JStr "success"]> (<["data" := JList [1; 2]%nat]> ∅))
                 "status" = JStr "success") by (vm_compute; reflexivity).
  assert (H2 : carries "orders"
                 (<["status" := JStr "success"]>
                    (<["data" := JList [1; 2]%nat]> (∅ : gmap string (Json nat))))
                 [1; 2]%nat) by (left; vm_compute; reflexivity).
  split; [exact H1|]. split; [exact H2|].
  exact (proj1 (proj1 (proj2 (norm_shapes_agree _ H1)) _ H2)).
Defined.

Lemma status_not_enforced_witness :
  let d : gmap string (Json nat) :=
    <["status" := JStr "error"]> (<["data" := JList [1; 2]%nat]> ∅) in
  jget d "data" = JList [1; 2]%nat
  /\ not_a_list (jget d "orders")
  /\ norm_orders (JDict d) = [1; 2]%nat.
Proof.
  assert (H1 : jget (A:=nat)
                 (<["status" := JStr "error"]> (<["data" := JList [1; 2]%nat]> ∅))
                 "data" = JList [1; 2]%nat) by (vm_compute; reflexivity).
  assert (H2 : not_a_list
                 (jget (A:=nat)
                    (<["status" := JStr "error"]>
                       (<["data" := JList [1; 2]%nat]> ∅)) "orders"))
    by (intros rows; vm_compute; discriminate).
  split; [exact H1|]. split; [exact H2|].
  exact (proj1 (proj2 (status_not_enforced _ _ H1)) H2).
Defined.

End ShapeFacts.

(** ** Decision cycles *)

Module CycleFacts.
Import Engine EngineFacts.

(** *** The shape of a cycle *)

Lemma cycle_flat cfg st prev_qty inp :
  in_qty inp <= 0 ->
  symbol_cycle cfg st prev_qty inp
  = Some (if tracking st
          then {| out_state :=
                    clear_session
                      (set_tracking false
                         (set_manual_override false
                            (set_open_sell None None None (set_view 0 0 st))));
                  out_last_qty := 0;
                  out_calls := cancel_existing_sells (in_orders inp);
                  out_choice := None |}
          else {| out_state := set_view 0 0 st; out_last_qty := 0;
                  out_calls := []; out_choice := None |}).
Proof.
  intros Hq. unfold symbol_cycle. apply Qle_bool_iff in Hq. rewrite Hq.
  cbn [set_view tracking]. now destruct (tracking st).
Qed.

Lemma cycle_positive cfg st prev_qty inp :
  0 < in_qty inp ->
  exists lq la sa st3,
    costing cfg (cycle_start st prev_qty inp) inp = Some (lq, la, sa, st3)
    /\ (st3 = cycle_start st prev_qty inp
        \/ exists q, 0 < q /\ st3 = note_session_qty q (cycle_start st prev_qty inp))
    /\ symbol_cycle cfg st prev_qty inp
       = Some (match choose_avg cfg sa (session_buy_qty st3) (in_qty inp) lq la
                       (session_start st3) (in_now_defer inp) (in_pos_avg inp) with
               | Defer =>
                   {| out_state := st3; out_last_qty := in_qty inp;
                      out_calls := []; out_choice := Some Defer |}
               | Chosen src avg =>
                   {| out_state :=
                        fst (reconcile cfg (set_view (in_qty inp) avg st3) inp avg);
                      out_last_qty := in_qty inp;
                      out_calls :=
                        snd (reconcile cfg (set_view (in_qty inp) avg st3) inp avg);
                      out_choice := Some (Chosen src avg) |}
               end).
Proof.
  intros Hq.
  destruct (costing_result cfg (cycle_start st prev_qty inp) inp)
    as (lq & la & sa & st3 & Hc & Hcase).
  exists lq, la, sa, st3. split; [exact Hc|]. split.
  - destruct Hcase as [[_ ->]|(q & Hq' & _ & ->)]; [now left|right; eauto].
  - unfold symbol_cycle.
    assert (Hn : Qle_bool (in_qty inp) 0 = false) by (apply Qle_bool_gt; exact Hq).
    rewrite Hn, Hc. cbn [mbind option_bind].
    destruct (choose_avg _ _ _ _ _ _ _ _ _) as [|src avg]; [reflexivity|].
    now destruct (reconcile cfg (set_view (in_qty inp) avg st3) inp avg).
Qed.

Lemma cycle_calls_total cfg st prev_qty inp :
  is_Some (symbol_cycle cfg st prev_qty inp).
Proof.
  destruct (Qlt_le_dec 0 (in_qty inp)) as [Hq|Hq].
  - destruct (cycle_positive cfg st prev_qty inp Hq)
      as (lq & la & sa & st3 & _ & _ & ->). eauto.
  - rewrite (cycle_flat cfg st prev_qty inp Hq). eauto.
Qed.

Lemma ensure_one_sell_calls cfg exch sym q avg answer :
  snd (ensure_one_sell cfg exch sym q avg answer)
  = if Qle_bool q 0 then []
    else [PlaceOrder sym exch "SELL" q (target_price cfg avg)
                     (PLACE_PRODUCT cfg) "LIMIT"].
Proof.
  unfold ensure_one_sell, target_price.
  destruct (Qle_bool q 0); [reflexivity|].
  destruct answer as [|a b d]; [reflexivity|].
  now destruct (response_oid a b d).
Qed.

(** The three outcomes of the reconciliation step. *)
Lemma reconcile_cases cfg st inp avg :
  (exists o b,
     find_sell (in_orders inp) (in_qty inp) = Some o
     /\ reconcile cfg st inp avg
        = (set_armed false
             (set_manual_override b
                (set_open_sell (Some (orderid o)) (Some (o_price o))
                               (Some (in_qty inp)) st)), []))
  \/ (find_sell (in_orders inp) (in_qty inp) = None
      /\ exists oid px oq,
           let placed :=
             snd (ensure_one_sell cfg (st_exchange st) (st_symbol st)
                                  (in_qty inp) avg (in_answer inp)) in
           reconcile cfg st inp avg
           = if armed st
             then (set_armed false (set_open_sell oid px oq st), placed)
             else (set_open_sell oid px oq st,
                   cancel_existing_sells (in_orders inp) ++ placed)).
Proof.
  destruct (find_sell (in_orders inp) (in_qty inp)) as [o|] eqn:Hf.
  - left. exists o, (negb (Qltb (Qabs (o_price o - target_price cfg avg)) EPSILON)).
    split; [reflexivity|]. now apply reconcile_found.
  - right. split; [reflexivity|].
    rewrite (reconcile_not_found cfg st inp avg Hf).
    destruct (ensure_one_sell cfg (st_exchange st) (st_symbol st) (in_qty inp)
                avg (in_answer inp)) as [[[oid px] oq] calls].
    exists oid, px, oq. cbn [snd]. now destruct (armed st).
Qed.

(** What the reconciliation step leaves alone, and that it always disarms an
    armed state. *)
Lemma reconcile_keeps cfg st inp avg :
  let st' := fst (reconcile cfg st inp avg) in
  tracking st' = tracking st
  /\ session_start st' = session_start st
  /\ session_buy_value st' = session_buy_value st
  /\ st_symbol st' = st_symbol st /\ st_exchange st' = st_exchange st
  /\ total_qty st' = total_qty st /\ avg_price st' = avg_price st
  /\ armed st' = false.
Proof.
  cbv zeta.
  destruct (reconcile_cases cfg st inp avg)
    as [(o & b & _ & ->)|(_ & oid & px & oq & ->)].
  - repeat split.
  - destruct (armed st) eqn:Ha; cbn; repeat split; exact Ha.
Qed.

Lemma cycle_start_keeps st prev_qty inp :
  let st' := cycle_start st prev_qty inp in
  tracking st' = true
  /\ st_symbol st' = st_symbol st /\ st_exchange st' = st_exchange st
  /\ (tracking st = true -> session_start st' = session_start st)
  /\ (tracking st = false -> session_start st' = Some (in_now_session inp))
  /\ (tracking st = true ->
      session_buy_value st' = session_buy_value st
      /\ armed st' = (Qltb prev_qty (in_qty inp) || armed st))
  /\ (tracking st = false -> session_buy_value st' = 0 /\ armed st' = true).
Proof.
  cbv zeta. unfold cycle_start.
  destruct (tracking st) eqn:Ht; destruct (Qltb prev_qty (in_qty inp));
    cbn; rewrite ?Ht; repeat split; try congruence; try discriminate;
    intros; try discriminate.
Qed.

(** X15.  Armed to settled.  A cycle with a positive quantity returns,
    leaves the instrument tracking and records the quantity as [last_qty];
    unless it defers, it ends disarmed with [total_qty] the quantity and
    [avg_price] the chosen average; when it defers it changes neither of
    these two nor the owned order. *)
Theorem positive_cycle_settles cfg st prev_qty inp :
  0 < in_qty inp ->
  exists r,
    symbol_cycle cfg st prev_qty inp = Some r
    /\ tracking (out_state r) = true
    /\ out_last_qty r = in_qty inp
    /\ (forall src avg,
          out_choice r = Some (Chosen src avg) ->
          armed (out_state r) = false
          /\ total_qty (out_state r) = in_qty inp
          /\ avg_price (out_state r) = avg)
    /\ (out_choice r = Some Defer ->
          total_qty (out_state r) = total_qty st
          /\ avg_price (out_state r) = avg_price st
          /\ open_sell_id (out_state r) = open_sell_id st
          /\ out_calls r = []).
Proof.
  intros Hq.
  destruct (cycle_positive cfg st prev_qty inp Hq)
    as (lq & la & sa & st3 & _ & Hst3 & ->).
  pose proof (cycle_start_keeps st prev_qty inp) as (Ht & _).
  assert (H3 : tracking st3 = true
               /\ total_qty st3 = total_qty st /\ avg_price st3 = avg_price st
               /\ open_sell_id st3 = open_sell_id st).
  { assert (total_qty (cycle_start st prev_qty inp) = total_qty st
            /\ avg_price (cycle_start st prev_qty inp) = avg_price st
            /\ open_sell_id (cycle_start st prev_qty inp) = open_sell_id st)
      as (E1 & E2 & E3).
    { unfold cycle_start.
      destruct (negb (tracking st)), (Qltb prev_qty (in_qty inp));
        repeat split. }
    destruct Hst3 as [->|(q & _ & ->)]; cbn; auto. }
  destruct H3 as (Ht3 & Hq3 & Ha3 & Ho3).
  eexists. split; [reflexivity|].
  destruct (choose_avg _ _ _ _ _ _ _ _ _) as [|src avg]; cbn [out_state out_last_qty out_choice out_calls].
  - split; [exact Ht3|]. split; [reflexivity|]. split; [discriminate|].
    intros _. auto.
  - pose proof (reconcile_keeps cfg (set_view (in_qty inp) avg st3) inp avg)
      as (K1 & _ & _ & _ & _ & K6 & K7 & K8).
    split; [rewrite K1; exact Ht3|]. split; [reflexivity|].
    split; [|discriminate].
    intros src' avg' [= _ <-]. rewrite K6, K7, K8. repeat split.
Qed.

Lemma positive_cycle_settles_witness :
  0 < in_qty scenario_input
  /\ exists r,
       symbol_cycle default_config scenario_state 10 scenario_input = Some r
       /\ tracking (out_state r) = true
       /\ out_last_qty r = in_qty scenario_input.
Proof.
  assert (H : 0 < in_qty scenario_input) by reflexivity.
  split; [exact H|].
  destruct (positive_cycle_settles default_config scenario_state 10
              scenario_input H) as (r & Hr & Ht & Hl & _).
  exists r. auto.
Defined.

(** *** What a cycle calls *)

Lemma cancel_existing_sells_allowed cfg st inp avg :
  Forall (call_allowed cfg st inp avg) (cancel_existing_sells (in_orders inp)).
Proof.
  assert (H : forall orders,
             (forall o, In o orders -> In o (in_orders inp)) ->
             Forall (call_allowed cfg st inp avg) (cancel_existing_sells orders)).
  { induction orders as [|o orders IHo]; intros Hsub; [constructor|].
    cbn [cancel_existing_sells].
    assert (Hrest : Forall (call_allowed cfg st inp avg)
                      (cancel_existing_sells orders))
      by (apply IHo; intros; apply Hsub; now right).
    destruct (String.eqb (action o) "SELL") eqn:Ha; [|exact Hrest].
    destruct (cancellable (status o)) eqn:Hs; cbn [negb]; [|exact Hrest].
    constructor; [|exact Hrest].
    exists o. apply String.eqb_eq in Ha.
    split; [apply Hsub; now left|]. auto. }
  apply H. auto.
Qed.

Lemma reconcile_calls_allowed cfg st inp avg :
  Forall (call_allowed cfg st inp avg) (snd (reconcile cfg st inp avg))
  /\ (length (List.filter is_place (snd (reconcile cfg st inp avg))) <= 1)%nat.
Proof.
  assert (Hplace :
            Forall (call_allowed cfg st inp avg)
                   (snd (ensure_one_sell cfg (st_exchange st) (st_symbol st)
                                         (in_qty inp) avg (in_answer inp)))
            /\ (length (snd (ensure_one_sell cfg (st_exchange st) (st_symbol st)
                                             (in_qty inp) avg (in_answer inp)))
                <= 1)%nat).
  { rewrite ensure_one_sell_calls.
    destruct (Qle_bool (in_qty inp) 0) eqn:Hq; [split; [constructor|simpl; lia]|].
    apply Qle_bool_gt in Hq. split; [|simpl; lia].
    constructor; [|constructor]. split; [reflexivity|exact Hq]. }
  destruct Hplace as [Hp Hlen].
  destruct (reconcile_cases cfg st inp avg)
    as [(o & b & _ & ->)|(_ & oid & px & oq & ->)].
  - split; [constructor|simpl; lia].
  - cbv zeta. destruct (armed st); cbn [snd].
    + split; [exact Hp|].
      etransitivity; [apply filter_length_le|exact Hlen].
    + split.
      * apply Forall_app. split; [apply cancel_existing_sells_allowed|exact Hp].
      * rewrite List.filter_app, length_app.
        assert (E : List.filter is_place (cancel_existing_sells (in_orders inp)) = []).
        { pose proof (cancel_existing_sells_no_place (in_orders inp)) as Hn.
          induction (cancel_existing_sells (in_orders inp)) as [|c cs IHc];
            [reflexivity|].
          cbn [forallb] in Hn. apply andb_true_iff in Hn. destruct Hn as [Hc Hn].
          cbn [List.filter]. apply negb_true_iff in Hc. rewrite Hc. now apply IHc. }
        rewrite E. cbn [length].
        etransitivity; [apply filter_length_le|exact Hlen].
Qed.

(** X16.  What a cycle may call.  Every cycle returns; each cancellation it
    requests is for a SELL order of the open-orders snapshot it was given
    (never a BUY, never an order it did not see); it places at most one order,
    and that order is a SELL LIMIT for the instrument, for the cycle's
    positive quantity, at the target price of the average it chose. *)
Theorem cycle_calls_allowed cfg st prev_qty inp :
  exists r,
    symbol_cycle cfg st prev_qty inp = Some r
    /\ Forall (call_allowed cfg st inp (chosen_of r)) (out_calls r)
    /\ (length (List.filter is_place (out_calls r)) <= 1)%nat.
Proof.
  destruct (Qlt_le_dec 0 (in_qty inp)) as [Hq|Hq].
  - destruct (cycle_positive cfg st prev_qty inp Hq)
      as (lq & la & sa & st3 & _ & Hst3 & ->).
    eexists. split; [reflexivity|].
    destruct (choose_avg _ _ _ _ _ _ _ _ _) as [|src avg];
      cbn [out_calls]; unfold chosen_of; cbn [out_choice].
    + split; [constructor|simpl; lia].
    + pose proof (reconcile_calls_allowed cfg (set_view (in_qty inp) avg st3)
                    inp avg) as [Hall Hlen].
      split; [|exact Hlen].
      eapply Forall_impl; [exact Hall|].
      intros c Hc. destruct c as [i|s0 e0 a0 q0 px0 pr0 pt0]; [exact Hc|].
      destruct Hc as [Hc Hpos]. split; [|exact Hpos]. rewrite Hc.
      unfold placement. cbn [st_symbol st_exchange set_view].
      pose proof (cycle_start_keeps st prev_qty inp) as (_ & Hs & He & _).
      destruct Hst3 as [->|(q & _ & ->)]; cbn; now rewrite Hs, He.
  - rewrite (cycle_flat cfg st prev_qty inp Hq).
    eexists. split; [reflexivity|].
    destruct (tracking st); cbn [out_calls].
    + split; [apply cancel_existing_sells_allowed|].
      induction (in_orders inp) as [|o orders IHo]; [simpl; lia|].
      cbn [cancel_existing_sells].
      destruct (String.eqb (action o) "SELL"); [|exact IHo].
      destruct (negb (cancellable (status o))); [exact IHo|].
      cbn [List.filter is_place]. exact IHo.
    + split; [constructor|simpl; lia].
Qed.

Lemma costing_keeps cfg st inp lq la sa st3 :
  costing cfg st inp = Some (lq, la, sa, st3) ->
  tracking st3 = tracking st /\ armed st3 = armed st
  /\ session_start st3 = session_start st
  /\ session_buy_value st3 = session_buy_value st
  /\ st_symbol st3 = st_symbol st /\ st_exchange st3 = st_exchange st.
Proof.
  intros H. destruct (costing_result cfg st inp)
    as (lq' & la' & sa' & st' & H' & Hcase).
  rewrite H in H'. injection H' as <- <- <- <-.
  destruct Hcase as [[_ ->]|(q & _ & _ & ->)]; repeat split.
Qed.

(** A cycle with positive quantity that finds no SELL at that quantity:
    it defers, or places, after cancelling when it is not armed. *)
Lemma unfound_cycle_calls cfg st prev_qty inp :
  0 < in_qty inp ->
  find_sell (in_orders inp) (in_qty inp) = None ->
  exists r,
    symbol_cycle cfg st prev_qty inp = Some r
    /\ ((out_choice r = Some Defer /\ out_calls r = [])
        \/ exists src avg,
             out_choice r = Some (Chosen src avg)
             /\ out_calls r
                = (if armed (cycle_start st prev_qty inp) then []
                   else cancel_existing_sells (in_orders inp))
                  ++ [placement cfg st (in_qty inp) avg]).
Proof.
  intros Hq Hf.
  destruct (cycle_positive cfg st prev_qty inp Hq)
    as (lq & la & sa & st3 & Hc & _ & ->).
  destruct (costing_keeps _ _ _ _ _ _ _ Hc) as (_ & Ha3 & _ & _ & Hs3 & He3).
  pose proof (cycle_start_keeps st prev_qty inp) as (_ & Hs & He & _).
  eexists. split; [reflexivity|].
  destruct (choose_avg _ _ _ _ _ _ _ _ _) as [|src avg];
    cbn [out_choice out_calls]; [left; auto|].
  right. exists src, avg. split; [reflexivity|].
  rewrite (reconcile_not_found cfg _ inp avg Hf).
  pose proof (ensure_one_sell_calls cfg
                (st_exchange (set_view (in_qty inp) avg st3))
                (st_symbol (set_view (in_qty inp) avg st3))
                (in_qty inp) avg (in_answer inp)) as Hcalls.
  destruct (ensure_one_sell _ _ _ _ _ _) as [[[oid px] oq] calls].
  cbn [snd] in Hcalls. cbn [armed set_view]. rewrite Ha3, Hcalls.
  assert (Hn : Qle_bool (in_qty inp) 0 = false) by (apply Qle_bool_gt; exact Hq).
  rewrite Hn. unfold placement. cbn [st_symbol st_exchange set_view].
  rewrite Hs3, He3, Hs, He.
  now destruct (armed (cycle_start st prev_qty inp)).
Qed.

(** X17.  An armed cycle places without cancelling.  When the quantity is
    positive and the cycle is armed (the quantity grew, tracking starts, or
    the state was armed) and no SELL at exactly that quantity is open, the
    cycle either defers or makes one call, the placement: SELL orders of
    other quantities in the snapshot are not cancelled. *)
Theorem armed_cycle_places_only cfg st prev_qty inp :
  0 < in_qty inp ->
  prev_qty < in_qty inp \/ tracking st = false \/ armed st = true ->
  find_sell (in_orders inp) (in_qty inp) = None ->
  exists r,
    symbol_cycle cfg st prev_qty inp = Some r
    /\ ((out_choice r = Some Defer /\ out_calls r = [])
        \/ exists src avg,
             out_choice r = Some (Chosen src avg)
             /\ out_calls r = [placement cfg st (in_qty inp) avg]).
Proof.
  intros Hq Harm Hf.
  destruct (unfound_cycle_calls cfg st prev_qty inp Hq Hf) as (r & Hr & Hcase).
  exists r. split; [exact Hr|].
  assert (Ha : armed (cycle_start st prev_qty inp) = true).
  { pose proof (cycle_start_keeps st prev_qty inp) as (_ & _ & _ & _ & _ & K1 & K2).
    destruct (tracking st) eqn:Ht.
    - destruct (K1 eq_refl) as [_ ->].
      destruct Harm as [H|[H|H]]; [|discriminate|now rewrite H, orb_true_r].
      apply Qltb_lt in H. now rewrite H.
    - now destruct (K2 eq_refl). }
  rewrite Ha in Hcase. exact Hcase.
Qed.

Lemma armed_cycle_places_only_witness :
  let inp := grow_input2 [moved_order] in
  0 < in_qty inp
  /\ find_sell (in_orders inp) (in_qty inp) = None
  /\ in_orders inp = [moved_order]
  /\ exists r,
       symbol_cycle default_config scenario_state 10 inp = Some r
       /\ ((out_choice r = Some Defer /\ out_calls r = [])
           \/ exists src avg,
                out_choice r = Some (Chosen src avg)
                /\ out_calls r = [placement default_config scenario_state
                                            (in_qty inp) avg]).
Proof.
  assert (H1 : 0 < in_qty (grow_input2 [moved_order])) by reflexivity.
  assert (H2 : 10 < in_qty (grow_input2 [moved_order])
               \/ tracking scenario_state = false
               \/ armed scenario_state = true) by (left; reflexivity).
  assert (H3 : find_sell (in_orders (grow_input2 [moved_order]))
                         (in_qty (grow_input2 [moved_order])) = None)
    by reflexivity.
  split; [exact H1|]. split; [exact H3|]. split; [reflexivity|].
  exact (armed_cycle_places_only default_config scenario_state 10 _ H1 H2 H3).
Defined.

(** X18.  A drift re-price cancels first.  When a tracked, disarmed
    instrument keeps a positive quantity that did not grow and no SELL at
    exactly that quantity is open, the cycle either defers or requests the
    cancellation of every SELL of the snapshot and then makes the placement,
    whether or not [manual_override] is set. *)
Theorem reprice_cancels_then_places cfg st prev_qty inp :
  0 < in_qty inp ->
  in_qty inp <= prev_qty ->
  tracking st = true ->
  armed st = false ->
  find_sell (in_orders inp) (in_qty inp) = None ->
  exists r,
    symbol_cycle cfg st prev_qty inp = Some r
    /\ ((out_choice r = Some Defer /\ out_calls r = [])
        \/ exists src avg,
             out_choice r = Some (Chosen src avg)
             /\ out_calls r
                = cancel_existing_sells (in_orders inp)
                  ++ [placement cfg st (in_qty inp) avg]).
Proof.
  intros Hq Hprev Ht Harm Hf.
  destruct (unfound_cycle_calls cfg st prev_qty inp Hq Hf) as (r & Hr & Hcase).
  exists r. split; [exact Hr|].
  assert (Ha : armed (cycle_start st prev_qty inp) = false).
  { pose proof (cycle_start_keeps st prev_qty inp) as (_ & _ & _ & _ & _ & K1 & _).
    destruct (K1 Ht) as [_ ->]. rewrite Harm.
    apply Qltb_ge in Hprev. now rewrite Hprev. }
  rewrite Ha in Hcase. exact Hcase.
Qed.

Lemma reprice_cancels_then_places_witness :
  let st := set_manual_override true (set_armed false scenario_state) in
  let inp := grow_input2 [moved_order] in
  0 < in_qty inp /\ in_qty inp <= 20
  /\ tracking st = true /\ armed st = false /\ manual_override st = true
  /\ find_sell (in_orders inp) (in_qty inp) = None
  /\ cancel_existing_sells (in_orders inp) = [CancelOrder "S1"]
  /\ exists r,
       symbol_cycle default_config st 20 inp = Some r
       /\ ((out_choice r = Some Defer /\ out_calls r = [])
           \/ exists src avg,
                out_choice r = Some (Chosen src avg)
                /\ out_calls r
                   = cancel_existing_sells (in_orders inp)
                     ++ [placement default_config st (in_qty inp) avg]).
Proof.
  assert (H1 : 0 < in_qty (grow_input2 [moved_order])) by reflexivity.
  assert (H2 : in_qty (grow_input2 [moved_order]) <= 20) by discriminate.
  assert (H5 : find_sell (in_orders (grow_input2 [moved_order]))
                         (in_qty (grow_input2 [moved_order])) = None)
    by reflexivity.
  split; [exact H1|]. split; [exact H2|]. split; [reflexivity|].
  split; [reflexivity|]. split; [reflexivity|]. split; [exact H5|].
  split; [reflexivity|].
  exact (reprice_cancels_then_places default_config
           (set_manual_override true (set_armed false scenario_state)) 20 _
           H1 H2 eq_refl eq_refl H5).
Defined.

(** *** Runs from a fresh state *)

Lemma new_state_ok sym exch : state_ok sym exch (new_state sym exch).
Proof.
  unfold state_ok. cbn. repeat split; try discriminate; try congruence.
Qed.

Lemma cycle_keeps_ok cfg sym exch st prev_qty inp :
  state_ok sym exch st ->
  exists r, symbol_cycle cfg st prev_qty inp = Some r
            /\ state_ok sym exch (out_state r).
Proof.
  intros (Hsym & Hex & Htr & Hval & Hflat).
  destruct (Qlt_le_dec 0 (in_qty inp)) as [Hq|Hq].
  - destruct (cycle_positive cfg st prev_qty inp Hq)
      as (lq & la & sa & st3 & Hc & _ & ->).
    destruct (costing_keeps _ _ _ _ _ _ _ Hc) as (T3 & _ & S3 & V3 & Y3 & E3).
    pose proof (cycle_start_keeps st prev_qty inp)
      as (T2 & Y2 & E2 & S2a & S2b & V2a & V2b).
    assert (Hstart : session_start st3 <> None).
    { rewrite S3. destruct (tracking st) eqn:Ht.
      - rewrite (S2a eq_refl). now apply Htr.
      - rewrite (S2b eq_refl). discriminate. }
    assert (Hv : session_buy_value st3 = 0).
    { rewrite V3. destruct (tracking st) eqn:Ht.
      - destruct (V2a eq_refl) as [-> _]. exact Hval.
      - now destruct (V2b eq_refl). }
    assert (Hok3 : state_ok sym exch st3).
    { unfold state_ok. rewrite Y3, E3, Y2, E2, T3, T2.
      repeat split; auto; discriminate. }
    eexists. split; [reflexivity|].
    destruct (choose_avg _ _ _ _ _ _ _ _ _) as [|src avg]; cbn [out_state];
      [exact Hok3|].
    pose proof (reconcile_keeps cfg (set_view (in_qty inp) avg st3) inp avg)
      as (K1 & K2 & K3 & K4 & K5 & _).
    cbn [tracking session_start session_buy_value st_symbol st_exchange set_view]
      in K1, K2, K3, K4, K5.
    unfold state_ok. rewrite K1, K2, K3, K4, K5, Y3, E3, Y2, E2, T3, T2.
    repeat split; auto; discriminate.
  - rewrite (cycle_flat cfg st prev_qty inp Hq).
    eexists. split; [reflexivity|].
    destruct (tracking st) eqn:Ht; cbn [out_state].
    + unfold state_ok. cbn. repeat split; auto; try discriminate; congruence.
    + destruct (Hflat eq_refl) as (F1 & F2 & F3 & F4 & F5 & F6 & F7 & F8).
      unfold state_ok. cbn. rewrite Ht.
      repeat split; auto; try discriminate; try congruence.
      intros H. now apply Htr in H.
Qed.

Lemma run_keeps_ok cfg sym exch inps : forall st prev_qty,
  state_ok sym exch st ->
  exists rs, run_cycles cfg st prev_qty inps = Some rs
    /\ length rs = length inps
    /\ Forall (fun r => state_ok sym exch (out_state r)) rs.
Proof.
  induction inps as [|inp inps IHi]; intros st prev_qty Hok.
  - exists []. repeat split. constructor.
  - destruct (cycle_keeps_ok cfg sym exch st prev_qty inp Hok) as (r & Hr & Hok').
    destruct (IHi (out_state r) (out_last_qty r) Hok') as (rs & Hrs & Hlen & Hall).
    exists (r :: rs). cbn [run_cycles]. rewrite Hr. cbn [mbind option_bind].
    rewrite Hrs. cbn [mbind option_bind].
    split; [reflexivity|]. split; [simpl; now rewrite Hlen|].
    constructor; assumption.
Qed.

(** X13.  Every run of cycles from a fresh state returns a result for each
    cycle, and after each cycle the state is that of the same instrument, is
    tracking exactly when a session is open, and while not tracking owns no
    order, has no override, is not armed and shows quantity and average
    zero. *)
Theorem run_states_consistent cfg sym exch inps :
  exists rs,
    run_cycles cfg (new_state sym exch) 0 inps = Some rs
    /\ length rs = length inps
    /\ Forall
         (fun r =>
            let st := out_state r in
            st_symbol st = sym /\ st_exchange st = exch
            /\ (tracking st = true <-> session_start st <> None)
            /\ (tracking st = false ->
                open_sell_id st = None /\ manual_override st = false
                /\ armed st = false /\ total_qty st = 0 /\ avg_price st = 0))
         rs.
Proof.
  destruct (run_keeps_ok cfg sym exch inps (new_state sym exch) 0
              (new_state_ok sym exch)) as (rs & Hrs & Hlen & Hall).
  exists rs. split; [exact Hrs|]. split; [exact Hlen|].
  eapply Forall_impl; [exact Hall|].
  intros r (H1 & H2 & H3 & _ & H5). cbv zeta.
  split; [exact H1|]. split; [exact H2|]. split; [exact H3|].
  intros Ht. destruct (H5 Ht) as (F1 & _ & _ & F4 & F5 & F6 & F7 & _). auto.
Qed.

(** X21.  No cycle writes [session_buy_value]: after every cycle of a run
    from a fresh state, the state's own [session_avg()] is [None] or zero,
    whatever was bought. *)
Theorem session_avg_method_is_zero cfg sym exch inps :
  exists rs,
    run_cycles cfg (new_state sym exch) 0 inps = Some rs
    /\ Forall
         (fun r =>
            session_buy_value (out_state r) = 0
            /\ forall a, Session.session_avg (out_state r) = Some a -> a == 0)
         rs.
Proof.
  destruct (run_keeps_ok cfg sym exch inps (new_state sym exch) 0
              (new_state_ok sym exch)) as (rs & Hrs & _ & Hall).
  exists rs. split; [exact Hrs|].
  eapply Forall_impl; [exact Hall|].
  intros r (_ & _ & _ & Hv & _). split; [exact Hv|].
  intros a. unfold Session.session_avg. rewrite Hv.
  destruct (Qltb 0 (session_buy_qty (out_state r))) eqn:E; [|discriminate].
  apply Qltb_lt in E. intros [= <-]. field. lra.
Qed.

(** X14.  The supervisor never seeds the ledger.  In a cycle with positive
    quantity on a state that is tracking only while a session is open (as
    every state of a run is), the session is open by the time the ledger
    engine runs, so the engine is called with opening quantity and average
    zero: the position is not used as a synthetic opening lot. *)
Theorem ledger_never_seeded cfg st prev_qty inp :
  (tracking st = true -> session_start st <> None) ->
  ledger_engine cfg (cycle_start st prev_qty inp) inp
  = if USE_EXECUTIONS cfg
    then fifo_ledger_avg cfg (in_execs inp) (st_exchange st) (st_symbol st) 0 0
    else Some (0, None).
Proof.
  intros Hinv. unfold ledger_engine.
  pose proof (cycle_start_keeps st prev_qty inp) as (_ & Hs & He & S1 & S2 & _).
  rewrite Hs, He.
  destruct (USE_EXECUTIONS cfg); [|reflexivity].
  destruct (tracking st) eqn:Ht.
  - rewrite (S1 eq_refl).
    destruct (session_start st); [reflexivity|]. now elim (Hinv eq_refl).
  - now rewrite (S2 eq_refl).
Qed.

Lemma ledger_never_seeded_witness :
  (tracking (new_state "NIFTY24CE" "NFO") = true ->
   session_start (new_state "NIFTY24CE" "NFO") <> None)
  /\ ledger_engine default_config
       (cycle_start (new_state "NIFTY24CE" "NFO") 0 entry_input) entry_input
     = fifo_ledger_avg default_config (in_execs entry_input) "NFO" "NIFTY24CE" 0 0.
Proof.
  assert (H : tracking (new_state "NIFTY24CE" "NFO") = true ->
              session_start (new_state "NIFTY24CE" "NFO") <> None)
    by discriminate.
  split; [exact H|].
  exact (ledger_never_seeded default_config _ 0 entry_input H).
Defined.

(** X22.  Where the order id is read from.  For a positive quantity the
    function makes exactly one placement call, whatever the broker answers;
    and when the response carries a non-empty id as "orderid" or "order_id",
    at the top level or under "data", the function returns that id with the
    target price and the quantity. *)
Theorem ensure_one_sell_reads_id cfg exch sym q avg i answer :
  0 < q ->
  i <> ""%string ->
  In answer (answers_with i) ->
  ensure_one_sell cfg exch sym q avg answer
  = ((Some i, Some (target_price cfg avg), Some q),
     [PlaceOrder sym exch "SELL" q (target_price cfg avg)
                 (PLACE_PRODUCT cfg) "LIMIT"])
  /\ forall other,
       snd (ensure_one_sell cfg exch sym q avg other)
       = [PlaceOrder sym exch "SELL" q (target_price cfg avg)
                     (PLACE_PRODUCT cfg) "LIMIT"].
Proof.
  intros Hq Hi Hin.
  assert (Hn : Qle_bool q 0 = false) by (apply Qle_bool_gt; exact Hq).
  split.
  - unfold ensure_one_sell, target_price. rewrite Hn.
    apply String.eqb_neq in Hi.
    cbn [answers_with In] in Hin.
    destruct Hin as [<-|[<-|[<-|[<-|[]]]]];
      unfold response_oid, data_get, truthy;
      cbn [mbind option_bind negb]; rewrite ?Hi;
      cbn [mbind option_bind negb]; rewrite ?Hi; reflexivity.
  - intros other. rewrite ensure_one_sell_calls. now rewrite Hn.
Qed.

Lemma ensure_one_sell_reads_id_witness :
  0 < 10 /\ "S7"%string <> ""%string
  /\ In (PlaceResp None None (DataDict None (Some "S7"%string)))
        (answers_with "S7")
  /\ fst (ensure_one_sell default_config "NFO" "NIFTY24CE" 10 100
            (PlaceResp None None (DataDict None (Some "S7"%string))))
     = (Some "S7"%string, Some (target_price default_config 100), Some 10).
Proof.
  assert (H1 : 0 < 10) by reflexivity.
  assert (H2 : "S7"%string <> ""%string) by discriminate.
  assert (H3 : In (PlaceResp None None (DataDict None (Some "S7"%string)))
                  (answers_with "S7")) by (cbn; auto).
  split; [exact H1|]. split; [exact H2|]. split; [exact H3|].
  rewrite (proj1 (ensure_one_sell_reads_id default_config "NFO" "NIFTY24CE"
                    10 100 "S7" _ H1 H2 H3)).
  reflexivity.
Defined.

(** *** Cycles against an order store that reflects the calls *)

Lemma new_order_placed cfg st i q avg :
  placed_order i (placement cfg st q avg) = Some (new_order cfg st i q avg).
Proof. reflexivity. Qed.

Lemma book_after_place cfg st i q avg book calls :
  book_after (Some i) book (calls ++ [placement cfg st q avg])
  = book_after (Some i) book calls ++ [new_order cfg st i q avg].
Proof.
  unfold book_after. rewrite fold_left_app. reflexivity.
Qed.

Lemma new_order_live cfg st i q avg :
  instrument_in_scope cfg st ->
  open_orders_get cfg [new_order cfg st i q avg] (st_exchange st) (st_symbol st)
  = [new_order cfg st i q avg].
Proof.
  intros (Hex & Hsym & Hprod). unfold open_orders_get. cbn [List.filter].
  cbn [new_order o_exchange o_product status o_symbol].
  rewrite Hex, Hsym, !String.eqb_refl.
  assert (Hp : in_products cfg (PLACE_PRODUCT cfg) = true).
  { unfold in_products, PLACE_PRODUCT.
    destruct (OPTION_PRODUCTS cfg) as [|p ps]; [now elim Hprod|].
    cbn [existsb]. now rewrite String.eqb_refl. }
  now rewrite Hp.
Qed.

Lemma open_orders_get_app cfg b1 b2 exch sym :
  open_orders_get cfg (b1 ++ b2) exch sym
  = open_orders_get cfg b1 exch sym ++ open_orders_get cfg b2 exch sym.
Proof. unfold open_orders_get. apply List.filter_app. Qed.

(** After cancellations, an order is in the book only if it was there and
    no cancellation named it. *)
Lemma book_after_cancels oid calls : forall book o,
  forallb (fun c => negb (is_place c)) calls = true ->
  In o (book_after oid book calls) ->
  In o book /\ ~ In (CancelOrder (orderid o)) calls.
Proof.
  induction calls as [|c calls IHc]; intros book o Hall Hin.
  - split; [exact Hin|auto].
  - cbn [forallb] in Hall. apply andb_true_iff in Hall. destruct Hall as [Hc Hall].
    destruct c as [i|? ? ? ? ? ? ?]; [|discriminate].
    unfold book_after in Hin. cbn [fold_left book_after_call] in Hin.
    destruct (IHc _ o Hall Hin) as [Hin' Hno].
    apply filter_In in Hin'. destruct Hin' as [Hb Hne].
    split; [exact Hb|].
    intros [Heq|Hc']; [|now apply Hno].
    injection Heq as ->. rewrite String.eqb_refl in Hne. discriminate.
Qed.

(** X19.  A placement settles.  When a cycle for a positive quantity finds
    no SELL at that quantity and places, the broker accepts the order under
    id [i], and the order book reflects the cycle's calls, then a following
    cycle that reads that book at the same quantity makes no broker call. *)
Theorem placement_settles cfg st prev_qty inp book i inp' :
  0 < in_qty inp ->
  find_sell (in_orders inp) (in_qty inp) = None ->
  instrument_in_scope cfg st ->
  in_qty inp' == in_qty inp ->
  (forall r, symbol_cycle cfg st prev_qty inp = Some r ->
     in_orders inp'
     = open_orders_get cfg (book_after (Some i) book (out_calls r))
                       (st_exchange st) (st_symbol st)) ->
  exists r r',
    symbol_cycle cfg st prev_qty inp = Some r
    /\ symbol_cycle cfg (out_state r) (out_last_qty r) inp' = Some r'
    /\ (out_choice r <> Some Defer -> out_calls r' = []).
Proof.
  intros Hq Hf Hscope Hq' Hbook.
  destruct (unfound_cycle_calls cfg st prev_qty inp Hq Hf) as (r & Hr & Hcase).
  specialize (Hbook r Hr).
  destruct Hcase as [[Hd _]|(src & avg & Hch & Hcalls)].
  - destruct (cycle_calls_total cfg (out_state r) (out_last_qty r) inp')
      as [r' Hr'].
    exists r, r'. split; [exact Hr|]. split; [exact Hr'|]. congruence.
  - rewrite Hcalls, book_after_place, open_orders_get_app in Hbook.
    rewrite (new_order_live cfg st i _ avg Hscope) in Hbook.
    assert (Hin : In (new_order cfg st i (in_qty inp) avg) (in_orders inp'))
      by (rewrite Hbook; apply in_or_app; right; now left).
    destruct (find_sell_present (in_orders inp') (in_qty inp')
                (new_order cfg st i (in_qty inp) avg) Hin eq_refl)
      as [o' Hf']; [cbn; now symmetry|].
    destruct (found_cycle_quiet cfg (out_state r) (out_last_qty r) inp' o'
                ltac:(now rewrite Hq') Hf') as (r' & Hr' & Hquiet & _).
    exists r, r'. split; [exact Hr|]. split; [exact Hr'|]. auto.
Qed.

(** X20.  A re-price leaves one protective order.  When a tracked, disarmed
    instrument at an unchanged positive quantity has no SELL at that quantity
    in the snapshot, the cycle does not defer, the broker accepts the new
    order under id [i], and the order book reflects the cycle's calls, then
    the new order is the only live SELL of the instrument. *)
Theorem reprice_leaves_one_sell cfg st prev_qty inp book i :
  0 < in_qty inp ->
  in_qty inp <= prev_qty ->
  tracking st = true ->
  armed st = false ->
  find_sell (in_orders inp) (in_qty inp) = None ->
  instrument_in_scope cfg st ->
  in_orders inp = open_orders_get cfg book (st_exchange st) (st_symbol st) ->
  exists r,
    symbol_cycle cfg st prev_qty inp = Some r
    /\ forall src avg,
         out_choice r = Some (Chosen src avg) ->
         live_sells cfg (book_after (Some i) book (out_calls r))
                    (st_exchange st) (st_symbol st)
         = [new_order cfg st i (in_qty inp) avg].
Proof.
  intros Hq Hprev Ht Harm Hf Hscope Horders.
  destruct (unfound_cycle_calls cfg st prev_qty inp Hq Hf) as (r & Hr & Hcase).
  exists r. split; [exact Hr|]. intros src avg Hch.
  destruct Hcase as [[Hd _]|(src' & avg' & Hch' & Hcalls)]; [congruence|].
  rewrite Hch in Hch'. injection Hch' as <- <-.
  assert (Ha : armed (cycle_start st prev_qty inp) = false).
  { pose proof (cycle_start_keeps st prev_qty inp) as (_ & _ & _ & _ & _ & K1 & _).
    destruct (K1 Ht) as [_ ->]. rewrite Harm.
    apply Qltb_ge in Hprev. now rewrite Hprev. }
  rewrite Ha in Hcalls. rewrite Hcalls, book_after_place.
  unfold live_sells. rewrite open_orders_get_app, List.filter_app.
  rewrite (new_order_live cfg st i _ avg Hscope).
  cbn [List.filter new_order action String.eqb Ascii.eqb Bool.eqb].
  assert (Hnone : List.filter (fun o => String.eqb (action o) "SELL")
                    (open_orders_get cfg
                       (book_after (Some i) book
                          (cancel_existing_sells (in_orders inp)))
                       (st_exchange st) (st_symbol st)) = []).
  { destruct (List.filter _ _) as [|o l] eqn:E; [reflexivity|]. exfalso.
    assert (Hin : In o (List.filter (fun o => String.eqb (action o) "SELL")
                          (open_orders_get cfg
                             (book_after (Some i) book
                                (cancel_existing_sells (in_orders inp)))
                             (st_exchange st) (st_symbol st))))
      by (rewrite E; now left).
    apply filter_In in Hin. destruct Hin as [Hin Hact].
    unfold open_orders_get in Hin. apply filter_In in Hin.
    destruct Hin as [Hin Hlive].
    destruct (book_after_cancels _ _ _ _
                (cancel_existing_sells_no_place (in_orders inp)) Hin)
      as [Hb Hno].
    apply Hno. rewrite Horders. apply live_sells_cancelled.
    unfold live_sells. apply filter_In. split; [|exact Hact].
    unfold open_orders_get. apply filter_In. auto. }
  rewrite Hnone. reflexivity.
Qed.

Lemma placement_settles_witness :
  let st := new_state "NIFTY24CE" "NFO" in
  0 < in_qty grow_input1
  /\ find_sell (in_orders grow_input1) (in_qty grow_input1) = None
  /\ instrument_in_scope default_config st
  /\ in_qty settle_input == in_qty grow_input1
  /\ exists r r',
       symbol_cycle default_config st 0 grow_input1 = Some r
       /\ symbol_cycle default_config (out_state r) (out_last_qty r) settle_input
          = Some r'
       /\ (out_choice r <> Some Defer -> out_calls r' = []).
Proof.
  assert (H1 : 0 < in_qty grow_input1) by reflexivity.
  assert (H2 : find_sell (in_orders grow_input1) (in_qty grow_input1) = None)
    by reflexivity.
  assert (H3 : instrument_in_scope default_config (new_state "NIFTY24CE" "NFO")).
  { vm_compute. repeat split. discriminate. }
  assert (H4 : in_qty settle_input == in_qty grow_input1) by reflexivity.
  assert (H5 : forall r,
             symbol_cycle default_config (new_state "NIFTY24CE" "NFO") 0
                          grow_input1 = Some r ->
             in_orders settle_input
             = open_orders_get default_config
                 (book_after (Some "S1"%string) [] (out_calls r))
                 (st_exchange (new_state "NIFTY24CE" "NFO"))
                 (st_symbol (new_state "NIFTY24CE" "NFO"))).
  { intros r Hr. vm_compute in Hr. injection Hr as <-. vm_compute. reflexivity. }
  split; [exact H1|]. split; [exact H2|]. split; [exact H3|]. split; [exact H4|].
  exact (placement_settles default_config _ 0 grow_input1 [] "S1" settle_input
           H1 H2 H3 H4 H5).
Defined.

Lemma reprice_leaves_one_sell_witness :
  let st := set_armed false scenario_state in
  let inp := grow_input2 [moved_order] in
  0 < in_qty inp /\ in_qty inp <= 20
  /\ tracking st = true /\ armed st = false
  /\ find_sell (in_orders inp) (in_qty inp) = None
  /\ instrument_in_scope default_config st
  /\ live_sells default_config [moved_order] "NFO" "NIFTY24CE" = [moved_order]
  /\ exists r,
       symbol_cycle default_config st 20 inp = Some r
       /\ forall src avg,
            out_choice r = Some (Chosen src avg) ->
            live_sells default_config
              (book_after (Some "S2"%string) [moved_order] (out_calls r))
              (st_exchange st) (st_symbol st)
            = [new_order default_config st "S2" (in_qty inp) avg].
Proof.
  assert (H1 : 0 < in_qty (grow_input2 [moved_order])) by reflexivity.
  assert (H2 : in_qty (grow_input2 [moved_order]) <= 20) by discriminate.
  assert (H5 : find_sell (in_orders (grow_input2 [moved_order]))
                         (in_qty (grow_input2 [moved_order])) = None)
    by reflexivity.
  assert (H6 : instrument_in_scope default_config
                 (set_armed false scenario_state)).
  { vm_compute. repeat split. discriminate. }
  split; [exact H1|]. split; [exact H2|]. split; [reflexivity|].
  split; [reflexivity|]. split; [exact H5|]. split; [exact H6|].
  split; [reflexivity|].
  exact (reprice_leaves_one_sell default_config (set_armed false scenario_state)
           20 _ [moved_order] "S2" H1 H2 eq_refl eq_refl H5 H6 eq_refl).
Defined.

End CycleFacts.

(** ** Price subscriptions *)

Module RelayFacts.
Import Engine Snapshots Relay.

(** X23.  One pass of the subscription loop brings [subscribed] to the
    desired set, whether or not the calls succeed; it subscribes exactly the
    desired instruments that were not subscribed and unsubscribes exactly
    the subscribed ones no longer desired, skipping a call that would be
    empty; when nothing changed it makes no call.  The desired instruments
    are those of the tracking states. *)
Theorem sync_subscriptions_converges (desired subscribed : gset key) :
  snd (sync_subscriptions desired subscribed) = desired
  /\ fst (sync_subscriptions desired subscribed)
     = (if bool_decide (desired ∖ subscribed = ∅) then []
        else [SubscribeLtp (desired ∖ subscribed)])
       ++ (if bool_decide (subscribed ∖ desired = ∅) then []
           else [UnsubscribeLtp (subscribed ∖ desired)])
  /\ sync_subscriptions desired desired = ([], desired)
  /\ forall states k,
       k ∈ desired_set states
       <-> exists st, In st states /\ tracking st = true
                      /\ (st_exchange st, st_symbol st) = k.
Proof.
  assert (E1 : (subscribed ∪ desired ∖ subscribed) ∖ desired
               = subscribed ∖ desired).
  { apply set_eq. intros x.
    rewrite !elem_of_difference, elem_of_union, elem_of_difference. tauto. }
  assert (E2 : (subscribed ∪ desired ∖ subscribed) ∖ (subscribed ∖ desired)
               = desired).
  { apply set_eq. intros x.
    rewrite !elem_of_difference, elem_of_union, elem_of_difference.
    destruct (decide (x ∈ subscribed)), (decide (x ∈ desired)); tauto. }
  split; [|split; [|split]].
  - unfold sync_subscriptions. cbn [snd]. now rewrite E1, E2.
  - unfold sync_subscriptions. cbn [fst]. now rewrite E1.
  - unfold sync_subscriptions.
    rewrite !difference_diag_L, union_empty_r_L, difference_diag_L,
      difference_empty_L.
    rewrite bool_decide_eq_true_2 by reflexivity. reflexivity.
  - intros states k. unfold desired_set. rewrite elem_of_list_to_set.
    rewrite list_elem_of_In, in_map_iff. split.
    + intros (st & Hk & Hin). apply filter_In in Hin. destruct Hin as [Hin Ht].
      exists st. auto.
    + intros (st & Hin & Ht & Hk). exists st. split; [exact Hk|].
      apply filter_In. auto.
Qed.

End RelayFacts.

(** ** Option symbols *)

Module SymbolFacts.
Import Engine.

Local Open Scope string_scope.

Lemma substring_all (s : string) : String.substring 0 (String.length s) s = s.
Proof. induction s as [|c s IHs]; [reflexivity|]. simpl. now rewrite IHs. Qed.

Lemma substring_skip (p s : string) (n : nat) :
  String.substring (String.length p) n (p ++ s) = String.substring 0 n s.
Proof. induction p as [|c p IHp]; [reflexivity|]. simpl. exact IHp. Qed.

Lemma length_append (p s : string) :
  String.length (p ++ s) = (String.length p + String.length s)%nat.
Proof. induction p as [|c p IHp]; [reflexivity|]. simpl. now rewrite IHp. Qed.

(** A string is its first [n] characters followed by the rest. *)
Lemma substring_split (s : string) : forall n,
  (n <= String.length s)%nat ->
  s = String.substring 0 n s ++ String.substring n (String.length s - n) s.
Proof.
  induction s as [|c s IHs]; intros n Hn.
  - simpl in Hn. assert (n = 0)%nat by lia. subst. reflexivity.
  - destruct n as [|n].
    + rewrite Nat.sub_0_r, substring_all. reflexivity.
    + simpl in Hn.
      change (String c s
              = String c (String.substring 0 n s
                          ++ String.substring n (String.length s - n) s)).
      f_equal. apply IHs. lia.
Qed.

Lemma ends_with_iff (suffix s : string) :
  ends_with suffix s = true <-> exists p, s = p ++ suffix.
Proof.
  unfold ends_with. rewrite andb_true_iff, String.eqb_eq, Nat.leb_le. split.
  - intros [Hsub Hlen].
    exists (String.substring 0 (String.length s - String.length suffix) s).
    pose proof (substring_split s (String.length s - String.length suffix)
                  ltac:(lia)) as Hsplit.
    replace (String.length s - (String.length s - String.length suffix))%nat
      with (String.length suffix) in Hsplit by lia.
    rewrite Hsub in Hsplit. exact Hsplit.
  - intros [p ->]. rewrite length_append. split; [|lia].
    replace (String.length p + String.length suffix - String.length suffix)%nat
      with (String.length p) by lia.
    rewrite substring_skip. apply substring_all.
Qed.

(** X24.  [is_option_symbol] accepts exactly the symbols that end in "CE"
    or in "PE"; in particular it rejects the empty symbol. *)
Theorem is_option_symbol_iff (s : string) :
  (is_option_symbol s = true
   <-> exists p, s = p ++ "CE" \/ s = p ++ "PE")
  /\ is_option_symbol "" = false.
Proof.
  split; [|reflexivity].
  unfold is_option_symbol. rewrite orb_true_iff, !ends_with_iff. split.
  - intros [[p Hp]|[p Hp]]; exists p; auto.
  - intros [p [Hp|Hp]]; [left|right]; exists p; exact Hp.
Qed.

End SymbolFacts.
